(** * reflow: the EC2 cluster manager and the DynamoDB task store

    A shallow embedding of

    - [ec2cluster/instance.go]: the instance-type selector
      ([instanceState]), the launch state machine ([instance.Go]) and
      the spot request path;
    - [taskdb/dynamodbtask/dynamodb.go]: the task store's writes and its
      query builder.

    Conventions.  A Go [float64] is a primitive binary64 [float]; a Go map
    is a [gmap] and reading an absent key yields the zero value, as in Go;
    a [time.Time] is the number of nanoseconds since the Unix epoch and a
    [time.Duration] a number of nanoseconds, both in [Z]; calls to AWS are
    answers supplied by the caller of the model. *)

From Stdlib Require Import Floats ZArith Lia Bool Ascii.
From stdpp Require Import gmap strings pretty list fin_maps.

Set Warnings "-inexact-float".

(** ** float64 and time *)

Module Float64.

(** [math.MaxFloat64]. *)
Definition MaxFloat64 : float := 0x1.fffffffffffffp+1023%float.

(** [m[key]] on a [map[string]float64]: the zero value when [key] is absent. *)
Definition index (m : gmap string float) (key : string) : float :=
  default 0%float (m !! key).

End Float64.

Module Time.

Definition Second : Z := 1000000000.
Definition Minute : Z := 60 * Second.

(** The largest and smallest [time.Duration] (an int64). *)
Definition maxDuration : Z := 2 ^ 63 - 1.
Definition minDuration : Z := - 2 ^ 63.

(** The zero [time.Time], January 1 of year 1 UTC, in Unix nanoseconds. *)
Definition zeroTime : Z := -62135596800 * Second.

(** [t.Sub(u)]: the difference, saturated to the range of a Duration. *)
Definition Sub (t u : Z) : Z :=
  if (maxDuration <? t - u)%Z then maxDuration
  else if (t - u <? minDuration)%Z then minDuration
  else (t - u)%Z.

(** [time.Since(u)] when the clock reads [now]. *)
Definition Since (now u : Z) : Z := Sub now u.

(** Arithmetic on a Duration wraps around as int64 arithmetic does. *)
Definition int64 (z : Z) : Z := ((z + 2 ^ 63) mod 2 ^ 64 - 2 ^ 63)%Z.

End Time.

(** ** The instance-type selector ([instanceState]) *)

Module Selector.
Import Float64.

Definition ebsThroughputPremiumCost : float := 0.03%float.
Definition ebsThroughputPremiumPct : float := 15.0%float.
Definition ebsThroughputBenefitPct : float := 50.0%float.

(** The constant expressions [1.0+ebsThroughputPremiumPct/100] and
    [1.0+ebsThroughputBenefitPct/100]: Go evaluates them exactly and then
    rounds once to float64. *)
Definition premiumFactor : float := 1.15%float.
Definition benefitFactor : float := 1.5%float.

Abbreviation reflow_Resources := (gmap string float).

(** Modelled from the spec: [reflow.Resources.Available], a method of package
    reflow, which is not under src/.  "vector A satisfies requirement B iff
    every component of A is >= the corresponding component of B"; a component
    that is absent reads as zero. *)
Definition Available (r need : reflow_Resources) : bool :=
  bool_decide (map_Forall (λ key v, (v <=? index r key)%float = true) need).

Record instanceConfig := {
  Type_ : string;
  EBSOptimized : bool;
  EBSThroughput : float;
  Resources : reflow_Resources;
  Price : gmap string float;
  SpotOk : bool;
  NVMe : bool;
}.

(** [instanceConfig{}]. *)
Definition zeroConfig : instanceConfig :=
  {| Type_ := ""; EBSOptimized := false; EBSThroughput := 0%float;
     Resources := ∅; Price := ∅; SpotOk := false; NVMe := false |}.

Record instanceState := {
  configs : list instanceConfig;
  sleepTime : Z;
  region : string;
  unavailable : gmap string Z;
}.

(** [s.unavailable[typ]]: the zero time when [typ] was never marked. *)
Definition unavailableSince (s : instanceState) (typ : string) : Z :=
  default Time.zeroTime (unavailable s !! typ).

(** [time.Since(s.unavailable[typ]) < s.sleepTime]. *)
Definition asleep (s : instanceState) (now : Z) (typ : string) : bool :=
  (Time.Since now (unavailableSince s typ) <? sleepTime s)%Z.

(** [Unavailable], called when the clock reads [now]. *)
Definition Unavailable (s : instanceState) (config : instanceConfig) (now : Z)
  : instanceState :=
  {| configs := configs s; sleepTime := sleepTime s; region := region s;
     unavailable := <[Type_ config := now]> (unavailable s) |}.

Section MaxAvailable.

(** [reflow.Resources.ScaledDistance] is not under src/ and the spec leaves
    its definition to the evaluator's policy: it is a parameter. *)
Variable ScaledDistance : reflow_Resources → reflow_Resources → float.

(** One iteration of the loop of [MaxAvailable] over [(best, distance)]. *)
Definition MaxAvailable_body (s : instanceState) (now : Z)
    (need : reflow_Resources) (spot : bool)
    (acc : instanceConfig * float) (config : instanceConfig)
  : instanceConfig * float :=
  let '(best, distance) := acc in
  if asleep s now (Type_ config) || (spot && negb (SpotOk config)) then acc
  else if negb (Available (Resources config) need) then acc
  else
    let d := ScaledDistance (Resources config) need in
    if (distance <? d)%float then (config, d) else acc.

Definition MaxAvailable (s : instanceState) (now : Z)
    (need : reflow_Resources) (spot : bool) : instanceConfig * bool :=
  let '(best, _) :=
    fold_left (MaxAvailable_body s now need spot) (configs s)
              (zeroConfig, (- MaxFloat64)%float) in
  (best, Available (Resources best) need).

End MaxAvailable.

(** The first loop of [MinAvailable] over [(best, bestPrice, viable)]. *)
Definition MinAvailable_pick (s : instanceState) (now : Z)
    (need : reflow_Resources) (spot : bool)
    (acc : instanceConfig * float * list instanceConfig)
    (config : instanceConfig)
  : instanceConfig * float * list instanceConfig :=
  let '(best, bestPrice, viable) := acc in
  if asleep s now (Type_ config) || (spot && negb (SpotOk config)) then acc
  else if negb (Available (Resources config) need) then acc
  else
    match Price config !! region s with
    | None => acc
    | Some price =>
        if (price <? bestPrice)%float
        then (config, price, viable ++ [config])
        else (best, bestPrice, viable ++ [config])
    end.

(** The second loop of [MinAvailable] over [(best, bestPrice, found)]. *)
Definition MinAvailable_adjust (s : instanceState)
    (acc : instanceConfig * float * bool) (config : instanceConfig)
  : instanceConfig * float * bool :=
  let '(best, bestPrice, found) := acc in
  let price := index (Price config) (region s) in
  let '(best, bestPrice, found) :=
    if negb found
       && ((price <? bestPrice + ebsThroughputPremiumCost)%float
           || (price <? bestPrice * premiumFactor)%float)
       && (EBSThroughput best * benefitFactor <? EBSThroughput config)%float
    then (config, price, true)
    else (best, bestPrice, found) in
  if found && (price <? bestPrice)%float
     && (EBSThroughput best <=? EBSThroughput config)%float
  then (config, price, found)
  else (best, bestPrice, found).

Definition MinAvailable (s : instanceState) (now : Z)
    (need : reflow_Resources) (spot : bool) : instanceConfig * bool :=
  let '(best, bestPrice, viable) :=
    fold_left (MinAvailable_pick s now need spot) (configs s)
              (zeroConfig, MaxFloat64, []) in
  let '(best, _, _) :=
    fold_left (MinAvailable_adjust s) viable (best, bestPrice, false) in
  (best, Available (Resources best) need).

(** The loop of [Type]: the first config named [typ]. *)
Fixpoint Type_find (typ : string) (cs : list instanceConfig)
  : instanceConfig * bool :=
  match cs with
  | [] => (zeroConfig, false)
  | config :: cs =>
      if String.eqb (Type_ config) typ then (config, true)
      else Type_find typ cs
  end.

Definition Type' (s : instanceState) (now : Z) (typ : string)
  : instanceConfig * bool :=
  if asleep s now typ then (zeroConfig, false)
  else Type_find typ (configs s).

End Selector.

Module SelectorExamples.
Import Float64 Selector.

Definition need : reflow_Resources :=
  <["cpu" := 2%float]> (<["mem" := 8589934592%float]> ∅).

Definition mk (typ : string) (price ebs : float) (spot : bool) : instanceConfig :=
  {| Type_ := typ; EBSOptimized := true; EBSThroughput := ebs;
     Resources := <["cpu" := 4%float]> (<["mem" := 17179869184%float]> ∅);
     Price := {["us-west-2" := price]}; SpotOk := spot; NVMe := false |}.

Definition A := mk "A" 0.20 100 true.
Definition B := mk "B" 0.22 200 true.

Definition catalog (cs : list instanceConfig) : instanceState :=
  {| configs := cs; sleepTime := 5 * Time.Minute; region := "us-west-2";
     unavailable := ∅ |}.

End SelectorExamples.


(** ** Errors *)

Module Errors.

(** Modelled from the spec: the error kinds of package errors
    (github.com/grailbio/reflow/errors, not under src/): "each state's error
    is classified as Fatal, Unavailable, Temporary, Timeout, or unknown";
    Net is "connection-level".  [Other] is the kind of an unknown error. *)
Inductive Kind :=
  | Other | Timeout | Temporary | Unavailable | Fatal | Net | NotExist.

Global Instance Kind_eq_dec : EqDecision Kind.
Proof. solve_decision. Defined.

(** A Go [error] value, by what the program observes of it: the kind that
    [errors.Recover] reports, the code when the value is an [awserr.Error],
    and the text of [Error()]. *)
Record error := {
  kind : Kind;
  awsCode : option string;
  text : string;
}.

(** [errors.E(k, ...)]: a reflow error of kind [k]; it is not an
    [awserr.Error]. *)
Definition E (k : Kind) (text : string) : error :=
  {| kind := k; awsCode := None; text := text |}.

(** [errors.New], [errors.Errorf], [fmt.Errorf]: no kind. *)
Definition Errorf (text : string) : error := E Other text.

(** [awserr.New(code, message, nil)]. *)
Definition awserr (code text : string) : error :=
  {| kind := Other; awsCode := Some code; text := text |}.

(** [errors.Is(k, err)]. *)
Definition Is (k : Kind) (err : error) : bool := bool_decide (kind err = k).

End Errors.

(** ** The instance being launched *)

Module Instance.
Import Errors.

(** [ec2.Instance], by the fields the program reads. *)
Record ec2_Instance := {
  Tags : list (string * string);
  PublicDnsName : option string;
}.

(** [instance]: the fields the modelled code reads or writes.  The handles
    (HTTPClient, ReflowConfig, Log, Authenticator, EC2, Task) and the fields
    that only feed the cloud-config templates are left out. *)
Record instance := {
  Config : Selector.instanceConfig;
  Spot : bool;
  Subnet : string;
  InstanceProfile : string;
  SecurityGroup : string;
  Price : float;
  EBSType : string;
  EBSSize : Z;
  NEBS : Z;
  AMI : string;
  KeyName : string;
  SpotProbeDepth : Z;
  userData : string;
  err : option error;
  ec2inst : option ec2_Instance;
}.

Definition set_err (e : option error) (i : instance) : instance :=
  {| Config := Config i; Spot := Spot i; Subnet := Subnet i;
     InstanceProfile := InstanceProfile i; SecurityGroup := SecurityGroup i;
     Price := Price i; EBSType := EBSType i; EBSSize := EBSSize i;
     NEBS := NEBS i; AMI := AMI i; KeyName := KeyName i;
     SpotProbeDepth := SpotProbeDepth i; userData := userData i;
     err := e; ec2inst := ec2inst i |}.

Definition set_ec2inst (x : option ec2_Instance) (i : instance) : instance :=
  {| Config := Config i; Spot := Spot i; Subnet := Subnet i;
     InstanceProfile := InstanceProfile i; SecurityGroup := SecurityGroup i;
     Price := Price i; EBSType := EBSType i; EBSSize := EBSSize i;
     NEBS := NEBS i; AMI := AMI i; KeyName := KeyName i;
     SpotProbeDepth := SpotProbeDepth i; userData := userData i;
     err := err i; ec2inst := x |}.

Definition set_userData (u : string) (i : instance) : instance :=
  {| Config := Config i; Spot := Spot i; Subnet := Subnet i;
     InstanceProfile := InstanceProfile i; SecurityGroup := SecurityGroup i;
     Price := Price i; EBSType := EBSType i; EBSSize := EBSSize i;
     NEBS := NEBS i; AMI := AMI i; KeyName := KeyName i;
     SpotProbeDepth := SpotProbeDepth i; userData := u;
     err := err i; ec2inst := ec2inst i |}.

Definition set_disks (size nebs : Z) (i : instance) : instance :=
  {| Config := Config i; Spot := Spot i; Subnet := Subnet i;
     InstanceProfile := InstanceProfile i; SecurityGroup := SecurityGroup i;
     Price := Price i; EBSType := EBSType i; EBSSize := size;
     NEBS := nebs; AMI := AMI i; KeyName := KeyName i;
     SpotProbeDepth := SpotProbeDepth i; userData := userData i;
     err := err i; ec2inst := ec2inst i |}.

(** [reflowletInstance]: the described instance with the two tags read off. *)
Record reflowletInstance := {
  Instance_ : ec2_Instance;
  Version : string;
  Digest : string;
}.

Definition nonempty (s : string) : bool := negb (String.eqb s "").

(** The loop of [update] over the tags, on the current [(Version, Digest)]. *)
Fixpoint update_tags (tags : list (string * string)) (version digest : string)
  : string * string :=
  match tags with
  | [] => (version, digest)
  | (key, value) :: tags =>
      let version :=
        if String.eqb key "reflowlet:version" then value else version in
      let digest :=
        if String.eqb key "reflowlet:digest" then value else digest in
      if nonempty digest && nonempty version then (version, digest)
      else update_tags tags version digest
  end.

Definition newReflowletInstance (inst : ec2_Instance) : reflowletInstance :=
  let '(version, digest) := update_tags (Tags inst) "" "" in
  {| Instance_ := inst; Version := version; Digest := digest |}.

(** [Err]. *)
Definition Err (i : instance) : option error := err i.

(** [Instance]: [None] is the nil dereference of [*inst] when no instance
    was described. *)
Definition Instance (i : instance) : option reflowletInstance :=
  newReflowletInstance <$> ec2inst i.

End Instance.

(** ** The spot request ([ec2RunSpotInstance], [ec2WaitForSpotFulfillment]) *)

Module Spot.
Import Errors Instance.

(** *** [fmt.Sprintf("%.3f", x)]

    Go prints the exact value of the float64 rounded to three decimals, a
    value half-way between two going to the even one. *)

Definition roundHalfEven (num den : Z) : Z :=
  let q := (num / den)%Z in
  match (2 * (num mod den) ?= den)%Z with
  | Lt => q
  | Gt => (q + 1)%Z
  | Eq => if Z.even q then q else (q + 1)%Z
  end.

(** [m * 2^e] in thousandths, rounded. *)
Definition thousandths (m : positive) (e : Z) : Z :=
  if (0 <=? e)%Z then (Z.pos m * 2 ^ e * 1000)%Z
  else roundHalfEven (Z.pos m * 1000) (2 ^ (- e)).

Definition digits3 (n : Z) : string :=
  if (n <? 10)%Z then "00" +:+ pretty n
  else if (n <? 100)%Z then "0" +:+ pretty n
  else pretty n.

Definition Sprintf_3f (x : float) : string :=
  match Prim2SF x with
  | S754_nan => "NaN"
  | S754_infinity s => if s then "-Inf" else "+Inf"
  | S754_zero s => (if s then "-" else "") +:+ "0.000"
  | S754_finite s m e =>
      let k := thousandths m e in
      (if s then "-" else "") +:+ pretty (k / 1000)%Z +:+ "."
        +:+ digits3 (k mod 1000)%Z
  end.

(** *** The request *)

(** [ec2.RequestSpotInstancesInput] with its launch specification flattened;
    the block device mappings are left out. *)
Record RequestSpotInstancesInput := {
  ValidUntil : Z;
  SpotPrice : string;
  ImageId : string;
  EbsOptimized : bool;
  InstanceType : string;
  SubnetId : string;
  KeyName_ : option string;
  UserData : string;
  IamInstanceProfile : string;
  SecurityGroupIds : list string;
}.

(** [nonemptyString]. *)
Definition nonemptyString (s : string) : option string :=
  if String.eqb s "" then None else Some s.

(** The parameters [ec2RunSpotInstance] builds when the clock reads [now]. *)
Definition spotParams (i : instance) (now : Z) : RequestSpotInstancesInput :=
  {| ValidUntil := (now + Time.Minute)%Z;
     SpotPrice := Sprintf_3f (Price i);
     ImageId := AMI i;
     EbsOptimized := Selector.EBSOptimized (Config i);
     InstanceType := Selector.Type_ (Config i);
     SubnetId := Subnet i;
     KeyName_ := nonemptyString (KeyName i);
     UserData := userData i;
     IamInstanceProfile := InstanceProfile i;
     SecurityGroupIds := [SecurityGroup i] |}.

(** *** The waiter

    [request.Waiter] of the AWS SDK, an external library, by its documented
    behaviour: each attempt sends the request and tries the acceptors in
    order on the values found at the path; the first that matches ends the
    wait; after [MaxAttempts] attempts the wait fails; a context that is
    done during the delay between two attempts fails it as well. *)

Inductive WaiterState := SuccessWaiterState | FailureWaiterState.
Inductive WaiterMatchMode := PathAllWaiterMatch | PathAnyWaiterMatch.

Record WaiterAcceptor := {
  State : WaiterState;
  Matcher : WaiterMatchMode;
  Expected : string;
}.

(** The acceptors of [ec2WaitForSpotFulfillment]; the argument of each is
    the path [SpotInstanceRequests[].Status.Code]. *)
Definition Acceptors : list WaiterAcceptor :=
  [ {| State := SuccessWaiterState; Matcher := PathAllWaiterMatch;
       Expected := "fulfilled" |};
    {| State := SuccessWaiterState; Matcher := PathAllWaiterMatch;
       Expected := "request-canceled-and-instance-running" |};
    {| State := FailureWaiterState; Matcher := PathAnyWaiterMatch;
       Expected := "schedule-expired" |};
    {| State := FailureWaiterState; Matcher := PathAnyWaiterMatch;
       Expected := "canceled-before-fulfillment" |};
    {| State := FailureWaiterState; Matcher := PathAnyWaiterMatch;
       Expected := "bad-parameters" |};
    {| State := FailureWaiterState; Matcher := PathAnyWaiterMatch;
       Expected := "system-error" |} ].

Definition MaxAttempts : nat := 40.

(** What one attempt observes: the status codes at the path (none when the
    request failed), and whether the context is done by the end of the delay
    that follows. *)
Record poll := {
  codes : list string;
  ctxDone : bool;
}.

(** [WaiterAcceptor.match] on the values at the path. *)
Definition matches (a : WaiterAcceptor) (vals : list string) : bool :=
  match Matcher a with
  | PathAllWaiterMatch =>
      match vals with
      | [] => false
      | _ => forallb (String.eqb (Expected a)) vals
      end
  | PathAnyWaiterMatch => existsb (String.eqb (Expected a)) vals
  end.

(** The first acceptor that matches decides. *)
Fixpoint accept (acceptors : list WaiterAcceptor) (vals : list string)
  : option WaiterState :=
  match acceptors with
  | [] => None
  | a :: acceptors =>
      if matches a vals then Some (State a) else accept acceptors vals
  end.

(** [WaitWithContext] from attempt [attempt], with [more] attempts allowed
    after it. *)
Fixpoint WaitWithContext (more : nat) (attempt : nat) (polls : nat → poll)
  : option error :=
  let p := polls attempt in
  match accept Acceptors (codes p) with
  | Some SuccessWaiterState => None
  | Some FailureWaiterState =>
      Some (awserr "ResourceNotReady"
                   "failed waiting for successful resource state")
  | None =>
      match more with
      | O => Some (awserr "ResourceNotReady" "exceeded wait attempts")
      | S more =>
          if ctxDone p
          then Some (awserr "RequestCanceled" "waiter context canceled")
          else WaitWithContext more (S attempt) polls
      end
  end.

(** [ec2WaitForSpotFulfillment]: attempts 1 to [MaxAttempts]. *)
Definition ec2WaitForSpotFulfillment (polls : nat → poll) : option error :=
  WaitWithContext (MaxAttempts - 1) 1 polls.

(** *** [ec2RunSpotInstance] *)

(** The answers of EC2 to one spot launch: the request ids in the response to
    RequestSpotInstances, what the waiter's attempts observe, and the
    instance ids in the response to DescribeSpotInstanceRequests.  An absent
    id is the nil pointer, which [aws.StringValue] reads as the empty
    string. *)
Record ec2_answers := {
  RequestSpotInstances : list (option string) + error;
  polls : nat → poll;
  DescribeSpotInstanceRequests : list (option string) + error;
}.

(** [aws.StringValue]. *)
Definition StringValue (s : option string) : string := default "" s.

(** The calls made to EC2, in order (the waiter's polls are in [polls]). *)
Inductive ec2_call :=
  | CallRequestSpotInstances (params : RequestSpotInstancesInput)
  | CallDescribeSpotInstanceRequests (reqid : string).

(** [ec2RunSpotInstance] when the clock reads [now]: the calls it makes and
    what it returns. *)
Definition ec2RunSpotInstance (i : instance) (now : Z) (ec2 : ec2_answers)
  : list ec2_call * (string * option error) :=
  let params := spotParams i now in
  match RequestSpotInstances ec2 with
  | inr err => ([CallRequestSpotInstances params], ("", Some err))
  | inl [request] =>
      let reqid := StringValue request in
      if String.eqb reqid "" then
        ([CallRequestSpotInstances params],
         ("", Some (Errorf "ec2.requestspotinstances: empty request id")))
      else
        match ec2WaitForSpotFulfillment (polls ec2) with
        | Some err =>
            ([CallRequestSpotInstances params],
             ("", Some (E Unavailable (text err))))
        | None =>
            let calls :=
              [CallRequestSpotInstances params;
               CallDescribeSpotInstanceRequests reqid] in
            match DescribeSpotInstanceRequests ec2 with
            | inr err => (calls, ("", Some err))
            | inl [described] =>
                let id := StringValue described in
                if String.eqb id "" then
                  (calls, ("", Some (Errorf
                     "ec2.describespotinstancerequests: missing instance ID")))
                else (calls, (id, None))
            | inl _ =>
                (calls, ("", Some (Errorf
                   "ec2.describespotinstancerequests: got n entries, want 1")))
            end
        end
  | inl _ =>
      ([CallRequestSpotInstances params],
       ("", Some (Errorf "ec2.requestspotinstances: got n entries, want 1")))
  end.

End Spot.

(** ** The launch state machine ([instance.Go]) *)

Module Launch.
Import Errors Instance.

(** [launch]: the cloud-config is built and marshalled (the first error of
    that part, or the user data), then the instance is requested on the spot
    market or on demand. *)
Record launch_answers := {
  cloudConfig : string + error;
  spot : Spot.ec2_answers;
  RunInstances : list string + error;
}.

Definition ec2RunInstance (a : launch_answers) : string * option error :=
  match RunInstances a with
  | inr err => ("", Some err)
  | inl [instanceId] => (instanceId, None)
  | inl _ => ("", Some (Errorf "expected 1 instance; got n"))
  end.

Definition launch (i : instance) (now : Z) (a : launch_answers)
  : instance * (string * option error) :=
  match cloudConfig a with
  | inr err => (i, ("", Some err))
  | inl b =>
      let i := set_userData b i in
      if Spot i then (i, snd (Spot.ec2RunSpotInstance i now (spot a)))
      else (i, ec2RunInstance a)
  end.

(** [describeInstance] on the answer of DescribeInstances: the instances of
    each reservation. *)
Definition describeInstance (resp : list (list ec2_Instance) + error)
  : ec2_Instance + error :=
  match resp with
  | inr err => inr err
  | inl [[inst]] => inl inst
  | inl _ => inr (Errorf "ec2.describeinstances: invalid output")
  end.

(** What the outside world answers during one iteration of the loop of [Go].
    An iteration reads the fields of the state it is in. *)
Record answers := {
  now : Z;
  (** [ctx.Err()] at the loop test *)
  ctxErr : option error;
  (** [ctx.Err()] after the loop when it was nil at the test: a context that
      is done stays done *)
  ctxErrLate : option error;
  ec2HasCapacity : bool * option error;
  launching : launch_answers;
  CreateTags : option error;
  WaitUntilInstanceRunning : option error;
  DescribeInstances : list (list ec2_Instance) + error;
  client_New : option error;
  client_Config : option error;
  ReflowConfig_Instance : option error;
  uploadImage : option error;
  InstallImage : option error;
}.

Abbreviation stateCapacity := 0%nat (only parsing).
Abbreviation stateLaunch := 1%nat (only parsing).
Abbreviation stateTag := 2%nat (only parsing).
Abbreviation stateWaitInstance := 3%nat (only parsing).
Abbreviation stateDescribeDns := 4%nat (only parsing).
Abbreviation stateWaitReflowlet := 5%nat (only parsing).
Abbreviation stateDescribeTags := 6%nat (only parsing).
Abbreviation stateUpdateImage := 7%nat (only parsing).
Abbreviation stateDone := 8%nat (only parsing).

Definition maxTries : nat := 5.

(** What the run does that its caller can observe besides the result: the
    states it attempts and the sleeps between attempts. *)
Inductive event :=
  | Attempt (state : nat)
  | Sleep (d : Z).

(** The instance and the variables of [Go]. *)
Record vars := {
  i : instance;
  state : nat;
  id : string;
  dns : string;
  n : nat;
  d : Z;
  trace : list event;
}.

Definition upd_i (f : instance → instance) (v : vars) : vars :=
  {| i := f (i v); state := state v; id := id v; dns := dns v; n := n v;
     d := d v; trace := trace v |}.

Definition set_state (s : nat) (v : vars) : vars :=
  {| i := i v; state := s; id := id v; dns := dns v; n := n v;
     d := d v; trace := trace v |}.

Definition set_id (x : string) (v : vars) : vars :=
  {| i := i v; state := state v; id := x; dns := dns v; n := n v;
     d := d v; trace := trace v |}.

Definition set_dns (x : string) (v : vars) : vars :=
  {| i := i v; state := state v; id := id v; dns := x; n := n v;
     d := d v; trace := trace v |}.

Definition log (e : event) (v : vars) : vars :=
  {| i := i v; state := state v; id := id v; dns := dns v; n := n v;
     d := d v; trace := trace v ++ [e] |}.

(** [i.err = e]. *)
Definition fail (e : error) (v : vars) : vars := upd_i (set_err (Some e)) v.

(** [strings.HasSuffix]. *)
Definition HasSuffix (s suffix : string) : bool :=
  (String.length suffix <=? String.length s)%nat
  && String.eqb
       (String.substring (String.length s - String.length suffix)
                         (String.length suffix) s)
       suffix.

(** How the switch is left: by falling out of it ([break] in a case, or its
    end), by [continue], or by a panic. *)
Inductive switched :=
  | Falls (v : vars)
  | Continues (v : vars)
  | Panics.

Section Go.

(** Package digest (github.com/grailbio/base/digest) is an external library:
    its digests, their comparison and [digest.Parse] are parameters, and so
    is what [imageDigest] returns, the once-computed digest of the embedded
    image with its error. *)
Context {digest_Digest : Type} `{EqDecision digest_Digest}.
Variable digest_Parse : string → digest_Digest + error.
Variable imageDigest : digest_Digest * option error.

(** The switch on [state]. *)
Definition switch (a : answers) (v : vars) : switched :=
  match state v with
  | stateCapacity =>
      if negb (Spot (i v)) || (SpotProbeDepth (i v) =? 0)%Z then Falls v
      else
        let '(ok, err) := ec2HasCapacity a in
        match err with
        | None =>
            if negb ok
            then Falls (fail (E Unavailable "ec2 capacity is likely exhausted") v)
            else Falls (upd_i (set_err None) v)
        | Some _ => Falls (upd_i (set_err err) v)
        end
  | stateLaunch =>
      let '(inst, (id', err)) := launch (i v) (now a) (launching a) in
      Falls (set_id id' (upd_i (λ _, set_err err inst) v))
  | stateTag => Falls (upd_i (set_err (CreateTags a)) v)
  | stateWaitInstance =>
      Falls (upd_i (set_err (WaitUntilInstanceRunning a)) v)
  | stateDescribeDns =>
      match describeInstance (DescribeInstances a) with
      | inr err => Falls (upd_i (λ i, set_err (Some err) (set_ec2inst None i)) v)
      | inl inst =>
          let v := upd_i (λ i, set_err None (set_ec2inst (Some inst) i)) v in
          match PublicDnsName inst with
          | None =>
              Falls (fail (Errorf "ec2.describeinstances: no public DNS name") v)
          | Some name =>
              if String.eqb name ""
              then Falls (fail (Errorf "ec2.describeinstances: no public DNS name") v)
              else Falls (set_dns name v)
          end
      end
  | stateWaitReflowlet =>
      match client_New a with
      | Some err => Falls (fail (E Fatal (text err)) v)
      | None =>
          match client_Config a with
          | None => Falls (upd_i (set_err None) v)
          | Some err =>
              if HasSuffix (text err) "connection refused"
              then Falls (fail (E Temporary (text err)) v)
              else Falls (fail err v)
          end
      end
  | stateDescribeTags =>
      match describeInstance (DescribeInstances a) with
      | inr err =>
          Falls (fail (E Temporary "%s: describe instance: %v")
                      (upd_i (set_ec2inst None) v))
      | inl inst =>
          let v := upd_i (λ i, set_err None (set_ec2inst (Some inst) i)) v in
          let ri := newReflowletInstance inst in
          if String.eqb (Version ri) "" || String.eqb (Digest ri) ""
          then Falls (fail (E Temporary "version/digest unavailable") v)
          else
            let '(localDigest, err) := imageDigest in
            match err with
            | Some _ => Falls (fail (E Fatal "parse local digest: %v") v)
            | None =>
                match digest_Parse (Digest ri) with
                | inr _ => Falls (fail (E Fatal "parse remote digest: %v") v)
                | inl remoteDigest =>
                    if bool_decide (remoteDigest = localDigest)
                    then Falls (set_state stateDone v)
                    else Falls v
                end
            end
      end
  | stateUpdateImage =>
      match ec2inst (i v) with
      | None => Panics
      | Some inst =>
          match PublicDnsName inst with
          | None => Panics
          | Some _ =>
              match client_New a with
              | Some err => Falls (fail (E Fatal (text err)) v)
              | None =>
                  match ReflowConfig_Instance a with
                  | Some err => Falls (fail (E Fatal (text err)) v)
                  | None =>
                      match uploadImage a with
                      | Some err => Falls (fail (E Fatal (text err)) v)
                      | None =>
                          match InstallImage a with
                          | Some err =>
                              if negb (Is Net err)
                              then Falls (fail (E Fatal (text err)) v)
                              else Continues (set_state stateWaitReflowlet v)
                          | None => Continues (set_state stateWaitReflowlet v)
                          end
                      end
                  end
              end
          end
      end
  | _ => Panics
  end.

(** The AWS error codes that indicate capacity issues. *)
Definition capacityCodes : list string :=
  [ "InsufficientCapacity"; "InsufficientInstanceCapacity";
    "InsufficientHostCapacity"; "InsufficientReservedInstanceCapacity";
    "InstanceLimitExceeded" ].

(** The switch on [awserr.Code()]: [i.err = errors.E(errors.Unavailable,
    awserr)] for a capacity code. *)
Definition reclassify (err : error) : error :=
  match awsCode err with
  | Some code =>
      if bool_decide (code ∈ capacityCodes) then E Unavailable (text err)
      else err
  | None => err
  end.

(** How an iteration ends: the loop goes on, is left by [break], or [Go]
    returns or panics. *)
Inductive outcome :=
  | Next (v : vars)
  | Break (v : vars)
  | Return (v : vars)
  | Panic.

(** The body of the loop after the switch. *)
Definition retry (v : vars) : outcome :=
  match err (i v) with
  | None =>
      Next {| i := i v; state := S (state v); id := id v; dns := dns v;
              n := 0; d := 5 * Time.Second; trace := trace v |}
  | Some e =>
      if (n v =? maxTries)%nat then Break v
      else
        let e := reclassify e in
        let v := fail e v in
        if Is Fatal e then Return v
        else if Is Unavailable e then Return v
        else
          Next {| i := i v; state := state v; id := id v; dns := dns v;
                  n := S (n v); d := Time.int64 (d v * 2);
                  trace := trace v ++ [Sleep (d v)] |}
  end.

(** One iteration of the loop. *)
Definition body (a : answers) (v : vars) : outcome :=
  match switch a (log (Attempt (state v)) v) with
  | Falls v => retry v
  | Continues v => Next v
  | Panics => Panic
  end.

(** The statements after the loop. *)
Definition finish (a : answers) (v : vars) : vars :=
  match err (i v) with
  | Some _ => v
  | None =>
      upd_i (set_err (match ctxErr a with
                      | Some e => Some e
                      | None => ctxErrLate a
                      end)) v
  end.

Inductive result :=
  | Returned (v : vars)
  | Panicked.

(** The loop of [Go] against the answers [world], one element per
    iteration; [None] when [world] ends before [Go] does. *)
Fixpoint loop (world : list answers) (v : vars) : option result :=
  match world with
  | [] => None
  | a :: world =>
      if (state v <? stateDone)%nat && bool_decide (ctxErr a = None) then
        match body a v with
        | Next v => loop world v
        | Break v => Some (Returned (finish a v))
        | Return v => Some (Returned v)
        | Panic => Some Panicked
        end
      else Some (Returned (finish a v))
  end.

(** The smallest acceptable disk sizes per EBS volume type. *)
Definition minDiskSizes : gmap string Z := {[ "st1" := 500%Z; "gp2" := 335%Z ]}.

(** The adjustment of [NEBS] and [EBSSize] at the start of [Go]. *)
Definition adjustDisks (i : instance) : instance :=
  let nebs := if (NEBS i <? 1)%Z then 1%Z else NEBS i in
  match minDiskSizes !! EBSType i with
  | Some min =>
      let size := if (EBSSize i <? min)%Z then min else EBSSize i in
      let nmin := (size / min)%Z in
      set_disks size (if (nmin <? nebs)%Z then nmin else nebs) i
  | None => set_disks (EBSSize i) nebs i
  end.

Definition Go (world : list answers) (i : instance) : option result :=
  loop world
       {| i := adjustDisks i; state := stateCapacity; id := ""; dns := "";
          n := 0; d := 5 * Time.Second; trace := [] |}.

End Go.

End Launch.

(** ** The task store ([dynamodbtask]) *)

Module DynamoDB.
Import Errors.

(** DynamoDB is an external service.  This is the part of it the program
    uses: a table keyed by the string attribute ID; PutItem replaces a row;
    UpdateItem with a SET expression assigns attributes of the row with the
    given key and creates the row when there is none; Query returns the rows
    that satisfy the key condition and the filter, and fails with a
    ValidationException on a key condition it cannot read. *)

(** An attribute value.  The program stores times as strings, formatted with
    [time.RFC3339] or with the layout 2006-01-02, and the service compares
    them as strings.  On these renderings of UTC times the order of the
    strings is the order of the instants, so the model keeps the number
    rendered: [S_time sec] is the S attribute that renders the instant [sec]
    seconds after the epoch (the layout has no fraction of a second), and
    [S_date day] the S attribute that renders day [day] after the epoch. *)
Inductive AttributeValue :=
  | S (s : string)
  | SS (ss : list string)
  | S_time (sec : Z)
  | S_date (day : Z).

Global Instance AttributeValue_eq_dec : EqDecision AttributeValue.
Proof. solve_decision. Defined.

Abbreviation Item := (gmap string AttributeValue).
Abbreviation Table := (gmap string Item).

Record PutItemInput := {
  put_TableName : string;
  put_Item : Item;
}.

Record UpdateItemInput := {
  upd_TableName : string;
  upd_Key : Item;
  UpdateExpression : string;
  upd_ExpressionAttributeValues : Item;
  upd_ExpressionAttributeNames : gmap string string;
}.

Record QueryInput := {
  TableName : string;
  IndexName : string;
  KeyConditionExpression : string;
  ExpressionAttributeValues : Item;
  ExpressionAttributeNames : gmap string string;
  FilterExpression : option string;
}.

(** *** Expressions *)

(** The words of an expression: it is cut at spaces and commas. *)
Fixpoint words_from (s : string) (word : string) : list string :=
  match s with
  | EmptyString => if String.eqb word "" then [] else [word]
  | String c s =>
      if Ascii.eqb c " "%char || Ascii.eqb c ","%char
      then (if String.eqb word "" then words_from s ""
            else word :: words_from s "")
      else words_from s (word +:+ String c "")
  end.

Definition words (s : string) : list string := words_from s "".

(** [name op :value] *)
Definition clause : Type := string * string * string.

(** [SET name = :value, name = :value ...] *)
Fixpoint assignments (ws : list string) : option (list clause) :=
  match ws with
  | [] => Some []
  | name :: "=" :: value :: ws =>
      cs ← assignments ws; Some ((name, "=", value) :: cs)
  | _ => None
  end.

Definition parseUpdate (e : string) : option (list clause) :=
  match words e with
  | "SET" :: ws => assignments ws
  | _ => None
  end.

(** [name op :value and name op :value ...], at least one clause. *)
Fixpoint conjunction (ws : list string) : option (list clause) :=
  match ws with
  | [name; op; value] => Some [(name, op, value)]
  | name :: op :: value :: "and" :: ws =>
      cs ← conjunction ws; Some ((name, op, value) :: cs)
  | _ => None
  end.

Definition parseCondition (e : string) : option (list clause) :=
  conjunction (words e).

(** A name that starts with # is looked up in the attribute names. *)
Definition attributeName (names : gmap string string) (name : string)
  : option string :=
  match name with
  | String "#"%char _ => names !! name
  | _ => Some name
  end.

Definition compare (op : string) (x y : AttributeValue) : option bool :=
  if String.eqb op "=" then Some (bool_decide (x = y))
  else if String.eqb op ">" then
    match x, y with
    | S_time a, S_time b => Some (b <? a)%Z
    | S_date a, S_date b => Some (b <? a)%Z
    | _, _ => None
    end
  else None.

(** Whether [row] satisfies a clause; [None] when the clause is not valid.  A
    row without the attribute does not satisfy it. *)
Definition satisfies (names : gmap string string) (values : Item)
    (row : Item) (c : clause) : option bool :=
  let '(name, op, value) := c in
  attr ← attributeName names name;
  v ← values !! value;
  match row !! attr with
  | None => Some false
  | Some x => compare op x v
  end.

Fixpoint satisfiesAll (names : gmap string string) (values : Item)
    (row : Item) (cs : list clause) : option bool :=
  match cs with
  | [] => Some true
  | c :: cs =>
      b ← satisfies names values row c;
      bs ← satisfiesAll names values row cs;
      Some (b && bs)
  end.

Definition ValidationException : error :=
  awserr "ValidationException" "Invalid KeyConditionExpression".

(** [PutItem]. *)
Definition PutItem (table : Table) (input : PutItemInput) : Table :=
  match put_Item input !! "ID" with
  | Some (S key) => <[key := put_Item input]> table
  | _ => table
  end.

(** One assignment of a SET expression. *)
Definition assign (names : gmap string string) (values : Item) (row : Item)
    (c : clause) : Item :=
  match attributeName names c.1.1, values !! c.2 with
  | Some attr, Some v => <[attr := v]> row
  | _, _ => row
  end.

(** [UpdateItem]. *)
Definition UpdateItem (table : Table) (input : UpdateItemInput) : Table :=
  match upd_Key input !! "ID", parseUpdate (UpdateExpression input) with
  | Some (S key), Some cs =>
      <[key := foldl (assign (upd_ExpressionAttributeNames input)
                             (upd_ExpressionAttributeValues input))
                     (default (upd_Key input) (table !! key)) cs]> table
  | _, _ => table
  end.

(** Whether a query selects [row], given the clauses of its key condition
    and of its filter. *)
Definition selects (input : QueryInput) (cs : list clause) (row : Item)
  : bool :=
  match satisfiesAll (ExpressionAttributeNames input)
          (ExpressionAttributeValues input) row cs with
  | Some b => b
  | None => false
  end.

(** [Query]: the rows in the order of their keys. *)
Definition Query (table : Table) (input : QueryInput) : list Item + error :=
  match parseCondition (KeyConditionExpression input) with
  | None => inr ValidationException
  | Some key =>
      let filter_ :=
        match FilterExpression input with
        | None => Some []
        | Some e => parseCondition e
        end in
      match filter_ with
      | None => inr ValidationException
      | Some cs =>
          inl (filter (λ row, selects input (key ++ cs) row = true)
                      ((map_to_list table).*2))
      end
  end.

End DynamoDB.

Module TaskDB.
Import Errors DynamoDB.

Definition dateKeepaliveIndex : string := "Date-Keepalive-index".
Definition idIndex : string := "ID-index".
Definition id4Index : string := "ID4-ID-index".
Definition runIDIndex : string := "RunID-index".

Inductive objType := run | task.

Global Instance objType_eq_dec : EqDecision objType.
Proof. solve_decision. Defined.

(** [string(typ)]. *)
Definition objType_string (typ : objType) : string :=
  match typ with run => "run" | task => "task" end.

Definition colID : string := "ID".
Definition colID4 : string := "ID4".
Definition colRunID : string := "RunID".
Definition colRunID4 : string := "RunID4".
Definition colFlowID : string := "FlowID".
Definition colResultID : string := "ResultID".
Definition colKeepalive : string := "Keepalive".
Definition colStartTime : string := "StartTime".
Definition colStdout : string := "Stdout".
Definition colStderr : string := "Stderr".
Definition colInspect : string := "Inspect".
Definition colURI : string := "URI".
Definition colLabels : string := "Labels".
Definition colUser : string := "User".
Definition colType : string := "Type".
Definition colDate : string := "Date".

Definition Day : Z := 86400 * Time.Second.

(** [t.Format(timeLayout)] and [t.Format(dateLayout)] of a UTC time. *)
Definition Format_timeLayout (t : Z) : AttributeValue :=
  S_time (t / Time.Second).
Definition Format_dateLayout (t : Z) : AttributeValue :=
  S_date (t / Day).

(** [date]: midnight UTC of the day of [t]. *)
Definition date (t : Z) : Z := (t / Day * Day)%Z.

(** The loop of [dates]: [fuel] bounds the number of iterations. *)
Fixpoint dates_loop (fuel : nat) (beg end_ : Z) : list Z :=
  match fuel with
  | O => []
  | Datatypes.S fuel =>
      if (end_ <? beg)%Z then []
      else beg :: dates_loop fuel (beg + Day)%Z end_
  end.

(** [dates]: the loop runs once per day from [date beg] to [date end_]. *)
Definition dates (beg end_ : Z) : list Z :=
  let beg := date beg in
  let end_ := date end_ in
  dates_loop (Z.to_nat ((end_ - beg) / Day + 1)) beg end_.

(** [TaskDB], without the client and the limiter. *)
Record TaskDB := {
  TaskDB_TableName : string;
  Labels : list string;
  User : string;
}.

Section Digest.

(** Package digest (github.com/grailbio/base/digest) is an external library:
    the digests and the methods the program calls are parameters. *)
Context {Digest : Type}.
Variable Digest_String : Digest → string.
Variable HexN : Digest → nat → string.
Variable IsZero : Digest → bool.
Variable IsAbbrev : Digest → bool.

(** [taskdb.Query]. *)
Record Query := {
  ID : Digest;
  RunID : Digest;
  Since : Z;
  Query_User : string;
}.

(** The input [CreateRun] puts when the clock reads [now]. *)
Definition CreateRun_input (t : TaskDB) (now : Z) (id : Digest)
    (user : string) : PutItemInput :=
  {| put_TableName := TaskDB_TableName t;
     put_Item :=
       {[ colID := S (Digest_String id);
          colID4 := S (HexN id 4);
          colLabels := SS (Labels t);
          colUser := S user;
          colType := S (objType_string run);
          colStartTime := Format_timeLayout now ]} |}.

(** The input [CreateTask] puts when the clock reads [now]. *)
Definition CreateTask_input (t : TaskDB) (now : Z) (id runid flowid : Digest)
    (uri : string) : PutItemInput :=
  {| put_TableName := TaskDB_TableName t;
     put_Item :=
       {[ colID := S (Digest_String id);
          colID4 := S (HexN id 4);
          colRunID := S (Digest_String runid);
          colRunID4 := S (HexN runid 4);
          colFlowID := S (Digest_String flowid);
          colType := S (objType_string task);
          colStartTime := Format_timeLayout now;
          colURI := S uri;
          colLabels := SS (Labels t) ]} |}.

Definition SetTaskResult_input (t : TaskDB) (id result : Digest)
  : UpdateItemInput :=
  {| upd_TableName := TaskDB_TableName t;
     upd_Key := {[ colID := S (Digest_String id) ]};
     UpdateExpression := "SET " +:+ colResultID +:+ " = :result";
     upd_ExpressionAttributeValues :=
       {[ ":result" := S (Digest_String result) ]};
     upd_ExpressionAttributeNames := ∅ |}.

Definition SetTaskAttrs_input (t : TaskDB) (id stdout stderr inspect : Digest)
  : UpdateItemInput :=
  {| upd_TableName := TaskDB_TableName t;
     upd_Key := {[ colID := S (Digest_String id) ]};
     UpdateExpression :=
       "SET " +:+ colStdout +:+ " = :stdout, " +:+ colStderr
         +:+ " = :stderr, " +:+ colInspect +:+ " = :inspect";
     upd_ExpressionAttributeValues :=
       {[ ":stdout" := S (Digest_String stdout);
          ":stderr" := S (Digest_String stderr);
          ":inspect" := S (Digest_String inspect) ]};
     upd_ExpressionAttributeNames := ∅ |}.

(** The one input [Keepalive] sends to UpdateItem. *)
Definition Keepalive_input (t : TaskDB) (id : Digest) (keepalive : Z)
  : UpdateItemInput :=
  {| upd_TableName := TaskDB_TableName t;
     upd_Key := {[ colID := S (Digest_String id) ]};
     UpdateExpression := "SET " +:+ colKeepalive +:+ " = :ka, #Date = :date";
     upd_ExpressionAttributeValues :=
       {[ ":ka" := Format_timeLayout keepalive;
          ":date" := Format_dateLayout keepalive ]};
     upd_ExpressionAttributeNames := {[ "#Date" := colDate ]} |}.

(** The operations that write to the store. *)
Inductive operation :=
  | CreateRun (id : Digest) (user : string)
  | CreateTask (id runid flowid : Digest) (uri : string)
  | SetTaskResult (id result : Digest)
  | SetTaskAttrs (id stdout stderr inspect : Digest)
  | Keepalive (id : Digest) (keepalive : Z).

(** The table after an operation issued when the clock reads [now]. *)
Definition exec (t : TaskDB) (now : Z) (table : Table) (o : operation)
  : Table :=
  match o with
  | CreateRun id user => PutItem table (CreateRun_input t now id user)
  | CreateTask id runid flowid uri =>
      PutItem table (CreateTask_input t now id runid flowid uri)
  | SetTaskResult id result =>
      UpdateItem table (SetTaskResult_input t id result)
  | SetTaskAttrs id stdout stderr inspect =>
      UpdateItem table (SetTaskAttrs_input t id stdout stderr inspect)
  | Keepalive id keepalive =>
      UpdateItem table (Keepalive_input t id keepalive)
  end.

Definition buildRunIdQuery (t : TaskDB) (q : Query) : list QueryInput :=
  [ {| TableName := TaskDB_TableName t;
       IndexName := runIDIndex;
       KeyConditionExpression := colRunID +:+ " = :rid";
       ExpressionAttributeValues := {[ ":rid" := S (Digest_String (RunID q)) ]};
       ExpressionAttributeNames := ∅;
       FilterExpression := None |} ].

Definition buildIdQuery (t : TaskDB) (q : Query) (typ : objType)
  : list QueryInput :=
  let '(keyExpression, attributeValues, index) :=
    if IsAbbrev (ID q)
    then (colID4 +:+ " = :id4",
          ({[ ":id4" := S (HexN (ID q) 4) ]} : Item), id4Index)
    else (colID +:+ " = :testId",
          ({[ ":testId" := S (Digest_String (ID q)) ]} : Item), idIndex) in
  [ {| TableName := TaskDB_TableName t;
       IndexName := index;
       KeyConditionExpression := keyExpression;
       ExpressionAttributeValues :=
         <[":type" := S (objType_string typ)]> attributeValues;
       ExpressionAttributeNames := {[ "#Type" := colType ]};
       FilterExpression := Some "#Type = :type" |} ].

(** [strings.Join(a, sep)]. *)
Fixpoint Join (a : list string) (sep : string) : string :=
  match a with
  | [] => ""
  | [x] => x
  | x :: a => x +:+ sep +:+ Join a sep
  end.

(** [buildQueries] when the clock reads [now]; [None] is a panic. *)
Definition buildQueries (t : TaskDB) (q : Query) (typ : objType) (now : Z)
  : option (list QueryInput) :=
  if negb (IsZero (ID q)) then Some (buildIdQuery t q typ)
  else if negb (IsZero (RunID q)) && bool_decide (typ = run) then None
  else if bool_decide (Since q = Time.zeroTime) then None
  else
    let keyExpression := "" in
    let since := Since q in
    let timeBuckets :=
      (λ d, ("#Date = :date and " +:+ colKeepalive +:+ " > :ka ",
             ({[ ":date" := Format_dateLayout d;
                 ":ka" := Format_timeLayout since ]} : Item),
             ({[ "#Date" := colDate ]} : gmap string string)))
        <$> dates since now in
    let '(filterExpression, attributeValues, attributeNames) :=
      if negb (String.eqb (Query_User q) "")
      then (["#User = :user"], ({[ ":user" := S (Query_User q) ]} : Item),
            ({[ "#User" := colUser ]} : gmap string string))
      else (([] : list string), (∅ : Item), (∅ : gmap string string)) in
    let '(filterExpression, attributeValues, attributeNames) :=
      if bool_decide (typ = run)
      then (filterExpression ++ ["#Type = :type"],
            <[":type" := S (objType_string typ)]> attributeValues,
            <["#Type" := colType]> attributeNames)
      else (filterExpression, attributeValues, attributeNames) in
    let filter_ :=
      match filterExpression with
      | [] => None
      | _ => Some (Join filterExpression " and ")
      end in
    match timeBuckets with
    | _ :: _ =>
        Some ((λ ti : string * Item * gmap string string,
                 {| TableName := TaskDB_TableName t;
                    IndexName := dateKeepaliveIndex;
                    KeyConditionExpression := ti.1.1;
                    ExpressionAttributeValues := attributeValues ∪ ti.1.2;
                    ExpressionAttributeNames := attributeNames ∪ ti.2;
                    FilterExpression := filter_ |}) <$> timeBuckets)
    | [] =>
        Some [ {| TableName := TaskDB_TableName t;
                  IndexName := dateKeepaliveIndex;
                  KeyConditionExpression := keyExpression;
                  ExpressionAttributeValues := attributeValues;
                  ExpressionAttributeNames := attributeNames;
                  FilterExpression := filter_ |} ]
    end.

(** The error [Runs] and [Tasks] return for an error of the client. *)
Definition queryError (err : error) : error :=
  match awsCode err with
  | Some code =>
      if String.eqb code "ValidationException"
         && bool_decide (is_Some (String.index 0
              "The table does not have the specified index" (text err)))
      then E Other "index missing: run reflow migrate"
      else err
  | None => err
  end.

Section Client.

(** [t.DB], the client: what it answers to a query. *)
Variable DB : QueryInput → list Item + error.

(** The queries sent one after the other, up to the first error. *)
Fixpoint QueryEach (queries : list QueryInput) : list (list Item) + error :=
  match queries with
  | [] => inl []
  | query :: queries =>
      match DB query with
      | inr err => inr (queryError err)
      | inl items =>
          match QueryEach queries with
          | inr err => inr err
          | inl responses => inl (items :: responses)
          end
      end
  end.

(** [Runs] up to the decoding of the rows: it sends [queries[i]] and keeps
    the answer in [responses[i]]. *)
Definition Runs_responses (t : TaskDB) (query : Query) (now : Z)
  : option (list (list Item) + error) :=
  queries ← buildQueries t query run now;
  Some (QueryEach queries).

(** [Tasks] up to the decoding of the rows: for every [i] it sends all the
    queries and stores each answer in [responses[i]], where the last one
    stays. *)
Definition Tasks_responses (t : TaskDB) (query : Query) (now : Z)
  : option (list (list Item) + error) :=
  queries ← (if negb (IsZero (RunID query))
             then Some (buildRunIdQuery t query)
             else buildQueries t query task now);
  Some (match QueryEach queries with
        | inr err => inr err
        | inl responses =>
            inl (replicate (length queries) (default [] (last responses)))
        end).

(** The rows [Runs] and [Tasks] go on to decode (for a query by abbreviated
    ID they then drop the rows whose ID does not expand it). *)
Definition Runs_rows (t : TaskDB) (query : Query) (now : Z)
  : option (list Item + error) :=
  (λ r, match r with inl responses => inl (concat responses)
                   | inr err => inr err end)
    <$> Runs_responses t query now.

Definition Tasks_rows (t : TaskDB) (query : Query) (now : Z)
  : option (list Item + error) :=
  (λ r, match r with inl responses => inl (concat responses)
                   | inr err => inr err end)
    <$> Tasks_responses t query now.

End Client.

End Digest.

End TaskDB.

(** ** Launches used as examples *)

Module LaunchExamples.
Import Errors Instance Launch.

(** An on-demand launch of an [A]. *)
Definition onDemand : instance :=
  {| Config := SelectorExamples.A; Spot := false; Subnet := "subnet-1";
     InstanceProfile := "arn:aws:iam::1:instance-profile/reflow";
     SecurityGroup := "sg-1"; Price := 0.2%float; EBSType := "gp2";
     EBSSize := 500; NEBS := 1; AMI := "ami-1"; KeyName := "";
     SpotProbeDepth := 0; userData := ""; err := None; ec2inst := None |}.

(** What DescribeInstances shows of the instance: its DNS name and the tags
    the reflowlet has set. *)
Definition described (digest : string) : ec2_Instance :=
  {| Tags := [ ("Name", "reflow"); ("reflowlet:version", "reflow1.2");
               ("reflowlet:digest", digest) ];
     PublicDnsName := Some "ec2-1.compute.amazonaws.com" |}.

Definition granted : Spot.ec2_answers :=
  {| Spot.RequestSpotInstances := inl [Some "sir-1"];
     Spot.polls := λ _, {| Spot.codes := ["fulfilled"]; Spot.ctxDone := false |};
     Spot.DescribeSpotInstanceRequests := inl [Some "i-1"] |}.

(** An iteration in which every call succeeds, but RunInstances when
    [launchErr] is an error, and in which the instance carries the digest tag
    [digest]. *)
Definition answer (digest : string) (launchErr : option error) : answers :=
  {| now := 0; ctxErr := None; ctxErrLate := None;
     ec2HasCapacity := (true, None);
     launching :=
       {| cloudConfig := inl "I2Nsb3VkLWNvbmZpZw==";
          spot := granted;
          RunInstances := match launchErr with
                          | None => inl ["i-1"]
                          | Some e => inr e
                          end |};
     CreateTags := None; WaitUntilInstanceRunning := None;
     DescribeInstances := inl [[described digest]];
     client_New := None; client_Config := None;
     ReflowConfig_Instance := None; uploadImage := None;
     InstallImage := None |}.

(** The digests are their strings; the controller's image is [sha256:new]. *)
Definition Parse (s : string) : string + error := inl s.
Definition local : string * option error := ("sha256:new", None).

(** A spot launch of an [A] with the price [price] configured. *)
Definition spotAt (price : float) : instance :=
  {| Config := SelectorExamples.A; Spot := true; Subnet := "subnet-1";
     InstanceProfile := "arn:aws:iam::1:instance-profile/reflow";
     SecurityGroup := "sg-1"; Price := price; EBSType := "gp2";
     EBSSize := 500; NEBS := 1; AMI := "ami-1"; KeyName := "";
     SpotProbeDepth := 0; userData := ""; err := None; ec2inst := None |}.

(** A spot request that stays pending until the context is done during the
    delay after the fifth poll. *)
Definition pending : Spot.ec2_answers :=
  {| Spot.RequestSpotInstances := inl [Some "sir-1"];
     Spot.polls := λ attempt,
       {| Spot.codes := ["pending-evaluation"];
          Spot.ctxDone := (5 <=? attempt)%nat |};
     Spot.DescribeSpotInstanceRequests := inl [Some "i-1"] |}.

(** A launch where everything succeeds at once. *)
Definition smooth : list answers := replicate 8 (answer "sha256:new" None).

(** Scenario 6 of the spec: the reflowlet first runs the image [sha256:old]
    and, once updated, [sha256:new]. *)
Definition selfUpdate : list answers :=
  replicate 8 (answer "sha256:old" None)
  ++ replicate 3 (answer "sha256:new" None).

(** A launch where RunInstances is throttled every time. *)
Definition throttled : list answers :=
  replicate 7 (answer "sha256:new" (Some (E Temporary "throttled"))).

End LaunchExamples.

(** ** A task store used as example *)

Module TaskDBExamples.
Import Errors DynamoDB TaskDB.

(** Digests by their hexadecimal strings; the zero digest is the empty one
    and, as the spec has it, [HexN d 4] is the first 4 hex characters. *)
Definition Digest_String (d : string) : string := d.
Definition HexN (d : string) (n : nat) : string := String.substring 0 n d.
Definition IsZero (d : string) : bool := String.eqb d "".
Definition IsAbbrev (d : string) : bool := (String.length d <? 64)%nat.

Definition store : TaskDB :=
  {| TaskDB_TableName := "reflow"; Labels := ["name=test"]; User := "alice" |}.

(** Noon of day 20000 after the epoch, and the days around it. *)
Definition noon : Z := 20000 * Day + 12 * 3600 * Time.Second.
Definition yesterday : Z := noon - Day.
Definition tomorrow : Z := noon + Day.

(** The runs (or tasks) kept alive since [since], of any user. *)
Definition sinceQuery (since : Z) : Query (Digest := string) :=
  {| ID := ""; RunID := ""; Since := since; Query_User := "" |}.

(** A table with one run, created yesterday and kept alive until noon. *)
Definition oneRun : Table :=
  exec Digest_String HexN store noon
       (exec Digest_String HexN store yesterday ∅ (CreateRun "9f3a" "alice"))
       (Keepalive "9f3a" noon).

(** A table with one task, created at noon. *)
Definition oneTask : Table :=
  exec Digest_String HexN store noon ∅ (CreateTask "77c1" "9f3a" "0b5e" "uri").

(** The run of [oneRun] before it was kept alive. *)
Definition newRun : Table :=
  exec Digest_String HexN store yesterday ∅ (CreateRun "9f3a" "alice").

(** A table with one task, created two days ago and kept alive until
    yesterday noon. *)
Definition staleTask : Table :=
  exec Digest_String HexN store yesterday
       (exec Digest_String HexN store (yesterday - Day) ∅
             (CreateTask "77c1" "9f3a" "0b5e" "uri"))
       (Keepalive "77c1" yesterday).

End TaskDBExamples.

(** * Properties

    The predicates and the examples the facts below are stated with. *)

Module SelectorProps.
Import Float64 Selector SelectorExamples.

(** What both loops require of a config before they look at it further. *)
Definition candidate (s : instanceState) (now : Z) (need : reflow_Resources)
    (spot : bool) (c : instanceConfig) : Prop :=
  asleep s now (Type_ c) = false
  ∧ (spot = true → SpotOk c = true)
  ∧ Available (Resources c) need = true.

(** A viable config: a candidate with a price in the region. *)
Definition viable (s : instanceState) (now : Z) (need : reflow_Resources)
    (spot : bool) (c : instanceConfig) : Prop :=
  candidate s now need spot c ∧ is_Some (Price c !! region s).

(** The price the second loop of [MinAvailable] reads. *)
Definition priceIn (s : instanceState) (c : instanceConfig) : float :=
  index (Price c) (region s).

(** The tests of the first loop of [MinAvailable], as one boolean. *)
Definition viableb (s : instanceState) (now : Z) (need : reflow_Resources)
    (spot : bool) (c : instanceConfig) : bool :=
  negb (asleep s now (Type_ c) || (spot && negb (SpotOk c)))
  && Available (Resources c) need
  && bool_decide (is_Some (Price c !! region s)).

(** The test of the first [if] of the second loop of [MinAvailable], against
    the best config [best] at price [bestPrice]. *)
Definition upgrades (s : instanceState) (best : instanceConfig)
    (bestPrice : float) (c : instanceConfig) : bool :=
  ((priceIn s c <? bestPrice + ebsThroughputPremiumCost)%float
   || (priceIn s c <? bestPrice * premiumFactor)%float)
  && (EBSThroughput best * benefitFactor <? EBSThroughput c)%float.

(** What the second loop of [MinAvailable] has established after the configs
    [done], when it started from [best0] at price [p0]: before the upgrade
    no config passed the test of the upgrade; after it, the best config
    passes that test and no config seen matches its throughput at a lower
    price. *)
Definition adjusted (s : instanceState) (best0 : instanceConfig) (p0 : float)
    (done : list instanceConfig) (acc : instanceConfig * float * bool)
  : Prop :=
  let '(best, bestPrice, found) := acc in
  if found then
    priceIn s best = bestPrice
    ∧ upgrades s best0 p0 best = true
    ∧ ∀ c, c ∈ done →
        ¬ ((priceIn s c <? bestPrice)%float = true
           ∧ (EBSThroughput best <=? EBSThroughput c)%float = true)
  else
    best = best0 ∧ bestPrice = p0
    ∧ ∀ c, c ∈ done → upgrades s best0 p0 c = false.

(** The state after [Unavailable] was called for each config of [calls], at
    the time given with it. *)
Definition Unavailable_all (s : instanceState)
    (calls : list (instanceConfig * Z)) : instanceState :=
  fold_left (λ st call, Unavailable st call.1 call.2) calls s.

(** A type that offers exactly 50% more EBS throughput than [A], for $0.02
    more. *)
Definition B150 : instanceConfig := mk "B" 0.22 150 true.

(** A type at $0.10 and one that costs exactly $0.03 more and offers twice
    the EBS throughput. *)
Definition A10 : instanceConfig := mk "A" 0.10 100 true.
Definition B13 : instanceConfig := mk "B" 0.13 200 true.

(** A catalog whose only type is not offered on the spot market. *)
Definition onDemandOnly : instanceState := catalog [mk "t2.large" 0.0928 0 false].

End SelectorProps.

Module LaunchProps.
Import Errors Instance Launch.

(** The events of [k] failed attempts of state [st], each followed by its
    sleep: 5 seconds, then twice the one before. *)
Definition backoff (st : nat) (k : nat) : list event :=
  flat_map (λ j, [Attempt st; Sleep (5 * Time.Second * 2 ^ Z.of_nat j)])
           (seq 0 k).

(** The last event of [tr] is not an attempt of state [st]. *)
Definition entered (st : nat) (tr : list event) : Prop :=
  ∀ e, last tr = Some e → e ≠ Attempt st.

(** C6 as the claim states it: whenever [Go] returns, the state it was in
    was attempted at most [maxTries] times in a row at the end of the run. *)
Definition attempted_at_most_maxTries : Prop :=
  ∀ (digest_Parse : string → string + error)
    (imageDigest : string * option error) world i v,
    Go digest_Parse imageDigest world i = Some (Returned v) →
    ∀ pre k tail,
      trace v = pre ++ backoff (state v) k ++ tail →
      (tail = [] ∨ tail = [Attempt (state v)]) →
      (k + length tail ≤ maxTries)%nat.

(** What holds of the variables at the head of the loop: the state was
    entered, then attempted and slept after [n] times, at most [maxTries]
    times, and [d] is the next delay. *)
Definition shaped (v : vars) : Prop :=
  (n v ≤ maxTries)%nat
  ∧ d v = (5 * Time.Second * 2 ^ Z.of_nat (n v))%Z
  ∧ (state v = stateUpdateImage → n v = 0%nat)
  ∧ ∃ pre, trace v = pre ++ backoff (state v) (n v) ∧ entered (state v) pre.

(** The attempts of state [st] in a row at the end of a run: the attempts
    of [st], sleeps apart, since the last attempt of another state.  [rtr]
    is the trace from its last event backwards. *)
Fixpoint streak_rev (st : nat) (rtr : list event) : nat :=
  match rtr with
  | Attempt s :: rtr => if (s =? st)%nat then S (streak_rev st rtr) else 0%nat
  | Sleep _ :: rtr => streak_rev st rtr
  | [] => 0%nat
  end.

Definition streak (st : nat) (tr : list event) : nat := streak_rev st (rev tr).

(** The pace of a trace: at no point of it was a state attempted more than
    [maxTries + 1] times in a row; and every sleep comes right after an
    attempt, at most the [maxTries]-th in a row, and lasts 5 seconds doubled
    once for every attempt of the row before that one. *)
Definition paced (tr : list event) : Prop :=
  (∀ pre post st, tr = pre ++ post → (streak st pre ≤ maxTries + 1)%nat)
  ∧ (∀ pre d post, tr = pre ++ Sleep d :: post →
       ∃ st j, last pre = Some (Attempt st)
               ∧ streak st pre = S j ∧ (j < maxTries)%nat
               ∧ d = (5 * Time.Second * 2 ^ Z.of_nat j)%Z).

(** What holds of the variables at the head of the loop, besides their
    shape: the trace is paced, [n] counts the attempts of the state in a row,
    and past the last state there is no error. *)
Definition steady (v : vars) : Prop :=
  shaped v ∧ paced (trace v) ∧ streak (state v) (trace v) = n v
  ∧ ((stateDone ≤ state v)%nat → err (i v) = None).

(** The context is not done at any time of the run. *)
Definition live (world : list answers) : Prop :=
  Forall (λ a, ctxErr a = None ∧ ctxErrLate a = None) world.

Section Go.

Context {digest_Digest : Type} `{EqDecision digest_Digest}.
Variable digest_Parse : string → digest_Digest + error.
Variable imageDigest : digest_Digest * option error.

(** The postcondition of a successful launch, on the variables of [Go]. *)
Definition verified (v : vars) : Prop :=
  ∃ ri, Instance (i v) = Some ri
        ∧ Version ri ≠ ""
        ∧ digest_Parse (Digest ri) = inl imageDigest.1.

End Go.

End LaunchProps.

Module SpotProps.
Import Errors Instance Spot.

(** C7's first part as the claim states it: the bid is the configured price,
    that is, the price can be read off the bid. *)
Definition bid_is_price : Prop :=
  ∃ denote : string → float,
    ∀ i now, denote (SpotPrice (spotParams i now)) = Price i.

(** The status codes that end the wait with a failure. *)
Definition terminalCodes : list string :=
  [ "schedule-expired"; "canceled-before-fulfillment"; "bad-parameters";
    "system-error" ].

(** An attempt that decides nothing and after which the context is still
    live. *)
Definition quiet (p : poll) : Prop :=
  accept Acceptors (codes p) = None ∧ ctxDone p = false.

(** The request is fulfilled: every status code is [fulfilled], or every one
    is [request-canceled-and-instance-running]. *)
Definition fulfilled (cs : list string) : Prop :=
  cs ≠ []
  ∧ (Forall (λ c, c = "fulfilled") cs
     ∨ Forall (λ c, c = "request-canceled-and-instance-running") cs).

End SpotProps.

Module TaskDBProps.
Import Errors DynamoDB TaskDB.

(** What [Runs] and [Tasks] get from the only query [input] they send. *)
Definition sent (DB : QueryInput → list Item + error) (input : QueryInput)
  : list (list Item) + error :=
  match DB input with
  | inl items => inl [items]
  | inr err => inr (queryError err)
  end.

Section Digest.

Context {Digest : Type}.
Variable Digest_String : Digest → string.
Variable HexN : Digest → nat → string.

(** The invariant of a row: a Task row has the ID of some digest and, as
    ID4, what [HexN] gives for it; and its Keepalive, when it has one, is not
    before its StartTime. *)
Definition row_ok (row : Item) : Prop :=
  row !! colType = Some (S (objType_string task)) →
  (∃ d, row !! colID = Some (S (Digest_String d))
        ∧ row !! colID4 = Some (S (HexN d 4)))
  ∧ (∀ st ka, row !! colStartTime = Some (S_time st) →
              row !! colKeepalive = Some (S_time ka) → (st ≤ ka)%Z).

Definition row_invariant (table : Table) : Prop :=
  ∀ key row, table !! key = Some row → row_ok row.

(** The part of the invariant that is about ID4: a Task row has the ID of
    some digest and, as ID4, what [HexN] gives for it. *)
Definition id4_ok (row : Item) : Prop :=
  row !! colType = Some (S (objType_string task)) →
  ∃ d, row !! colID = Some (S (Digest_String d))
       ∧ row !! colID4 = Some (S (HexN d 4)).

Definition id4_invariant (table : Table) : Prop :=
  ∀ key row, table !! key = Some row → id4_ok row.

(** The filter of a query by time passes [row]: it has the user asked for,
    if one is, and a query for runs finds the type run. *)
Definition passes (q : Query (Digest := Digest)) (typ : objType) (row : Item)
  : Prop :=
  (Query_User q ≠ "" → row !! colUser = Some (S (Query_User q)))
  ∧ (typ = run → row !! colType = Some (S (objType_string run))).

(** The query [buildQueries] builds for the date bucket [d]. *)
Definition bucket (t : TaskDB) (q : Query (Digest := Digest)) (typ : objType)
    (d : Z) : QueryInput :=
  let user := negb (String.eqb (Query_User q) "") in
  let runs := bool_decide (typ = run) in
  {| TableName := TaskDB_TableName t;
     IndexName := dateKeepaliveIndex;
     KeyConditionExpression :=
       "#Date = :date and " +:+ colKeepalive +:+ " > :ka ";
     ExpressionAttributeValues :=
       (let values : Item :=
          if user then {[ ":user" := S (Query_User q) ]} else ∅ in
        if runs then <[":type" := S (objType_string typ)]> values else values)
       ∪ {[ ":date" := Format_dateLayout d;
            ":ka" := Format_timeLayout (Since q) ]};
     ExpressionAttributeNames :=
       (let names : gmap string string :=
          if user then {[ "#User" := colUser ]} else ∅ in
        if runs then <["#Type" := colType]> names else names)
       ∪ {[ "#Date" := colDate ]};
     FilterExpression :=
       match user, runs with
       | true, true => Some "#User = :user and #Type = :type"
       | true, false => Some "#User = :user"
       | false, true => Some "#Type = :type"
       | false, false => None
       end |}.

End Digest.

(** C8's second part as the claim states it, for [Runs] and a run of the
    user asked for: after [Keepalive id t], a query by time with Since at
    most [t], made on the day of [t], returns the row of [id]. *)
Definition returned_when_Since_le : Prop :=
  ∀ t table id ka (q : Query (Digest := string)) now row,
    TaskDBExamples.IsZero (ID q) = true →
    TaskDBExamples.IsZero (RunID q) = true →
    Since q ≠ Time.zeroTime →
    (Since q ≤ ka)%Z → (ka / Day = now / Day)%Z →
    let table' :=
      exec TaskDBExamples.Digest_String TaskDBExamples.HexN t now table
           (Keepalive id ka) in
    table' !! TaskDBExamples.Digest_String id = Some row →
    row !! colType = Some (S (objType_string run)) →
    (Query_User q ≠ "" → row !! colUser = Some (S (Query_User q))) →
    ∃ rows,
      Runs_rows TaskDBExamples.Digest_String TaskDBExamples.HexN
        TaskDBExamples.IsZero TaskDBExamples.IsAbbrev
        (DynamoDB.Query table') t q now = Some (inl rows)
      ∧ row ∈ rows.

(** C9 as the claim states it: every operation preserves the invariant of
    the rows. *)
Definition operations_preserve_row_invariant : Prop :=
  ∀ t now table o,
    row_invariant TaskDBExamples.Digest_String TaskDBExamples.HexN table →
    row_invariant TaskDBExamples.Digest_String TaskDBExamples.HexN
      (exec TaskDBExamples.Digest_String TaskDBExamples.HexN t now table o).

End TaskDBProps.

(** ** The catalog of a selector ([newInstanceState], [Available]) *)

Module InstanceState.
Import Float64 Selector.

Section newInstanceState.

(** [sort.Slice] of package sort, an external library, is a parameter: it
    takes the slice and the order, here on the elements. *)
Variable sort_Slice :
  list instanceConfig → (instanceConfig → instanceConfig → bool) →
  list instanceConfig.

(** [newInstanceState]: the configs sorted by decreasing memory, and no type
    marked unavailable. *)
Definition newInstanceState (cs : list instanceConfig) (sleep : Z)
    (region : string) : instanceState :=
  {| configs :=
       sort_Slice cs
         (λ ci cj, (index (Resources cj) "mem"
                    <? index (Resources ci) "mem")%float);
     sleepTime := sleep;
     region := region;
     unavailable := ∅ |}.

End newInstanceState.

(** [Available]: whether some config of the catalog covers [need]. *)
Definition Available (s : instanceState) (need : reflow_Resources) : bool :=
  existsb (λ config, Selector.Available (Resources config) need) (configs s).

End InstanceState.

(** ** The capacity probe ([ec2HasCapacity]) *)

Module Capacity.
Import Errors Instance.

Global Instance error_eq_dec : EqDecision error.
Proof. solve_decision. Defined.

(** [ec2.RunInstancesInput], by the fields [ec2HasCapacity] sets. *)
Record RunInstancesInput := {
  DryRun : bool;
  MinCount : Z;
  MaxCount : Z;
  ImageId : string;
  InstanceType : string;
}.

(** The parameters of the dry run for [n] instances. *)
Definition params (i : instance) (n : Z) : RunInstancesInput :=
  {| DryRun := true;
     MinCount := Time.int64 n;
     MaxCount := Time.int64 n;
     ImageId := AMI i;
     InstanceType := Selector.Type_ (Config i) |}.

Section ec2HasCapacity.

(** [context.DeadlineExceeded], a value of package context. *)
Variable DeadlineExceeded : error.

(** [ec2HasCapacity], on the error RunInstances answers the dry run with
    ([None] when it answers without error) and on what [ctx.Err()] yields
    afterwards. *)
Definition ec2HasCapacity (RunInstances : option error)
    (ctxErr : option error) : bool * option error :=
  match RunInstances with
  | None => (false, Some (Errorf "did not expect successful response"))
  | Some err =>
      match awsCode err with
      | Some code =>
          if String.eqb code "DryRunOperation" then (true, None)
          else if String.eqb code "RequestCanceled" then (false, None)
          else (false, Some err)
      | None =>
          if bool_decide (err = DeadlineExceeded) then (false, None)
          else
            match ctxErr with
            | Some e => (false, Some e)
            | None =>
                (false,
                 Some (Errorf
                   "expected awserr.Error or context error, got %T"))
            end
      end
  end.

End ec2HasCapacity.

End Capacity.

Module GoProps.
Import Launch.

(** The states a run has attempted, in order. *)
Definition attempts (tr : list event) : list nat :=
  omap (λ e, match e with Attempt s => Some s | Sleep _ => None end) tr.

(** State [s'] may be attempted after state [s]: it is not an earlier
    state, or it is one of the states from [stateWaitReflowlet] on, where
    [Go] goes back to after an image update. *)
Definition follows (s s' : nat) : Prop :=
  (s ≤ s')%nat ∨ (stateWaitReflowlet ≤ s')%nat.

Fixpoint in_order (l : list nat) : Prop :=
  match l with
  | [] => True
  | s :: l => Forall (follows s) l ∧ in_order l
  end.

(** An iteration in which every call succeeds for an on-demand launch, and
    in which the reflowlet runs an image that is not the controller's. *)
Record updating {digest_Digest : Type}
    (digest_Parse : string → digest_Digest + Errors.error)
    (imageDigest : digest_Digest * option Errors.error) (a : answers)
  : Prop := {
  updating_ctx : ctxErr a = None;
  updating_cloudConfig : ∃ b, cloudConfig (launching a) = inl b;
  updating_RunInstances : ∃ id', RunInstances (launching a) = inl [id'];
  updating_CreateTags : CreateTags a = None;
  updating_Wait : WaitUntilInstanceRunning a = None;
  updating_Describe :
    ∃ inst name remote,
      DescribeInstances a = inl [[inst]]
      ∧ Instance.PublicDnsName inst = Some name ∧ name ≠ ""
      ∧ Instance.Version (Instance.newReflowletInstance inst) ≠ ""
      ∧ Instance.Digest (Instance.newReflowletInstance inst) ≠ ""
      ∧ digest_Parse (Instance.Digest (Instance.newReflowletInstance inst))
        = inl remote
      ∧ remote ≠ imageDigest.1;
  updating_local : imageDigest.2 = None;
  updating_New : client_New a = None;
  updating_Config : client_Config a = None;
  updating_Repo : ReflowConfig_Instance a = None;
  updating_upload : uploadImage a = None;
  updating_Install : InstallImage a = None;
}.

(** What holds of the variables at the head of the loop: the attempts so
    far are in order, every one is of a state before [stateDone] that may
    be followed by the current state, and every state up to
    [stateDescribeTags] that is before the current one was attempted. *)
Definition ordered (v : vars) : Prop :=
  in_order (attempts (trace v))
  ∧ Forall (λ s, follows s (state v) ∧ (s < stateDone)%nat)
           (attempts (trace v))
  ∧ ∀ s, (s < state v)%nat → (s ≤ stateDescribeTags)%nat →
         s ∈ attempts (trace v).

(** What holds at the head of the loop while every call succeeds: no error
    is pending, and in [stateUpdateImage] the instance has been described
    with a DNS name. *)
Definition cycling (v : vars) : Prop :=
  Instance.err (i v) = None ∧ Instance.Spot (i v) = false ∧ (state v < stateDone)%nat
  ∧ (state v = stateUpdateImage →
     ∃ inst name, Instance.ec2inst (i v) = Some inst
                  ∧ Instance.PublicDnsName inst = Some name).

(** An iteration at whose start the context is done. *)
Definition cancelled : answers :=
  {| now := 0; ctxErr := Some (Errors.Errorf "context canceled");
     ctxErrLate := Some (Errors.Errorf "context canceled");
     ec2HasCapacity := (true, None);
     launching := launching (LaunchExamples.answer "sha256:new" None);
     CreateTags := None; WaitUntilInstanceRunning := None;
     DescribeInstances := inl [[LaunchExamples.described "sha256:new"]];
     client_New := None; client_Config := None;
     ReflowConfig_Instance := None; uploadImage := None;
     InstallImage := None |}.

(** A spot launch that probes for capacity, and an iteration in which the
    dry run is answered by the error [probe]. *)
Definition probing : Instance.instance :=
  {| Instance.Config := SelectorExamples.A; Instance.Spot := true;
     Instance.Subnet := "subnet-1";
     Instance.InstanceProfile := "arn:aws:iam::1:instance-profile/reflow";
     Instance.SecurityGroup := "sg-1"; Instance.Price := 0.2%float;
     Instance.EBSType := "gp2"; Instance.EBSSize := 500; Instance.NEBS := 1;
     Instance.AMI := "ami-1"; Instance.KeyName := "";
     Instance.SpotProbeDepth := 20; Instance.userData := "";
     Instance.err := None; Instance.ec2inst := None |}.

Definition DeadlineExceeded : Errors.error :=
  Errors.Errorf "context deadline exceeded".

Definition probed (probe : Errors.error) : answers :=
  {| now := 0; ctxErr := None; ctxErrLate := None;
     ec2HasCapacity :=
       Capacity.ec2HasCapacity DeadlineExceeded (Some probe) None;
     launching := launching (LaunchExamples.answer "sha256:new" None);
     CreateTags := None; WaitUntilInstanceRunning := None;
     DescribeInstances := inl [[LaunchExamples.described "sha256:new"]];
     client_New := None; client_Config := None;
     ReflowConfig_Instance := None; uploadImage := None;
     InstallImage := None |}.

End GoProps.

(** ** The EBS volumes ([ebsDeviceMappings], the devices of [launch]) *)

Module Disks.
Import Errors Instance.

(** *** [fmt.Sprintf("%c", c)]

    Package fmt is an external library.  The verb prints the UTF-8
    encoding of the code point [c], taken as a uint64, and the encoding of
    U+FFFD for a value that is above U+10FFFF or a surrogate half. *)

Definition byte (n : Z) : string := String (ascii_of_N (Z.to_N n)) "".

Definition RuneError : Z := 0xFFFD.

(** [utf8.AppendRune] on a code point up to U+10FFFF. *)
Definition EncodeRune (r : Z) : string :=
  let r := if (0xD800 <=? r)%Z && (r <=? 0xDFFF)%Z then RuneError else r in
  if (r <? 0x80)%Z then byte r
  else if (r <? 0x800)%Z then
    byte (0xC0 + r / 64) +:+ byte (0x80 + r mod 64)
  else if (r <? 0x10000)%Z then
    byte (0xE0 + r / 4096) +:+ byte (0x80 + r / 64 mod 64)
      +:+ byte (0x80 + r mod 64)
  else
    byte (0xF0 + r / 262144) +:+ byte (0x80 + r / 4096 mod 64)
      +:+ byte (0x80 + r / 64 mod 64) +:+ byte (0x80 + r mod 64).

Definition Sprintf_c (c : Z) : string :=
  let u := (c mod 2 ^ 64)%Z in
  EncodeRune (if (0x10FFFF <? u)%Z then RuneError else u).

(** [ec2.BlockDeviceMapping] with its [ec2.EbsBlockDevice] flattened. *)
Record BlockDeviceMapping := {
  DeviceName : string;
  DeleteOnTermination : bool;
  VolumeSize : Z;
  VolumeType : string;
}.

(** [ebsDeviceMappings].  [i.EBSSize] is a uint64 and [i.NEBS] an int; the
    division is the one of int64, which truncates. *)
Definition ebsDeviceMappings (i : instance) : list BlockDeviceMapping :=
  {| DeviceName := "/dev/xvda"; DeleteOnTermination := true;
     VolumeSize := 200; VolumeType := "gp2" |}
  :: ((λ idx,
         {| DeviceName := "/dev/xvd" +:+ Sprintf_c (Time.int64 (98 + idx));
            DeleteOnTermination := true;
            VolumeSize := (Time.int64 (EBSSize i) ÷ NEBS i)%Z;
            VolumeType := EBSType i |})
        <$> seqZ 0 (NEBS i)).

(** The switch on [i.NEBS] in [launch]: the device that is formatted and
    mounted at /mnt/data and, when several volumes are put together as
    md0, the devices of the array.  [None] is the panic of [make] with a
    negative length. *)
Definition launch_devices (i : instance) : option (string * list string) :=
  if (NEBS i =? 0)%Z || (NEBS i =? 1)%Z then
    Some (if Selector.NVMe (Config i) then "nvme1n1" else "xvdb", [])
  else if (NEBS i <? 0)%Z then None
  else
    Some ("md0",
          (λ idx,
             if Selector.NVMe (Config i)
             then "nvme" +:+ pretty (idx + 1)%Z +:+ "n1"
             else "xvd" +:+ Sprintf_c (Time.int64 (98 + idx)))
            <$> seqZ 0 (NEBS i)).

(** A launch with four volumes of type st1, 1200 GiB together. *)
Definition striped : instance :=
  {| Config := SelectorExamples.A; Spot := false; Subnet := "subnet-1";
     InstanceProfile := "arn:aws:iam::1:instance-profile/reflow";
     SecurityGroup := "sg-1"; Price := 0.2%float; EBSType := "st1";
     EBSSize := 1200; NEBS := 4; AMI := "ami-1"; KeyName := "";
     SpotProbeDepth := 0; userData := ""; err := None; ec2inst := None |}.

End Disks.

(** ** The rows of the task store *)

Module Rows.
Import Errors DynamoDB TaskDB.

(** The clauses of the key condition and of the filter of a query by time:
    the date and the keepalive, then the user if one is asked for, then the
    type for a query for runs. *)
Definition clauses (user runs : bool) : list clause :=
  [("#Date", "=", ":date"); (colKeepalive, ">", ":ka")]
  ++ (if user then [("#User", "=", ":user")] else [])
  ++ (if runs then [("#Type", "=", ":type")] else []).

(** Every row is stored under its ID. *)
Definition keyed (table : Table) : Prop :=
  ∀ key row, table !! key = Some row → row !! colID = Some (S key).

Section Digest.

Context {Digest : Type}.
Variable Digest_String : Digest → string.
Variable HexN : Digest → nat → string.

(** The ID an operation is about. *)
Definition operation_id (o : operation (Digest := Digest)) : Digest :=
  match o with
  | CreateRun id _ => id
  | CreateTask id _ _ _ => id
  | SetTaskResult id _ => id
  | SetTaskAttrs id _ _ _ => id
  | Keepalive id _ => id
  end.

(** The attributes an operation writes; [None] for the operations that
    replace the row. *)
Definition writes (o : operation (Digest := Digest)) : option (list string) :=
  match o with
  | CreateRun _ _ | CreateTask _ _ _ _ => None
  | SetTaskResult _ _ => Some [colResultID]
  | SetTaskAttrs _ _ _ _ => Some [colStdout; colStderr; colInspect]
  | Keepalive _ _ => Some [colKeepalive; colDate]
  end.

(** Two operations do not interfere: they are about different IDs, or both
    update the row and write different attributes. *)
Definition independent (o1 o2 : operation (Digest := Digest)) : Prop :=
  Digest_String (operation_id o1) ≠ Digest_String (operation_id o2)
  ∨ ∃ w1 w2, writes o1 = Some w1 ∧ writes o2 = Some w2
             ∧ ∀ a, a ∈ w1 → a ∉ w2.

(** The row an operation issued at [now] leaves for its ID, given the row
    the table has for it. *)
Definition row_after (t : TaskDB) (now : Z)
    (o : operation (Digest := Digest)) (old : option Item) : Item :=
  let row := default {[ colID := S (Digest_String (operation_id o)) ]} old in
  match o with
  | CreateRun id user => put_Item (CreateRun_input Digest_String HexN t now id user)
  | CreateTask id runid flowid uri =>
      put_Item (CreateTask_input Digest_String HexN t now id runid flowid uri)
  | SetTaskResult _ result =>
      <[colResultID := S (Digest_String result)]> row
  | SetTaskAttrs _ stdout stderr inspect =>
      <[colInspect := S (Digest_String inspect)]>
        (<[colStderr := S (Digest_String stderr)]>
           (<[colStdout := S (Digest_String stdout)]> row))
  | Keepalive _ keepalive =>
      <[colDate := Format_dateLayout keepalive]>
        (<[colKeepalive := Format_timeLayout keepalive]> row)
  end.

End Digest.

End Rows.

(** ** What [Runs] makes of the rows *)

Module Decode.
Import Errors DynamoDB TaskDB.

(** [strings.Split(s, "=")]: the pieces of [s] between the equal signs;
    [piece] is the piece being read. *)
Fixpoint Split_from (s : string) (piece : string) : list string :=
  match s with
  | EmptyString => [piece]
  | String c s =>
      if Ascii.eqb c "="%char then piece :: Split_from s ""
      else Split_from s (piece +:+ String c "")
  end.

Definition Split (s : string) : list string := Split_from s "".

(** [strings.Contains(s, "=")]. *)
Fixpoint ContainsEq (s : string) : bool :=
  match s with
  | EmptyString => false
  | String c s => Ascii.eqb c "="%char || ContainsEq s
  end.

(** [taskdb.Run]. *)
Record Run {Digest : Type} := {
  Run_ID : Digest;
  Run_Labels : gmap string string;
  Run_User : string;
  Run_Keepalive : Z;
  Run_Start : Z;
}.
Global Arguments Run : clear implicits.

Section Digest.

(** Packages digest and time are external libraries: the digests, the
    parsing of a digest and of a time, which return a value and an error as
    in Go, and the rendering of the times the store keeps are parameters. *)
Context {Digest : Type}.
Variable Digest_String : Digest → string.
Variable HexN : Digest → nat → string.
Variable IsZero : Digest → bool.
Variable IsAbbrev : Digest → bool.
Variable Digester_Parse : string → Digest * option error.
Variable Expands : Digest → Digest → bool.
Variable time_Parse : string → Z * option error.
Variable RFC3339 : Z → string.
Variable dateLayout : Z → string.

(** The field [S] of an attribute value: [None] is the nil pointer. *)
Definition field_S (v : AttributeValue) : option string :=
  match v with
  | S s => Some s
  | SS _ => None
  | S_time sec => Some (RFC3339 sec)
  | S_date day => Some (dateLayout day)
  end.

(** The field [SS] of an attribute value: the nil slice has no element. *)
Definition field_SS (v : AttributeValue) : list string :=
  match v with
  | SS ss => ss
  | _ => []
  end.

(** [*it[col].S]: [None] is the panic of a nil pointer dereference, when the
    row has no attribute [col] or the attribute has no string. *)
Definition deref_S (it : Item) (col : string) : option string :=
  it !! col ≫= field_S.

(** The error a parse adds to [errs], if any. *)
Definition parse_error (what s : string) (err : option error) : list error :=
  match err with
  | Some e => [Errorf (what +:+ s +:+ ": " +:+ text e)]
  | None => []
  end.

(** One iteration of the loop over the labels of a row. *)
Definition labels_step (acc : gmap string string * list error) (va : string)
  : gmap string string * list error :=
  let '(l, errs) := acc in
  match Split va with
  | [k; v] => (<[k := v]> l, errs)
  | _ => (l, errs ++ [Errorf ("label not well formed: " +:+ va)])
  end.

(** The body of the loop of [Runs] over the rows of a response, for one
    row: the errors it adds and the run it appends, if it does not skip the
    row; [None] is a panic. *)
Definition decode_row (query : Query (Digest := Digest)) (it : Item)
  : option (list error * option (Run Digest)) :=
  idS ← deref_S it colID;
  let '(id, err) := Digester_Parse idS in
  let errs := parse_error "parse id " idS err in
  if negb (IsZero (ID query)) && IsAbbrev (ID query)
     && negb (Expands id (ID query))
  then Some (errs, None)
  else
    labels ← it !! colLabels;
    let '(l, errs) := fold_left labels_step (field_SS labels) (∅, errs) in
    kaS ← deref_S it colKeepalive;
    let '(ka, err) := time_Parse kaS in
    let errs := errs ++ parse_error "parse keepalive " kaS err in
    stS ← deref_S it colStartTime;
    let '(st, err) := time_Parse stS in
    let errs := errs ++ parse_error "parse starttime " stS err in
    user ← deref_S it "User";
    Some (errs,
          Some {| Run_ID := id; Run_Labels := l; Run_User := user;
                  Run_Keepalive := ka; Run_Start := st |}).

(** The loop of [Runs] over the rows: the runs and the errors so far. *)
Fixpoint decode_rows (query : Query (Digest := Digest)) (items : list Item)
    (runs : list (Run Digest)) (errs : list error)
  : option (list (Run Digest) * list error) :=
  match items with
  | [] => Some (runs, errs)
  | it :: items =>
      match decode_row query it with
      | None => None
      | Some (es, r) =>
          decode_rows query items (runs ++ option_list r) (errs ++ es)
      end
  end.

(** [Runs] when the clock reads [now]: the runs and the error it returns;
    [None] is a panic. *)
Definition Runs (DB : QueryInput → list Item + error) (t : TaskDB)
    (query : Query (Digest := Digest)) (now : Z)
  : option (list (Run Digest) * option error) :=
  rows ← Runs_rows Digest_String HexN IsZero IsAbbrev DB t query now;
  match rows with
  | inr err => Some ([], Some err)
  | inl items =>
      match decode_rows query items [] [] with
      | None => None
      | Some (runs, []) => Some (runs, None)
      | Some (_, errs) => Some ([], Some (Errorf (Join (text <$> errs) ", ")))
      end
  end.

(** The row of a run that was created at [now0] and kept alive until
    [ka]. *)
Definition kept (t : TaskDB) (now0 ka : Z) (id : Digest) (user : string)
  : Item :=
  <[colDate := Format_dateLayout ka]>
    (<[colKeepalive := Format_timeLayout ka]>
       (put_Item (CreateRun_input Digest_String HexN t now0 id user))).

End Digest.

(** The labels [Init] makes of the pairs of a [pool.Labels], in the order it
    ranges over them. *)
Definition Init_Labels (labels : list (string * string)) : list string :=
  (λ kv, kv.1 +:+ "=" +:+ kv.2) <$> labels.

(** Digests, as in the examples, by their hexadecimal strings, and times
    rendered as their number of seconds. *)
Definition example_Parse (s : string) : string * option error := (s, None).
Definition example_Expands (d abbrev : string) : bool :=
  String.prefix abbrev d.
Definition example_RFC3339 (sec : Z) : string := pretty sec.
Definition example_time_Parse (s : string) : Z * option error :=
  if String.eqb s (pretty (TaskDBExamples.noon / Time.Second)%Z)
  then (TaskDBExamples.noon / Time.Second * Time.Second, None)%Z
  else if String.eqb s (pretty (TaskDBExamples.yesterday / Time.Second)%Z)
  then (TaskDBExamples.yesterday / Time.Second * Time.Second, None)%Z
  else (Time.zeroTime, Some (Errorf "cannot parse"))%Z.

(** A query by the full ID of a run. *)
Definition full : string :=
  "9f3a000000000000000000000000000000000000000000000000000000000000".

Definition byID : Query (Digest := string) :=
  {| ID := full; RunID := ""; Since := Time.zeroTime; Query_User := "" |}.

End Decode.

(** * Facts *)

(** ** The order of float64 *)

Module Float64Facts.
Import Float64.

Ltac compare_cases :=
  repeat match goal with
  | |- context [Pos.compare_cont Eq ?a ?b] =>
      change (Pos.compare_cont Eq a b) with (Pos.compare a b)
  | H : context [Pos.compare_cont Eq ?a ?b] |- _ =>
      change (Pos.compare_cont Eq a b) with (Pos.compare a b) in H
  end;
  repeat match goal with
  | H : context [(?x ?= ?y)%Z] |- _ =>
      destruct (Z.compare_spec x y); simpl in H
  | H : context [(?x ?= ?y)%positive] |- _ =>
      destruct (Pos.compare_spec x y); simpl in H
  | |- context [(?x ?= ?y)%Z] => destruct (Z.compare_spec x y); simpl
  | |- context [(?x ?= ?y)%positive] =>
      destruct (Pos.compare_spec x y); simpl
  end;
  try reflexivity; try congruence; try lia.

(** The comparison of the specification is transitive on the pairs it
    orders: smaller-or-equal twice is smaller-or-equal, and equal only when
    both are. *)
Lemma SFcompare_trans (a b c : spec_float) (u v : comparison) :
  SFcompare a b = Some u → SFcompare b c = Some v →
  u ≠ Gt → v ≠ Gt →
  SFcompare a c = Some (match u, v with Eq, Eq => Eq | _, _ => Lt end).
Proof.
  destruct a as [[]|[]| |[] m1 e1], b as [[]|[]| |[] m2 e2],
           c as [[]|[]| |[] m3 e3]; simpl; intros Hu Hv Hu' Hv';
    try discriminate; injection Hu as <-; injection Hv as <-;
    try congruence; compare_cases.
Qed.

Lemma SFcompare_refl (a : spec_float) : SFcompare a a ≠ Some Lt.
Proof.
  destruct a as [[]|[]| |[] m e]; simpl; try congruence;
    rewrite Z.compare_refl;
    change (Pos.compare_cont Eq m m) with (Pos.compare m m);
    rewrite Pos.compare_refl; simpl; congruence.
Qed.

Lemma ltb_Lt (x y : float) :
  (x <? y)%float = true ↔ SFcompare (Prim2SF x) (Prim2SF y) = Some Lt.
Proof.
  rewrite ltb_spec. unfold SFltb.
  destruct (SFcompare _ _) as [[]|]; split; congruence.
Qed.

Lemma leb_Le (x y : float) :
  (x <=? y)%float = true ↔
  ∃ u, SFcompare (Prim2SF x) (Prim2SF y) = Some u ∧ u ≠ Gt.
Proof.
  rewrite leb_spec. unfold SFleb.
  destruct (SFcompare _ _) as [[]|]; split; intros H;
    try discriminate;
    try (destruct H as (u & Hu & Hne); congruence);
    (eexists; split; [reflexivity | congruence]).
Qed.

Lemma ltb_irrefl (x : float) : (x <? x)%float = false.
Proof.
  destruct (x <? x)%float eqn:E; [|reflexivity].
  apply ltb_Lt in E. now apply SFcompare_refl in E.
Qed.

Lemma ltb_trans (x y z : float) :
  (x <? y)%float = true → (y <? z)%float = true → (x <? z)%float = true.
Proof.
  rewrite !ltb_Lt. intros H1 H2.
  now rewrite (SFcompare_trans _ _ _ _ _ H1 H2).
Qed.

Lemma ltb_leb_trans (x y z : float) :
  (x <? y)%float = true → (y <=? z)%float = true → (x <? z)%float = true.
Proof.
  rewrite !ltb_Lt, leb_Le. intros H1 (v & H2 & Hv).
  now rewrite (SFcompare_trans _ _ _ _ _ H1 H2).
Qed.

Lemma leb_ltb_trans (x y z : float) :
  (x <=? y)%float = true → (y <? z)%float = true → (x <? z)%float = true.
Proof.
  rewrite !ltb_Lt, leb_Le. intros (u & H1 & Hu) H2.
  rewrite (SFcompare_trans _ _ _ _ _ H1 H2) by congruence.
  now destruct u.
Qed.

Lemma leb_trans (x y z : float) :
  (x <=? y)%float = true → (y <=? z)%float = true → (x <=? z)%float = true.
Proof.
  rewrite !leb_Le. intros (u & H1 & Hu) (v & H2 & Hv).
  eexists. split; [exact (SFcompare_trans _ _ _ _ _ H1 H2 Hu Hv)|].
  destruct u, v; congruence.
Qed.

Lemma ltb_leb (x y : float) :
  (x <? y)%float = true → (x <=? y)%float = true.
Proof.
  rewrite ltb_Lt, leb_Le. intros H. eexists. split; [exact H | congruence].
Qed.

End Float64Facts.

(** ** The selector *)

Module SelectorFacts.
Import Float64 Float64Facts Selector SelectorExamples SelectorProps.

Lemma fold_left_invariant {A B : Type} (f : A → B → A) (P : A → Prop)
    (l : list B) (a : A) :
  P a → (∀ a b, b ∈ l → P a → P (f a b)) → P (fold_left f l a).
Proof.
  revert a. induction l as [|b l IH]; intros a Ha Hf; simpl; [exact Ha|].
  apply IH.
  - apply Hf; [left | exact Ha].
  - intros a' b' Hb'. apply Hf. now right.
Qed.

Lemma Available_spec (r need : reflow_Resources) :
  Available r need = true ↔
  ∀ key v, need !! key = Some v → (v <=? index r key)%float = true.
Proof. unfold Available. rewrite bool_decide_eq_true. reflexivity. Qed.

Lemma candidate_test s now need spot c :
  asleep s now (Type_ c) || (spot && negb (SpotOk c)) = false →
  negb (Available (Resources c) need) = false →
  candidate s now need spot c.
Proof.
  intros H1 H2. apply orb_false_elim in H1 as [Ha Hs].
  apply negb_false_iff in H2. repeat split; try assumption.
  intros ->. simpl in Hs. now apply negb_false_iff in Hs.
Qed.

Section MaxAvailable.

Variable ScaledDistance : reflow_Resources → reflow_Resources → float.

(** The config [MaxAvailable] returns is the zero config or a candidate of
    the catalog. *)
Lemma MaxAvailable_result s now need spot :
  let best := (MaxAvailable ScaledDistance s now need spot).1 in
  best = zeroConfig ∨ (best ∈ configs s ∧ candidate s now need spot best).
Proof.
  unfold MaxAvailable.
  pose (P := λ acc : instanceConfig * float,
    acc.1 = zeroConfig ∨ (acc.1 ∈ configs s ∧ candidate s now need spot acc.1)).
  assert (HP : P (fold_left (MaxAvailable_body ScaledDistance s now need spot)
                     (configs s) (zeroConfig, (- MaxFloat64)%float))).
  { apply fold_left_invariant; [now left|].
    intros [best distance] c Hc Hacc. unfold MaxAvailable_body.
    destruct (asleep s now (Type_ c) || (spot && negb (SpotOk c))) eqn:E1;
      [exact Hacc|].
    destruct (negb (Available (Resources c) need)) eqn:E2; [exact Hacc|].
    destruct (_ <? _)%float; [|exact Hacc].
    right. split; [exact Hc|]. now apply candidate_test. }
  destruct (fold_left _ _ _) as [best distance]. exact HP.
Qed.

(** When [MaxAvailable] says ok, the config it returns covers [need]; and it
    is on the spot market when [spot] is set, provided [need] asks for
    something, that is, the empty resources do not cover it. *)
Lemma MaxAvailable_sound s now need spot c :
  MaxAvailable ScaledDistance s now need spot = (c, true) →
  (∀ key v, need !! key = Some v → (v <=? index (Resources c) key)%float = true)
  ∧ (Available ∅ need = false → spot = true → SpotOk c = true).
Proof.
  intros H. pose proof (MaxAvailable_result s now need spot) as Hr.
  rewrite H in Hr. simpl in Hr. split.
  - apply Available_spec. unfold MaxAvailable in H.
    destruct (fold_left _ _ _) as [best distance]. now inversion H.
  - intros Hneed Hspot. destruct Hr as [-> | [_ (_ & Hs & _)]]; [|auto].
    unfold MaxAvailable in H. destruct (fold_left _ _ _) as [best distance].
    inversion H; subst. simpl in *. congruence.
Qed.

(** C2, at the input where it fails.  With nothing asked for ([need] empty),
    [spot] set and no type of the catalog on the spot market, [MaxAvailable]
    answers ok with the zero config, whose SpotOk is false. *)
Theorem MaxAvailable_spot_empty_need :
  MaxAvailable ScaledDistance onDemandOnly 0 ∅ true = (zeroConfig, true)
  ∧ SpotOk (MaxAvailable ScaledDistance onDemandOnly 0 ∅ true).1 = false.
Proof. split; reflexivity. Qed.

End MaxAvailable.

(** *** [MinAvailable] *)

Lemma viableb_spec s now need spot c :
  viableb s now need spot c = true ↔ viable s now need spot c.
Proof.
  unfold viableb, viable, candidate.
  rewrite !andb_true_iff, negb_true_iff, orb_false_iff, bool_decide_eq_true.
  destruct spot, (SpotOk c); simpl; intuition congruence.
Qed.

(** The first loop collects the viable configs, in the order of the
    catalog. *)
Lemma pick_viable s now need spot l best bestPrice vl :
  (fold_left (MinAvailable_pick s now need spot) l (best, bestPrice, vl)).2
  = vl ++ List.filter (viableb s now need spot) l.
Proof.
  revert best bestPrice vl.
  induction l as [|c l IH]; intros best bestPrice vl;
    cbn [fold_left List.filter].
  { now rewrite app_nil_r. }
  unfold MinAvailable_pick at 2, viableb.
  destruct (asleep s now (Type_ c) || (spot && negb (SpotOk c)));
    cbn [negb andb]; [apply IH|].
  destruct (Available (Resources c) need); cbn [negb andb]; [|apply IH].
  destruct (Price c !! region s) as [price|] eqn:Ep.
  - rewrite bool_decide_true by eauto.
    destruct (price <? bestPrice)%float; rewrite IH, <- app_assoc; reflexivity.
  - rewrite bool_decide_false by (intros [? ?]; congruence). apply IH.
Qed.

(** The first loop leaves in [bestPrice] a price that no viable config is
    below, and in [best] the config that has it, if any was below
    [math.MaxFloat64]. *)
Lemma pick_best s now need spot l :
  let '(best, bestPrice, vl) :=
    fold_left (MinAvailable_pick s now need spot) l
              (zeroConfig, MaxFloat64, []) in
  (∀ c, c ∈ vl → (priceIn s c <? bestPrice)%float = false)
  ∧ (best = zeroConfig ∧ bestPrice = MaxFloat64
     ∨ best ∈ vl ∧ priceIn s best = bestPrice).
Proof.
  pose (P := λ acc : instanceConfig * float * list instanceConfig,
    (∀ c, c ∈ acc.2 → (priceIn s c <? acc.1.2)%float = false)
    ∧ (acc.1.1 = zeroConfig ∧ acc.1.2 = MaxFloat64
       ∨ acc.1.1 ∈ acc.2 ∧ priceIn s acc.1.1 = acc.1.2)).
  assert (HP : P (fold_left (MinAvailable_pick s now need spot) l
                            (zeroConfig, MaxFloat64, []))).
  { apply fold_left_invariant.
    { split; [intros c Hc; inversion Hc | now left]. }
    intros [[best bestPrice] vl] c _ [Hall Hbest]. simpl in Hall, Hbest.
    unfold MinAvailable_pick.
    destruct (_ || _); [now split|].
    destruct (negb _); [now split|].
    destruct (Price c !! region s) as [price|] eqn:Ep; [|now split].
    assert (Hprice : priceIn s c = price).
    { unfold priceIn, index. now rewrite Ep. }
    destruct (price <? bestPrice)%float eqn:Elt; split; simpl.
    - intros c' [Hc'| ->%list_elem_of_singleton]%elem_of_app.
      + destruct (priceIn s c' <? price)%float eqn:E; [|reflexivity].
        rewrite <- (Hall c' Hc'). symmetry. now apply ltb_trans with price.
      + rewrite Hprice. apply ltb_irrefl.
    - right. split; [|exact Hprice].
      apply elem_of_app. right. now apply list_elem_of_singleton.
    - intros c' [Hc'| ->%list_elem_of_singleton]%elem_of_app.
      + now apply Hall.
      + now rewrite Hprice.
    - destruct Hbest as [Hz | [Hin Hp]]; [now left | right].
      split; [|exact Hp]. apply elem_of_app. now left. }
  destruct (fold_left _ _ _) as [[best bestPrice] vl]. exact HP.
Qed.

Lemma upgrades_cheaper s best0 p0 b c :
  upgrades s best0 p0 b = true →
  (priceIn s c <? priceIn s b)%float = true →
  (EBSThroughput b <=? EBSThroughput c)%float = true →
  upgrades s best0 p0 c = true.
Proof.
  unfold upgrades. rewrite !andb_true_iff, !orb_true_iff.
  intros [Hp He] Hlt Hle. split.
  - destruct Hp as [Hp|Hp]; [left|right]; eapply ltb_trans; eassumption.
  - eapply ltb_leb_trans; eassumption.
Qed.

Lemma adjust_step s best0 p0 done acc c :
  adjusted s best0 p0 done acc →
  adjusted s best0 p0 (done ++ [c]) (MinAvailable_adjust s acc c).
Proof.
  destruct acc as [[best bestPrice] found]. unfold MinAvailable_adjust.
  change (index (Price c) (region s)) with (priceIn s c).
  destruct found; simpl.
  - intros (Hp & Hup & Hall).
    destruct ((priceIn s c <? bestPrice)%float
              && (EBSThroughput best <=? EBSThroughput c)%float) eqn:E.
    + apply andb_true_iff in E as [Elt Ele]. subst bestPrice.
      split; [reflexivity|]. split; [now apply upgrades_cheaper with best|].
      intros c' [Hc'| ->%list_elem_of_singleton]%elem_of_app [Hlt Hle].
      * apply (Hall c' Hc'). split.
        -- now apply ltb_trans with (priceIn s c).
        -- now apply leb_trans with (EBSThroughput c).
      * now rewrite ltb_irrefl in Hlt.
    + split; [exact Hp|]. split; [exact Hup|].
      intros c' [Hc'| ->%list_elem_of_singleton]%elem_of_app [Hlt Hle].
      * now apply (Hall c' Hc').
      * rewrite Hlt, Hle in E. discriminate.
  - intros (-> & -> & Hall).
    change (((priceIn s c <? p0 + ebsThroughputPremiumCost)%float
             || (priceIn s c <? p0 * premiumFactor)%float)
            && (EBSThroughput best0 * benefitFactor <? EBSThroughput c)%float)
      with (upgrades s best0 p0 c).
    destruct (upgrades s best0 p0 c) eqn:Eup; simpl.
    + rewrite ltb_irrefl. simpl.
      split; [reflexivity|]. split; [exact Eup|].
      intros c' [Hc'| ->%list_elem_of_singleton]%elem_of_app [Hlt Hle].
      * specialize (Hall c' Hc').
        rewrite (upgrades_cheaper s best0 p0 c c' Eup Hlt Hle) in Hall.
        discriminate.
      * now rewrite ltb_irrefl in Hlt.
    + split; [reflexivity|]. split; [reflexivity|].
      intros c' [Hc'| ->%list_elem_of_singleton]%elem_of_app;
        [now apply Hall | exact Eup].
Qed.

Lemma adjust_fold s best0 p0 l done acc :
  adjusted s best0 p0 done acc →
  adjusted s best0 p0 (done ++ l) (fold_left (MinAvailable_adjust s) l acc).
Proof.
  revert done acc. induction l as [|c l IH]; intros done acc Hacc; simpl.
  - now rewrite app_nil_r.
  - replace (done ++ c :: l) with ((done ++ [c]) ++ l)
      by now rewrite <- app_assoc.
    apply IH. now apply adjust_step.
Qed.

(** The second loop returns the config it started from or one of those it
    went through. *)
Lemma adjust_member s l acc :
  (fold_left (MinAvailable_adjust s) l acc).1.1 = acc.1.1
  ∨ (fold_left (MinAvailable_adjust s) l acc).1.1 ∈ l.
Proof.
  apply (fold_left_invariant (MinAvailable_adjust s)
           (λ acc', acc'.1.1 = acc.1.1 ∨ acc'.1.1 ∈ l)); [now left|].
  intros [[best bestPrice] found] c Hc Hacc. unfold MinAvailable_adjust.
  simpl in Hacc.
  destruct (negb found && _ && _); simpl;
    repeat match goal with |- context [if ?b then _ else _] => destruct b end;
    simpl; auto.
Qed.

(** The config [MinAvailable] returns is the zero config or a viable config
    of the catalog. *)
Lemma MinAvailable_result s now need spot :
  let best := (MinAvailable s now need spot).1 in
  best = zeroConfig ∨ (best ∈ configs s ∧ viable s now need spot best).
Proof.
  unfold MinAvailable.
  pose proof (pick_viable s now need spot (configs s) zeroConfig MaxFloat64 [])
    as Hvl.
  pose proof (pick_best s now need spot (configs s)) as Hb.
  destruct (fold_left (MinAvailable_pick _ _ _ _) _ _) as [[best0 p0] vl].
  simpl in Hvl. subst vl.
  pose proof (adjust_member s (List.filter (viableb s now need spot) (configs s))
                (best0, p0, false)) as Hm.
  destruct (fold_left (MinAvailable_adjust s) _ _) as [[best bestPrice] found].
  simpl in *.
  assert (Hin : ∀ c, c ∈ List.filter (viableb s now need spot) (configs s) →
                     c ∈ configs s ∧ viable s now need spot c).
  { intros c [Hc Hv]%list_elem_of_In%filter_In.
    split; [now apply list_elem_of_In | now apply viableb_spec]. }
  destruct Hm as [-> | Hm]; [|right; now apply Hin].
  destruct Hb as [_ [[-> _] | [Hb _]]]; [now left | right; now apply Hin].
Qed.

(** C4.  The config [MinAvailable] returns is not strictly worse than a
    viable config of the catalog: no viable config has both a strictly lower
    price in the region and a strictly higher EBS throughput. *)
Theorem MinAvailable_not_strictly_worse s now need spot best c :
  MinAvailable s now need spot = (best, true) →
  c ∈ configs s → viable s now need spot c →
  ¬ ((priceIn s c <? priceIn s best)%float = true
     ∧ (EBSThroughput best <? EBSThroughput c)%float = true).
Proof.
  intros H Hc Hv [Hlt Hebs]. unfold MinAvailable in H.
  pose proof (pick_viable s now need spot (configs s) zeroConfig MaxFloat64 [])
    as Hvl.
  pose proof (pick_best s now need spot (configs s)) as Hb.
  destruct (fold_left (MinAvailable_pick _ _ _ _) _ _) as [[best0 p0] vl].
  simpl in Hvl.
  assert (Hcv : c ∈ vl).
  { rewrite Hvl. apply list_elem_of_In, filter_In.
    split; [now apply list_elem_of_In | now apply viableb_spec]. }
  assert (Ha : adjusted s best0 p0 ([] ++ vl)
                 (fold_left (MinAvailable_adjust s) vl (best0, p0, false))).
  { apply adjust_fold. repeat split. intros c' Hc'. inversion Hc'. }
  destruct (fold_left (MinAvailable_adjust s) _ _) as [[b bestPrice] found].
  inversion H; subst b. clear H.
  destruct found; simpl in Ha.
  - destruct Ha as (Hp & _ & Hall). apply (Hall c Hcv).
    split; [now rewrite <- Hp | now apply ltb_leb].
  - destruct Ha as (-> & -> & _).
    destruct Hb as [Hall [[-> ->] | [_ Hp]]].
    + specialize (Hall c Hcv).
      assert (Hmax : (priceIn s c <? MaxFloat64)%float = true).
      { apply ltb_trans with (priceIn s zeroConfig); [exact Hlt|reflexivity]. }
      congruence.
    + specialize (Hall c Hcv). rewrite Hp in Hlt. congruence.
Qed.

(** [A] is cheaper than [B] but [MinAvailable] returns [B]: it is not
    strictly worse, its throughput is higher. *)
Lemma MinAvailable_not_strictly_worse_witness :
  ¬ ((priceIn (catalog [A; B]) A <? priceIn (catalog [A; B]) B)%float = true
     ∧ (EBSThroughput B <? EBSThroughput A)%float = true).
Proof.
  apply (MinAvailable_not_strictly_worse (catalog [A; B]) 0 need false B A).
  - vm_compute. reflexivity.
  - left.
  - apply viableb_spec. vm_compute. reflexivity.
Defined.

(** *** The unavailable map *)

Lemma Sub_le (t u : Z) : (0 ≤ t - u → Time.Sub t u ≤ t - u)%Z.
Proof.
  intros H. unfold Time.Sub, Time.maxDuration, Time.minDuration.
  destruct (Z.ltb_spec (2 ^ 63 - 1) (t - u)); [lia|].
  destruct (Z.ltb_spec (t - u) (- 2 ^ 63)); lia.
Qed.

Lemma asleep_marked s now typ T :
  unavailable s !! typ = Some T → (T ≤ now < T + sleepTime s)%Z →
  asleep s now typ = true.
Proof.
  intros Hu Ht. unfold asleep, unavailableSince, Time.Since. rewrite Hu. simpl.
  apply Z.ltb_lt. pose proof (Sub_le now T). lia.
Qed.

(** Later calls of [Unavailable] leave the catalog and the sleep time as they
    were, and the mark of a type marked at [T] is not older than [T]. *)
Lemma Unavailable_all_marked s calls typ T now :
  Forall (λ call : instanceConfig * Z, (T ≤ call.2 ≤ now)%Z) calls →
  (∃ T', unavailable s !! typ = Some T' ∧ (T ≤ T' ≤ now)%Z) →
  configs (Unavailable_all s calls) = configs s
  ∧ sleepTime (Unavailable_all s calls) = sleepTime s
  ∧ ∃ T', unavailable (Unavailable_all s calls) !! typ = Some T'
          ∧ (T ≤ T' ≤ now)%Z.
Proof.
  revert s. induction calls as [|[c t] calls IH]; intros s Hall Hs; simpl.
  { auto. }
  inversion Hall as [|? ? Ht Hrest]; subst. simpl in Ht.
  destruct (IH (Unavailable s c t) Hrest) as (Hc & Hsl & HT).
  { destruct Hs as (T' & HT' & Hle). simpl.
    destruct (decide (Type_ c = typ)) as [->|Hne].
    - exists t. now rewrite lookup_insert_eq.
    - exists T'. now rewrite lookup_insert_ne. }
  auto.
Qed.

Lemma Type_find_false typ cs :
  (Type_find typ cs).2 = false → Type_find typ cs = (zeroConfig, false).
Proof.
  induction cs as [|c cs IH]; simpl; [reflexivity|].
  destruct (String.eqb _ _); [discriminate | exact IH].
Qed.



(** *** The scenarios of the spec *)

(** Scenario 1: [B] costs $0.02 more and offers twice the throughput. *)
Example MinAvailable_scenario_1 :
  MinAvailable (catalog [A; B]) 0 need false = (B, true).
Proof. vm_compute. reflexivity. Qed.

(** Scenario 2: with [B] marked unavailable, [A] within the sleep time and
    [B] again after it. *)
Example MinAvailable_scenario_2 :
  let s := Unavailable (catalog [A; B]) B 0 in
  MinAvailable s Time.Minute need false = (A, true)
  ∧ MinAvailable s (5 * Time.Minute) need false = (B, true).
Proof. split; vm_compute; reflexivity. Qed.

(** Scenario 3: with [B] not on the spot market, a spot query returns [A]. *)
Example MinAvailable_scenario_3 :
  MinAvailable (catalog [A; mk "B" 0.22 200 false]) 0 need true = (A, true).
Proof. vm_compute. reflexivity. Qed.

(** C3, at the inputs where it fails.  [B150] offers 50% more EBS throughput
    than [A] (at least 50% more, then) for $0.02 more, and [B13] twice the
    throughput of [A10] for $0.03 more (at most $0.03, then): the claim has
    [MinAvailable] upgrade in both catalogs, and it returns the cheaper
    config in both, its comparisons being strict. *)
Theorem MinAvailable_at_the_thresholds :
  ((EBSThroughput A * benefitFactor <=? EBSThroughput B150)%float = true
   ∧ (priceIn (catalog [A; B150]) B150
        <=? priceIn (catalog [A; B150]) A + ebsThroughputPremiumCost)%float = true
   ∧ MinAvailable (catalog [A; B150]) 0 need false = (A, true))
  ∧ ((EBSThroughput A10 * benefitFactor <=? EBSThroughput B13)%float = true
     ∧ (priceIn (catalog [A10; B13]) B13
          <=? priceIn (catalog [A10; B13]) A10 + ebsThroughputPremiumCost)%float = true
     ∧ MinAvailable (catalog [A10; B13]) 0 need false = (A10, true)).
Proof. repeat split; vm_compute; reflexivity. Qed.

End SelectorFacts.

(** ** The launch state machine *)

Module LaunchFacts.
Import Errors Instance Launch LaunchProps.

Ltac break_match_in H :=
  match type of H with
  | context [match ?x with _ => _ end] => destruct x eqn:?
  end.

Section Go.

Context {digest_Digest : Type} `{EqDecision digest_Digest}.
Variable digest_Parse : string → digest_Digest + error.
Variable imageDigest : digest_Digest * option error.

Local Abbreviation verified := (LaunchProps.verified digest_Parse imageDigest).

Lemma switch_Falls a v v1 :
  switch digest_Parse imageDigest a v = Falls v1 →
  trace v1 = trace v ∧ n v1 = n v ∧ d v1 = d v
  ∧ ((state v1 = state v
      ∧ (state v = stateUpdateImage → ∃ t, err (i v1) = Some (E Fatal t)))
     ∨ (state v = stateDescribeTags ∧ state v1 = stateDone
        ∧ err (i v1) = None ∧ verified v1)).
Proof.
  intros Hs. unfold switch in Hs.
  repeat break_match_in Hs; try discriminate; injection Hs as <-; simpl;
    repeat split;
    try (left; split;
         [assumption || reflexivity
         | intros; first [congruence | eexists; reflexivity]]).
  right. repeat split.
  match goal with
  | Hv : String.eqb _ "" || String.eqb _ "" = false,
    Hp : digest_Parse _ = inl ?r, Hd : bool_decide (?r = _) = true,
    Hi : imageDigest = _ |- _ =>
      apply orb_false_elim in Hv as [Hv _]; apply String.eqb_neq in Hv;
      apply bool_decide_eq_true in Hd; unfold LaunchProps.verified;
      try rewrite Hi; cbn [fst]; subst r
  end.
  eexists. split; [reflexivity|]. split; assumption.
Qed.

Lemma switch_Continues a v v1 :
  switch digest_Parse imageDigest a v = Continues v1 →
  trace v1 = trace v ∧ n v1 = n v ∧ d v1 = d v
  ∧ state v = stateUpdateImage ∧ state v1 = stateWaitReflowlet.
Proof.
  intros Hs. unfold switch in Hs.
  repeat break_match_in Hs; try discriminate; injection Hs as <-; simpl;
    repeat split; assumption.
Qed.

(** *** Success *)

Lemma verified_finish a v : verified v → verified (finish a v).
Proof.
  unfold finish. destruct (err (i v)); [trivial|].
  unfold LaunchProps.verified, Instance. simpl. trivial.
Qed.

(** [Go] returns from inside the loop, or leaves it by [break], only with an
    error. *)
Lemma body_failed a v v' :
  body digest_Parse imageDigest a v = Break v'
  ∨ body digest_Parse imageDigest a v = Return v' →
  err (i v') ≠ None.
Proof.
  unfold body. destruct (switch _ _ _ _) as [v1| |]; [|intros [|]; discriminate..].
  unfold retry. destruct (err (i v1)) as [e|] eqn:He;
    [|intros [|]; discriminate].
  destruct (n v1 =? maxTries)%nat.
  { intros [[= <-]|]; [congruence | discriminate]. }
  destruct (Is Fatal _); [intros [|[= <-]]; [discriminate | simpl; congruence]|].
  destruct (Is Unavailable _);
    intros [|[= <-]]; try discriminate; simpl; congruence.
Qed.

(** An iteration leaves the loop in a state before [stateDone], or with the
    instance verified. *)
Lemma body_verified a v v' :
  (state v < stateDone)%nat →
  body digest_Parse imageDigest a v = Next v' →
  (state v' < stateDone)%nat ∨ verified v'.
Proof.
  intros Hlt. unfold body.
  destruct (switch _ _ _ _) as [v1|v1|] eqn:Hs; [| |discriminate].
  - apply switch_Falls in Hs as (_ & _ & _ & Hcase). simpl in Hcase.
    unfold retry. destruct (err (i v1)) as [e|] eqn:He.
    + destruct (n v1 =? maxTries)%nat; [discriminate|].
      destruct (Is Fatal _); [discriminate|].
      destruct (Is Unavailable _); [discriminate|].
      intros [= <-]. simpl.
      destruct Hcase as [[-> _] | (_ & _ & Hnone & _)]; [now left | congruence].
    + intros [= <-]. simpl.
      destruct Hcase as [[Hst H7] | (_ & _ & _ & Hv)].
      * left. assert (state v ≠ 7%nat)
          by (intros E; destruct (H7 E) as [t Ht]; congruence).
        lia.
      * right. exact Hv.
  - apply switch_Continues in Hs as (_ & _ & _ & _ & Hst).
    intros [= <-]. left. lia.
Qed.

Lemma loop_verified world v v' :
  (state v < stateDone)%nat ∨ verified v →
  loop digest_Parse imageDigest world v = Some (Returned v') →
  err (i v') = None →
  verified v'.
Proof.
  revert v. induction world as [|a world IH]; intros v Hinv; simpl;
    [discriminate|].
  destruct ((state v <? stateDone)%nat && bool_decide (ctxErr a = None))
    eqn:Econd.
  - apply andb_true_iff in Econd as [Hlt%Nat.ltb_lt _].
    destruct (body _ _ a v) as [v1|v1|v1|] eqn:Hb.
    + apply IH. now apply body_verified with a v.
    + intros [= <-] Herr. exfalso.
      apply (body_failed a v v1); [now left|].
      unfold finish in Herr.
      destruct (err (i v1)) eqn:E; [congruence | reflexivity].
    + intros [= <-] Herr. exfalso. now apply (body_failed a v v1); [right|].
    + discriminate.
  - intros [= <-] Herr.
    apply verified_finish.
    destruct Hinv as [Hlt | Hv]; [|exact Hv]. exfalso.
    apply Nat.ltb_lt in Hlt. rewrite Hlt in Econd. simpl in Econd.
    apply bool_decide_eq_false in Econd.
    unfold finish in Herr. destruct (err (i v)) eqn:E; [congruence|].
    simpl in Herr. destruct (ctxErr a); [discriminate | now apply Econd].
Qed.

(** *** Retries *)

Lemma backoff_S st k :
  backoff st (S k)
  = backoff st k ++ [Attempt st; Sleep (5 * Time.Second * 2 ^ Z.of_nat k)].
Proof.
  unfold backoff. rewrite seq_S, flat_map_app. reflexivity.
Qed.

Lemma entered_after st st' tr :
  st ≠ st' → entered st (tr ++ [Attempt st']).
Proof.
  intros Hne e. rewrite last_snoc. intros [= <-]. congruence.
Qed.

(** Doubling the delay does not leave the range of a Duration before the
    tries are used up. *)
Lemma doubled k :
  (k < maxTries)%nat →
  Time.int64 (5 * Time.Second * 2 ^ Z.of_nat k * 2)
  = (5 * Time.Second * 2 ^ Z.of_nat (S k))%Z.
Proof.
  unfold maxTries. intros Hk.
  destruct k as [|[|[|[|[|k]]]]]; try reflexivity. lia.
Qed.

(** What the code after the switch does with an error, when tries are
    left. *)
Lemma retry_error v e :
  err (i v) = Some e → n v ≠ maxTries →
  retry v =
    if Is Fatal (reclassify e) || Is Unavailable (reclassify e)
    then Return (fail (reclassify e) v)
    else Next {| i := i (fail (reclassify e) v); state := state v;
                 id := id v; dns := dns v; n := S (n v);
                 d := Time.int64 (d v * 2);
                 trace := trace v ++ [Sleep (d v)] |}.
Proof.
  intros He Hn. unfold retry. rewrite He.
  apply Nat.eqb_neq in Hn. rewrite Hn.
  destruct (Is Fatal _); [reflexivity|].
  destruct (Is Unavailable _); reflexivity.
Qed.

Lemma retry_exhausted v e :
  err (i v) = Some e → n v = maxTries → retry v = Break v.
Proof.
  intros He Hn. unfold retry. rewrite He.
  apply Nat.eqb_eq in Hn. now rewrite Hn.
Qed.

Lemma reclassify_Fatal t : reclassify (E Fatal t) = E Fatal t.
Proof. reflexivity. Qed.

Lemma body_shaped a v v' :
  shaped v → body digest_Parse imageDigest a v = Next v' → shaped v'.
Proof.
  intros (Hn & Hd & H7 & pre & Htr & Hent). unfold body.
  destruct (switch _ _ _ _) as [v1|v1|] eqn:Hs; [| |discriminate].
  - apply switch_Falls in Hs as (Ht & Hn1 & Hd1 & Hcase). simpl in *.
    destruct (err (i v1)) as [e|] eqn:He.
    + destruct Hcase as [[Hst Hfatal] | (_ & _ & Hnone & _)]; [|congruence].
      destruct (decide (n v1 = maxTries)) as [Hmax|Hmax].
      { rewrite (retry_exhausted v1 e He Hmax). discriminate. }
      rewrite (retry_error v1 e He Hmax).
      destruct (Is Fatal (reclassify e) || Is Unavailable (reclassify e))
        eqn:Ek; [discriminate|].
      intros [= <-]. unfold shaped. simpl. rewrite Hn1 in Hmax.
      rewrite Hn1, Hd1, Hst, Ht, Hd.
      split; [lia|]. split; [apply doubled; lia|]. split.
      * intros E7. destruct (Hfatal E7) as [t [= ->]].
        rewrite reclassify_Fatal in Ek. discriminate.
      * exists pre. split; [|exact Hent].
        rewrite backoff_S, Htr, <- !app_assoc. reflexivity.
    + unfold retry. rewrite He. intros [= <-]. unfold shaped. simpl.
      split; [lia|]. split; [reflexivity|]. split; [reflexivity|].
      exists (trace v1). split; [now rewrite app_nil_r|].
      rewrite Ht. apply entered_after.
      destruct Hcase as [[-> _] | (-> & -> & _)]; lia.
  - apply switch_Continues in Hs as (Ht & Hn1 & Hd1 & Hst & Hst1).
    simpl in *. intros [= <-]. unfold shaped.
    rewrite Hn1, Hd1, Hst1, Ht. rewrite (H7 Hst) in *.
    split; [lia|]. split; [exact Hd|].
    split; [discriminate|].
    exists (trace v ++ [Attempt (state v)]). split; [now rewrite app_nil_r|].
    apply entered_after. lia.
Qed.

(** An iteration that ends the run has attempted the state once more and
    left the other variables alone. *)
Lemma body_aborts a v v1 :
  body digest_Parse imageDigest a v = Break v1
  ∨ body digest_Parse imageDigest a v = Return v1 →
  trace v1 = trace v ++ [Attempt (state v)]
  ∧ state v1 = state v ∧ n v1 = n v.
Proof.
  unfold body.
  destruct (switch _ _ _ _) as [v2| |] eqn:Hs; [|intros [|]; discriminate..].
  apply switch_Falls in Hs as (Ht & Hn & _ & Hcase). simpl in *.
  destruct (err (i v2)) as [e|] eqn:He.
  - destruct Hcase as [[Hst _] | (_ & _ & Hnone & _)]; [|congruence].
    destruct (decide (n v2 = maxTries)) as [Hmax|Hmax].
    + rewrite (retry_exhausted v2 e He Hmax).
      intros [[= <-]|]; [auto | discriminate].
    + rewrite (retry_error v2 e He Hmax).
      destruct (_ || _); intros [|[= <-]]; try discriminate. simpl. auto.
  - unfold retry. rewrite He. intros [|]; discriminate.
Qed.

Lemma loop_shaped world v v' :
  shaped v →
  loop digest_Parse imageDigest world v = Some (Returned v') →
  ∃ pre k tail,
    trace v' = pre ++ backoff (state v') k ++ tail
    ∧ (k ≤ maxTries)%nat
    ∧ (tail = [] ∨ tail = [Attempt (state v')])
    ∧ entered (state v') pre.
Proof.
  revert v. induction world as [|a world IH]; intros v Hv; simpl;
    [discriminate|].
  assert (Hfin : ∀ u, trace (finish a u) = trace u
                      ∧ state (finish a u) = state u).
  { intros u. unfold finish. now destruct (err (i u)). }
  destruct (_ && _).
  - destruct (body _ _ a v) as [v1|v1|v1|] eqn:Hb.
    + apply IH. now apply body_shaped with a v.
    + intros [= <-]. destruct (Hfin v1) as [-> ->].
      destruct (body_aborts a v v1 (or_introl Hb)) as (-> & -> & _).
      destruct Hv as (Hn & _ & _ & pre & -> & Hent).
      exists pre, (n v), [Attempt (state v)].
      rewrite <- app_assoc. auto.
    + intros [= <-].
      destruct (body_aborts a v v1 (or_intror Hb)) as (-> & -> & _).
      destruct Hv as (Hn & _ & _ & pre & -> & Hent).
      exists pre, (n v), [Attempt (state v)].
      rewrite <- app_assoc. auto.
    + discriminate.
  - intros [= <-]. destruct (Hfin v) as [-> ->].
    destruct Hv as (Hn & _ & _ & pre & -> & Hent).
    exists pre, (n v), []. rewrite app_nil_r. auto.
Qed.

(** *** The pace of the retries *)

Lemma streak_attempt st s tr :
  streak st (tr ++ [Attempt s])
  = if (s =? st)%nat then S (streak st tr) else 0%nat.
Proof. unfold streak. rewrite rev_unit. reflexivity. Qed.

Lemma streak_sleep st d tr : streak st (tr ++ [Sleep d]) = streak st tr.
Proof. unfold streak. rewrite rev_unit. reflexivity. Qed.

(** The ways to cut a trace that ends with [e]. *)
Lemma snoc_split (tr pre post : list event) e :
  tr ++ [e] = pre ++ post →
  (post = [] ∧ pre = tr ++ [e])
  ∨ ∃ post', post = post' ++ [e] ∧ tr = pre ++ post'.
Proof.
  induction post as [|x post _] using rev_ind.
  - rewrite app_nil_r. intros <-. now left.
  - rewrite app_assoc. intros [-> ->]%app_inj_tail. right. eauto.
Qed.

Lemma paced_nil : paced [].
Proof.
  split.
  - intros pre post st H. symmetry in H. apply app_eq_nil in H as [-> _].
    unfold streak. simpl. lia.
  - intros pre d post H. now destruct pre.
Qed.

Lemma paced_attempt tr st :
  paced tr → (streak st tr ≤ maxTries)%nat → paced (tr ++ [Attempt st]).
Proof.
  intros [H1 H2] Hst. split.
  - intros pre post st' H.
    apply snoc_split in H as [[-> ->] | (post' & -> & ->)].
    + rewrite streak_attempt. destruct (st =? st')%nat eqn:E; [|lia].
      apply Nat.eqb_eq in E as <-. lia.
    + now apply (H1 pre post').
  - intros pre d post H.
    apply snoc_split in H as [[H _] | (post' & H & ->)]; [discriminate|].
    destruct post' as [|x post']; [discriminate|].
    injection H as <- ->. now apply (H2 pre d post').
Qed.

Lemma paced_sleep tr st j :
  paced tr → last tr = Some (Attempt st) → streak st tr = S j →
  (j < maxTries)%nat →
  paced (tr ++ [Sleep (5 * Time.Second * 2 ^ Z.of_nat j)]).
Proof.
  intros [H1 H2] Hlast Hst Hj. split.
  - intros pre post st' H.
    apply snoc_split in H as [[-> ->] | (post' & -> & ->)].
    + rewrite streak_sleep. apply (H1 tr []). now rewrite app_nil_r.
    + now apply (H1 pre post').
  - intros pre d post H.
    apply snoc_split in H as [[H _] | (post' & H & Htr)]; [discriminate|].
    destruct post' as [|x post'].
    + injection H as -> ->. rewrite app_nil_r in Htr. subst pre.
      exists st, j. auto.
    + injection H as <- ->. now apply (H2 pre d post').
Qed.

(** The loop keeps the variables steady. *)
Lemma body_steady a v v' :
  (state v < stateDone)%nat → steady v →
  body digest_Parse imageDigest a v = Next v' → steady v'.
Proof.
  intros Hlt (Hsh & Hp & Hst & _) Hb.
  split; [now apply body_shaped with a v|].
  destruct Hsh as (Hn & Hd & H7 & _). revert Hb. unfold body.
  assert (Hpa : paced (trace v ++ [Attempt (state v)])).
  { apply paced_attempt; [exact Hp | lia]. }
  destruct (switch _ _ _ _) as [v1|v1|] eqn:Hs; [| |discriminate].
  - apply switch_Falls in Hs as (Ht & Hn1 & Hd1 & Hcase). simpl in *.
    destruct (err (i v1)) as [e|] eqn:He.
    + destruct Hcase as [[Hst1 _] | (_ & _ & Hnone & _)]; [|congruence].
      destruct (decide (n v1 = maxTries)) as [Hmax|Hmax].
      { rewrite (retry_exhausted v1 e He Hmax). discriminate. }
      rewrite (retry_error v1 e He Hmax).
      destruct (Is Fatal (reclassify e) || Is Unavailable (reclassify e));
        [discriminate|].
      intros [= <-]. simpl. rewrite Ht, Hn1, Hd1, Hst1, Hd.
      split; [|split].
      * apply paced_sleep with (state v); [exact Hpa | apply last_snoc | |lia].
        rewrite streak_attempt, Nat.eqb_refl. now rewrite Hst.
      * rewrite streak_sleep, streak_attempt, Nat.eqb_refl. now rewrite Hst.
      * lia.
    + unfold retry. rewrite He. intros [= <-]. simpl. rewrite Ht.
      split; [exact Hpa|]. split; [|intros _; exact He].
      rewrite streak_attempt.
      destruct (state v =? S (state v1))%nat eqn:E; [|reflexivity].
      apply Nat.eqb_eq in E.
      destruct Hcase as [[Hst1 _] | (Hst0 & Hst1 & _)]; lia.
  - apply switch_Continues in Hs as (Ht & Hn1 & _ & Hst0 & Hst1).
    simpl in *. intros [= <-]. rewrite Ht, Hn1, Hst1.
    split; [exact Hpa|]. split; [|lia].
    rewrite streak_attempt, Hst0. simpl. now rewrite (H7 Hst0).
Qed.

(** [Go] returns from inside the loop with an error that is Fatal or
    Unavailable, and leaves the loop by [break] when the tries are used
    up. *)
Lemma body_Return a v v1 :
  body digest_Parse imageDigest a v = Return v1 →
  ∃ e, err (i v1) = Some e ∧ Is Fatal e || Is Unavailable e = true.
Proof.
  unfold body. destruct (switch _ _ _ _) as [v2| |]; [|discriminate..].
  unfold retry. destruct (err (i v2)) as [e|]; [|discriminate].
  destruct (n v2 =? maxTries)%nat; [discriminate|].
  destruct (Is Fatal (reclassify e)) eqn:Ef.
  { intros [= <-]. exists (reclassify e). simpl. now rewrite Ef. }
  destruct (Is Unavailable (reclassify e)) eqn:Eu; [|discriminate].
  intros [= <-]. exists (reclassify e). simpl. now rewrite Ef, Eu.
Qed.

Lemma body_Break a v v1 :
  body digest_Parse imageDigest a v = Break v1 → n v1 = maxTries.
Proof.
  unfold body. destruct (switch _ _ _ _) as [v2| |]; [|discriminate..].
  unfold retry. destruct (err (i v2)) as [e|]; [|discriminate].
  destruct (n v2 =? maxTries)%nat eqn:E.
  - intros [= <-]. now apply Nat.eqb_eq.
  - destruct (Is Fatal _); [discriminate|].
    destruct (Is Unavailable _); discriminate.
Qed.

Lemma loop_steady world v v' :
  steady v →
  loop digest_Parse imageDigest world v = Some (Returned v') →
  paced (trace v')
  ∧ (live world →
     ∀ e, err (i v') = Some e → Is Fatal e = false →
          Is Unavailable e = false →
          ∃ pre, trace v' = pre ++ backoff (state v') maxTries
                              ++ [Attempt (state v')]).
Proof.
  revert v. induction world as [|a world IH]; intros v Hv; simpl;
    [discriminate|].
  assert (Hfin : ∀ u, trace (finish a u) = trace u
                      ∧ state (finish a u) = state u).
  { intros u. unfold finish. now destruct (err (i u)). }
  destruct ((state v <? stateDone)%nat && bool_decide (ctxErr a = None))
    eqn:Econd.
  - apply andb_true_iff in Econd as [Hlt%Nat.ltb_lt _].
    pose proof Hv as ((Hn & _ & _ & pre & Htr & _) & Hp & Hst & _).
    assert (Hpa : paced (trace v ++ [Attempt (state v)])).
    { apply paced_attempt; [exact Hp | lia]. }
    destruct (body _ _ a v) as [v1|v1|v1|] eqn:Hb.
    + intros Hl. destruct (IH v1) as [H1 H2];
        [now apply body_steady with a v | exact Hl |].
      split; [exact H1|]. intros Hlive. apply H2. now inversion Hlive.
    + intros [= <-]. destruct (Hfin v1) as [-> ->].
      destruct (body_aborts a v v1 (or_introl Hb)) as (-> & -> & Hn1).
      split; [exact Hpa|]. intros _ e _ _ _.
      apply body_Break in Hb. exists pre.
      rewrite Htr, <- app_assoc, <- Hn1, Hb. reflexivity.
    + intros [= <-].
      destruct (body_aborts a v v1 (or_intror Hb)) as (-> & -> & _).
      split; [exact Hpa|]. intros _ e He Hf Hu. exfalso.
      apply body_Return in Hb as (e' & He' & Hk).
      rewrite He' in He. injection He as ->. rewrite Hf, Hu in Hk.
      discriminate.
    + discriminate.
  - intros [= <-]. destruct (Hfin v) as [-> _].
    destruct Hv as (_ & Hp & _ & Hdone).
    split; [exact Hp|]. intros Hlive e He _ _. exfalso.
    inversion Hlive as [|? ? [Hc Hlate] _]; subst.
    rewrite Hc in Econd. rewrite bool_decide_true, andb_true_r in Econd
      by reflexivity.
    apply Nat.ltb_ge in Econd. unfold finish in He.
    rewrite (Hdone Econd) in He. simpl in He.
    rewrite Hc, Hlate in He. discriminate.
Qed.

(** C6, amended.  At an attempt of a state that the switch leaves with an
    error [e]: when [maxTries] retries were made already, [Go] returns with
    [e], the last error; otherwise an error that is Fatal or Unavailable
    once the capacity codes are reclassified makes [Go] return at once with
    it; and any other error makes it sleep [d], double [d] and attempt the
    same state again.  The capacity codes are reclassified to Unavailable.
    And whenever [Go] returns: at no point of the run was a state attempted
    more than [maxTries + 1] times in a row; every sleep comes right after
    an attempt, at most the [maxTries]-th in a row, and lasts 5 seconds
    doubled once for every attempt of the row before that one; and, when
    the context was not done, an error that is neither Fatal nor
    Unavailable is returned only after [maxTries] attempts of the state,
    each followed by its sleep, and one more attempt: the sixth, not the
    fifth. *)
Theorem Go_retry_policy :
  (∀ a world v v1 e,
     (state v < stateDone)%nat → ctxErr a = None →
     switch digest_Parse imageDigest a (log (Attempt (state v)) v) = Falls v1 →
     err (i v1) = Some e →
     state v1 = state v ∧ n v1 = n v ∧ d v1 = d v
     ∧ trace v1 = trace v ++ [Attempt (state v)]
     ∧ loop digest_Parse imageDigest (a :: world) v =
         if (n v =? maxTries)%nat then Some (Returned v1)
         else if Is Fatal (reclassify e) || Is Unavailable (reclassify e)
         then Some (Returned (fail (reclassify e) v1))
         else loop digest_Parse imageDigest world
                {| i := i (fail (reclassify e) v1); state := state v;
                   id := id v1; dns := dns v1; n := S (n v);
                   d := Time.int64 (d v * 2);
                   trace := trace v ++ [Attempt (state v); Sleep (d v)] |})
  ∧ (∀ e code, awsCode e = Some code → code ∈ capacityCodes →
               Is Unavailable (reclassify e) = true)
  ∧ (∀ world inst v,
       Go digest_Parse imageDigest world inst = Some (Returned v) →
       (∀ pre post st,
          trace v = pre ++ post → (streak st pre ≤ maxTries + 1)%nat)
       ∧ (∀ pre d post,
            trace v = pre ++ Sleep d :: post →
            ∃ st j, last pre = Some (Attempt st)
                    ∧ streak st pre = S j ∧ (j < maxTries)%nat
                    ∧ d = (5 * Time.Second * 2 ^ Z.of_nat j)%Z)
       ∧ (live world →
          ∀ e, Err (i v) = Some e → Is Fatal e = false →
               Is Unavailable e = false →
               ∃ pre, trace v = pre ++ backoff (state v) maxTries
                                  ++ [Attempt (state v)])).
Proof.
  split; [|split].
  - intros a world v v1 e Hlt Hctx Hs He.
    pose proof (switch_Falls _ _ _ Hs) as (Ht & Hn & Hd & Hcase).
    simpl in Ht, Hn, Hd, Hcase.
    assert (Hst : state v1 = state v).
    { destruct Hcase as [[H _] | (_ & _ & Hnone & _)]; [exact H | congruence]. }
    split; [exact Hst|]. split; [exact Hn|]. split; [exact Hd|].
    split; [exact Ht|].
    cbn [loop]. apply Nat.ltb_lt in Hlt. rewrite Hlt, Hctx.
    rewrite bool_decide_true by reflexivity. cbn [andb].
    unfold body. rewrite Hs. rewrite <- Hn.
    destruct (n v1 =? maxTries)%nat eqn:E.
    + apply Nat.eqb_eq in E. rewrite (retry_exhausted v1 e He E).
      unfold finish. now rewrite He.
    + apply Nat.eqb_neq in E. rewrite (retry_error v1 e He E).
      destruct (Is Fatal (reclassify e) || Is Unavailable (reclassify e));
        [reflexivity|].
      rewrite Hst, Hd, Ht, <- app_assoc. reflexivity.
  - intros e code Hc Hin. unfold reclassify. rewrite Hc.
    now rewrite bool_decide_true.
  - intros world inst v Hgo. unfold Go in Hgo.
    apply loop_steady in Hgo as [[H1 H2] H3].
    + split; [exact H1|]. split; [exact H2 | exact H3].
    + split; [|split; [exact paced_nil|split; [reflexivity|]]].
      * unfold shaped. simpl. repeat split; try lia.
        exists []. split; [reflexivity|]. intros e. discriminate.
      * simpl. lia.
Qed.

(** C1.  When [Go] returns with [Err() == nil], [Instance()] has a Version
    that is not empty and a Digest that parses to the digest of the
    controller's embedded image. *)
Theorem Go_success world inst v :
  Go digest_Parse imageDigest world inst = Some (Returned v) →
  Err (i v) = None →
  ∃ ri, Instance (i v) = Some ri
        ∧ Version ri ≠ ""
        ∧ digest_Parse (Digest ri) = inl imageDigest.1.
Proof.
  unfold Go, Err. intros Hgo Herr.
  eapply loop_verified; [|exact Hgo|exact Herr]. left. simpl. lia.
Qed.

End Go.

(** A launch that succeeds, and the one of scenario 6, end with the digest of
    the controller's image. *)
Lemma Go_success_witness :
  ∃ v, Go LaunchExamples.Parse LaunchExamples.local LaunchExamples.selfUpdate
          LaunchExamples.onDemand = Some (Returned v)
       ∧ ∃ ri, Instance (i v) = Some ri
               ∧ Version ri ≠ ""
               ∧ LaunchExamples.Parse (Digest ri)
                 = inl LaunchExamples.local.1.
Proof.
  eexists. split; [vm_compute; reflexivity|].
  apply (Go_success LaunchExamples.Parse LaunchExamples.local
           LaunchExamples.selfUpdate LaunchExamples.onDemand).
  - vm_compute. reflexivity.
  - reflexivity.
Defined.

(** A launch that is throttled every time ends after six attempts of
    [stateLaunch] and five sleeps, of 5, 10, 20, 40 and 80 seconds. *)
Lemma Go_retry_policy_witness :
  ∃ v, Go LaunchExamples.Parse LaunchExamples.local LaunchExamples.throttled
          LaunchExamples.onDemand = Some (Returned v)
       ∧ (∀ pre post st,
            trace v = pre ++ post → (streak st pre ≤ maxTries + 1)%nat)
       ∧ ∃ pre, trace v = pre ++ backoff (state v) maxTries
                            ++ [Attempt (state v)].
Proof.
  eexists. split; [vm_compute; reflexivity|].
  edestruct (proj2 (proj2 (Go_retry_policy LaunchExamples.Parse
                             LaunchExamples.local))
               LaunchExamples.throttled LaunchExamples.onDemand)
    as (H1 & _ & H3); [vm_compute; reflexivity|].
  split; [exact H1|].
  apply (H3 ltac:(repeat constructor) (E Temporary "throttled"));
    reflexivity.
Defined.

(** C6 as stated fails: throttled every time, [stateLaunch] is attempted six
    times in a row, and [maxTries] is five. *)
Lemma attempted_six_times : ¬ attempted_at_most_maxTries.
Proof.
  intros H.
  assert (Hgo : ∃ v,
    Go LaunchExamples.Parse LaunchExamples.local LaunchExamples.throttled
       LaunchExamples.onDemand = Some (Returned v)
    ∧ state v = stateLaunch
    ∧ trace v = [Attempt stateCapacity] ++ backoff stateLaunch 5
                ++ [Attempt stateLaunch]).
  { eexists. split; [vm_compute; reflexivity|]. split; reflexivity. }
  destruct Hgo as (v & Hgo & Hst & Htr).
  specialize (H _ _ _ _ _ Hgo [Attempt stateCapacity] 5%nat
                [Attempt (state v)]).
  rewrite Hst in H. specialize (H Htr (or_intror eq_refl)).
  simpl in H. unfold maxTries in H. lia.
Qed.

End LaunchFacts.

(** ** The spot request *)

Module SpotFacts.
Import Errors Instance Spot SpotProps.

Lemma forallb_eqb (x : string) (cs : list string) :
  Forall (λ c, c = x) cs → forallb (String.eqb x) cs = true.
Proof.
  induction 1 as [|c cs -> _ IH]; simpl; [reflexivity|].
  now rewrite String.eqb_refl.
Qed.

Lemma existsb_eqb (x : string) (cs : list string) :
  x ∈ cs → existsb (String.eqb x) cs = true.
Proof.
  induction 1 as [c cs | c c' cs _ IH]; simpl.
  - now rewrite String.eqb_refl.
  - rewrite IH. apply orb_true_r.
Qed.

Lemma forallb_other (x c : string) (cs : list string) :
  c ∈ cs → c ≠ x → forallb (String.eqb x) cs = false.
Proof.
  intros Hin Hne. induction Hin as [c cs | c c' cs _ IH]; simpl.
  - apply not_eq_sym, String.eqb_neq in Hne. now rewrite Hne.
  - rewrite IH by exact Hne. apply andb_false_r.
Qed.

Lemma accept_fulfilled cs :
  fulfilled cs → accept Acceptors cs = Some SuccessWaiterState.
Proof.
  intros [Hne [Hall|Hall]]; destruct cs as [|c cs]; try congruence;
    unfold Acceptors, accept, matches; cbn [Matcher Expected State].
  - now rewrite (forallb_eqb _ _ Hall).
  - rewrite (forallb_eqb _ _ Hall).
    destruct (forallb _ _); reflexivity.
Qed.

Lemma accept_terminal cs c :
  c ∈ cs → c ∈ terminalCodes → accept Acceptors cs = Some FailureWaiterState.
Proof.
  intros Hin Hc.
  assert (H1 : forallb (String.eqb "fulfilled") cs = false).
  { apply forallb_other with c; [exact Hin|]. intros ->.
    unfold terminalCodes in Hc.
    repeat (apply elem_of_cons in Hc as [Hc|Hc]; [discriminate|]).
    inversion Hc. }
  assert (H2 : forallb
    (String.eqb "request-canceled-and-instance-running") cs = false).
  { apply forallb_other with c; [exact Hin|]. intros ->.
    unfold terminalCodes in Hc.
    repeat (apply elem_of_cons in Hc as [Hc|Hc]; [discriminate|]).
    inversion Hc. }
  assert (Hex : existsb (String.eqb c) cs = true) by now apply existsb_eqb.
  destruct cs as [|c0 cs]; [inversion Hin|].
  unfold Acceptors, accept, matches; cbn [Matcher Expected State].
  rewrite H1, H2.
  unfold terminalCodes in Hc.
  repeat (apply elem_of_cons in Hc as [-> | Hc];
          [rewrite Hex;
           repeat match goal with
                  | |- context [if ?b then _ else _] => destruct b
                  end; reflexivity|]).
  inversion Hc.
Qed.

(** Attempts that decide nothing are passed over. *)
Lemma WaitWithContext_quiet polls k more attempt :
  (∀ j, (j < k)%nat → quiet (polls (attempt + j)%nat)) →
  WaitWithContext (k + more) attempt polls
  = WaitWithContext more (attempt + k) polls.
Proof.
  revert attempt. induction k as [|k IH]; intros attempt Hq.
  { now rewrite Nat.add_0_r. }
  destruct (Hq 0%nat ltac:(lia)) as [Ha Hc]. rewrite Nat.add_0_r in Ha, Hc.
  cbn [WaitWithContext Nat.add]. rewrite Ha, Hc.
  rewrite IH.
  - f_equal. lia.
  - intros j Hj. replace (S attempt + j)%nat with (attempt + S j)%nat by lia.
    apply Hq. lia.
Qed.

Lemma WaitWithContext_accept more attempt polls st :
  accept Acceptors (codes (polls attempt)) = Some st →
  WaitWithContext more attempt polls =
    match st with
    | SuccessWaiterState => None
    | FailureWaiterState =>
        Some (awserr "ResourceNotReady"
                     "failed waiting for successful resource state")
    end.
Proof.
  intros H. destruct more; cbn [WaitWithContext]; rewrite H; reflexivity.
Qed.

Lemma WaitWithContext_done more attempt polls :
  accept Acceptors (codes (polls attempt)) = None →
  ctxDone (polls attempt) = true →
  is_Some (WaitWithContext more attempt polls).
Proof.
  intros Ha Hc. destruct more; cbn [WaitWithContext]; rewrite Ha, ?Hc; eauto.
Qed.

Lemma wait_quiet polls k :
  (k < MaxAttempts)%nat →
  (∀ j, (j < k)%nat → quiet (polls (1 + j)%nat)) →
  ec2WaitForSpotFulfillment polls
  = WaitWithContext (MaxAttempts - 1 - k) (1 + k) polls.
Proof.
  intros Hk Hq. unfold ec2WaitForSpotFulfillment.
  replace (MaxAttempts - 1)%nat with (k + (MaxAttempts - 1 - k))%nat at 1
    by lia.
  now apply WaitWithContext_quiet.
Qed.

(** An error of the wait comes back from [ec2RunSpotInstance] as an error of
    kind Unavailable. *)
Lemma ec2RunSpotInstance_unavailable i now ec2 request :
  RequestSpotInstances ec2 = inl [Some request] → request ≠ "" →
  is_Some (ec2WaitForSpotFulfillment (polls ec2)) →
  ∃ e, (ec2RunSpotInstance i now ec2).2 = ("", Some e)
       ∧ Is Unavailable e = true.
Proof.
  intros Hr Hne [err Hw]. unfold ec2RunSpotInstance. rewrite Hr. simpl.
  apply String.eqb_neq in Hne. rewrite Hne, Hw. simpl. eauto.
Qed.

(** C7, amended.  A spot launch first sends RequestSpotInstances with
    ValidUntil one minute after now and, as bid, the configured price printed
    with three decimals.  In the wait, at the first attempt that is not
    passed over, status codes that are all [fulfilled] or all
    [request-canceled-and-instance-running] end it with success; one of the
    four terminal codes ends it with an error, and so does a context that is
    done before anything is decided.  An error of the wait makes
    [ec2RunSpotInstance], and [launch] with it, return an error of kind
    Unavailable. *)
Theorem spot_launch i now ec2 :
  (∃ params rest,
     (ec2RunSpotInstance i now ec2).1 = CallRequestSpotInstances params :: rest
     ∧ SpotPrice params = Sprintf_3f (Price i)
     ∧ ValidUntil params = (now + Time.Minute)%Z)
  ∧ (∀ k, (k < MaxAttempts)%nat →
       (∀ j, (j < k)%nat → quiet (polls ec2 (1 + j)%nat)) →
       let p := polls ec2 (1 + k)%nat in
       (fulfilled (codes p) → ec2WaitForSpotFulfillment (polls ec2) = None)
       ∧ ((∃ c, c ∈ codes p ∧ c ∈ terminalCodes) →
          is_Some (ec2WaitForSpotFulfillment (polls ec2)))
       ∧ (accept Acceptors (codes p) = None → ctxDone p = true →
          is_Some (ec2WaitForSpotFulfillment (polls ec2))))
  ∧ (∀ request,
       RequestSpotInstances ec2 = inl [Some request] → request ≠ "" →
       is_Some (ec2WaitForSpotFulfillment (polls ec2)) →
       (∃ e, (ec2RunSpotInstance i now ec2).2 = ("", Some e)
             ∧ Is Unavailable e = true)
       ∧ ∀ a b, Launch.cloudConfig a = inl b → Launch.spot a = ec2 →
                Spot i = true →
                ∃ e, (Launch.launch i now a).2 = ("", Some e)
                     ∧ Is Unavailable e = true).
Proof.
  split; [|split].
  - exists (spotParams i now). unfold ec2RunSpotInstance.
    repeat match goal with
           | |- context [match ?x with _ => _ end] => destruct x
           end; eexists; repeat split.
  - intros k Hk Hq p. rewrite (wait_quiet _ k Hk Hq). repeat split.
    + intros Hf. now rewrite (WaitWithContext_accept _ _ _ _
                                (accept_fulfilled _ Hf)).
    + intros (c & Hc & Ht).
      rewrite (WaitWithContext_accept _ _ _ _ (accept_terminal _ _ Hc Ht)).
      eauto.
    + now apply WaitWithContext_done.
  - intros request Hr Hne Hw. split.
    + now apply ec2RunSpotInstance_unavailable with request.
    + intros a b Ha <- Hs. unfold Launch.launch. rewrite Ha.
      change (Spot (set_userData b i)) with (Spot i). rewrite Hs.
      now apply ec2RunSpotInstance_unavailable with request.
Qed.

(** A request that is still pending when the context is done: the launch
    returns an error of kind Unavailable. *)
Lemma spot_launch_witness :
  ∃ e, (ec2RunSpotInstance (LaunchExamples.spotAt 0.2) 0
          LaunchExamples.pending).2 = ("", Some e)
       ∧ Is Unavailable e = true.
Proof.
  apply (proj1 (proj2 (proj2 (spot_launch (LaunchExamples.spotAt 0.2) 0
                                 LaunchExamples.pending)) "sir-1"
                  eq_refl ltac:(discriminate)
                  ltac:(vm_compute; eauto))).
Defined.

(** C7's first part as stated fails: the prices $0.0416 and $0.042 give the
    same bid, 0.042. *)
Lemma bid_is_rounded : ¬ bid_is_price.
Proof.
  intros [denote H].
  pose proof (H (LaunchExamples.spotAt 0.0416) 0%Z) as H1.
  pose proof (H (LaunchExamples.spotAt 0.042) 0%Z) as H2.
  vm_compute in H1, H2. rewrite H1 in H2.
  apply (f_equal (λ x, (x <? 0.042)%float)) in H2.
  vm_compute in H2. discriminate.
Qed.

End SpotFacts.

(** ** The task store *)

Module TaskDBFacts.
Import Errors DynamoDB TaskDB TaskDBProps.

Lemma date_le (t u : Z) : (t ≤ u → date t ≤ date u)%Z.
Proof.
  intros H. unfold date, Day, Time.Second.
  pose proof (Z.div_le_mono t u (86400 * 1000000000) ltac:(lia) H). lia.
Qed.

Lemma dates_empty (since now : Z) :
  (date now < date since)%Z → dates since now = [].
Proof.
  intros H. unfold dates.
  destruct (Z.to_nat _); simpl; [reflexivity|].
  apply Z.ltb_lt in H. now rewrite H.
Qed.

Lemma dates_loop_elem fuel beg end_ k :
  (0 ≤ k)%Z → (Z.to_nat k < fuel)%nat → (beg + k * Day ≤ end_)%Z →
  (beg + k * Day)%Z ∈ dates_loop fuel beg end_.
Proof.
  revert beg k. induction fuel as [|fuel IH]; intros beg k Hk Hf Hle; [lia|].
  simpl. unfold Day, Time.Second in *.
  destruct (Z.ltb_spec end_ beg); [lia|].
  destruct (decide (k = 0%Z)) as [->|Hne].
  - rewrite Z.add_0_r. left.
  - right.
    replace (beg + k * (86400 * 1000000000))%Z
      with (beg + 86400 * 1000000000 + (k - 1) * (86400 * 1000000000))%Z
      by lia.
    apply IH; lia.
Qed.

(** A day from the one of [since] to the one of [now] is among [dates]. *)
Lemma dates_elem since now t :
  (since / Day ≤ t / Day ≤ now / Day)%Z → date t ∈ dates since now.
Proof.
  unfold dates, date.
  generalize (since / Day)%Z (t / Day)%Z (now / Day)%Z. intros a b c [H1 H2].
  replace (b * Day)%Z with (a * Day + (b - a) * Day)%Z by ring.
  replace ((c * Day - a * Day) / Day)%Z with (c - a)%Z.
  2:{ rewrite <- Z.mul_sub_distr_r, Z.div_mul; [reflexivity | discriminate]. }
  apply dates_loop_elem; unfold Day, Time.Second; lia.
Qed.

Lemma Format_dateLayout_date t : Format_dateLayout (date t) = Format_dateLayout t.
Proof.
  unfold Format_dateLayout, date. now rewrite Z.div_mul by discriminate.
Qed.

(** A query with valid expressions returns the rows it selects. *)
Lemma Query_selects (table : Table) input key cs :
  parseCondition (KeyConditionExpression input) = Some key →
  match FilterExpression input with
  | None => Some []
  | Some e => parseCondition e
  end = Some cs →
  ∃ items,
    DynamoDB.Query table input = inl items
    ∧ ∀ k row, table !! k = Some row →
               selects input (key ++ cs) row = true → row ∈ items.
Proof.
  intros Hk Hf. unfold DynamoDB.Query. rewrite Hk. cbv zeta. rewrite Hf.
  eexists. split; [reflexivity|]. intros k row Hl Hs.
  apply list_elem_of_filter. split; [exact Hs|].
  apply list_elem_of_fmap. exists (k, row).
  split; [reflexivity | now apply elem_of_map_to_list].
Qed.

(** When every query is answered, [QueryEach] has every answer. *)
Lemma QueryEach_all DB queries :
  (∀ input, input ∈ queries → ∃ items, DB input = inl items) →
  ∃ responses,
    QueryEach DB queries = inl responses
    ∧ ∀ input items, input ∈ queries → DB input = inl items →
                     items ∈ responses.
Proof.
  induction queries as [|query queries IH]; intros Hall; simpl.
  { exists []. split; [reflexivity|]. intros input items Hin. inversion Hin. }
  destruct (Hall query) as [items Hq]; [left|]. rewrite Hq.
  destruct IH as (responses & -> & Hin).
  { intros input Hi. apply Hall. now right. }
  exists (items :: responses). split; [reflexivity|].
  intros input items' [->|Hi]%elem_of_cons Hd.
  - rewrite Hq in Hd. injection Hd as <-. left.
  - right. now apply Hin with input.
Qed.

Section Digest.

Context {Digest : Type}.
Variable Digest_String : Digest → string.
Variable HexN : Digest → nat → string.
Variable IsZero : Digest → bool.
Variable IsAbbrev : Digest → bool.

Local Abbreviation row_ok := (TaskDBProps.row_ok Digest_String HexN).
Local Abbreviation row_invariant :=
  (TaskDBProps.row_invariant Digest_String HexN).
Local Abbreviation id4_ok := (TaskDBProps.id4_ok Digest_String HexN).
Local Abbreviation id4_invariant :=
  (TaskDBProps.id4_invariant Digest_String HexN).
Local Abbreviation passes := (TaskDBProps.passes (Digest := Digest)).
Local Abbreviation bucket := (TaskDBProps.bucket (Digest := Digest)).

(** C10.  For a query by time whose Since is in a date bucket after today's,
    [dates] is empty and [buildQueries] returns one query whose key
    condition is the empty string; [Runs] and [Tasks] send it, and the store
    answers it with a ValidationException. *)
Theorem buildQueries_future t (q : Query) now :
  IsZero (ID q) = true → IsZero (RunID q) = true →
  (Time.zeroTime ≤ now)%Z → (date now < date (Since q))%Z →
  dates (Since q) now = []
  ∧ (∀ typ, ∃ input,
       buildQueries Digest_String HexN IsZero IsAbbrev t q typ now
       = Some [input]
       ∧ KeyConditionExpression input = "")
  ∧ (∀ DB, ∃ input,
       KeyConditionExpression input = ""
       ∧ Runs_responses Digest_String HexN IsZero IsAbbrev DB t q now
         = Some (sent DB input))
  ∧ (∀ DB, ∃ input,
       KeyConditionExpression input = ""
       ∧ Tasks_responses Digest_String HexN IsZero IsAbbrev DB t q now
         = Some (sent DB input))
  ∧ (∀ table,
       Runs_rows Digest_String HexN IsZero IsAbbrev (DynamoDB.Query table) t q now
       = Some (inr ValidationException)
       ∧ Tasks_rows Digest_String HexN IsZero IsAbbrev (DynamoDB.Query table) t q now
         = Some (inr ValidationException)).
Proof.
  intros Hid Hrun Hnow Hfuture.
  pose proof (dates_empty _ _ Hfuture) as Hdates.
  assert (Hsince : bool_decide (Since q = Time.zeroTime) = false).
  { apply bool_decide_eq_false. intros Hz.
    pose proof (date_le _ _ Hnow). rewrite Hz in Hfuture. lia. }
  assert (Hb : ∀ typ, ∃ input,
    buildQueries Digest_String HexN IsZero IsAbbrev t q typ now = Some [input]
    ∧ KeyConditionExpression input = ""
    ∧ ∀ table, DynamoDB.Query table input = inr ValidationException).
  { intros typ. unfold buildQueries.
    rewrite Hid, Hrun, Hsince, Hdates. simpl.
    destruct (negb (Query_User q =? "")%string), (bool_decide (typ = run));
      eexists; repeat split. }
  split; [exact Hdates|]. split; [|split; [|split]].
  - intros typ. destruct (Hb typ) as (input & Hq & Hk & _). eauto.
  - intros DB. destruct (Hb run) as (input & Hq & Hk & _).
    exists input. split; [exact Hk|].
    unfold Runs_responses. rewrite Hq. simpl. unfold sent.
    destruct (DB input); reflexivity.
  - intros DB. destruct (Hb task) as (input & Hq & Hk & _).
    exists input. split; [exact Hk|].
    unfold Tasks_responses. rewrite Hrun, Hq. simpl. unfold sent.
    destruct (DB input); reflexivity.
  - intros table. unfold Runs_rows, Tasks_rows, Runs_responses, Tasks_responses.
    destruct (Hb run) as (input & Hq & _ & Hv).
    destruct (Hb task) as (input' & Hq' & _ & Hv').
    rewrite Hrun, Hq, Hq'. simpl. rewrite Hv, Hv'. split; reflexivity.
Qed.

(** *** The rows *)

Lemma row_ok_other row attr v :
  attr ≠ colType → attr ≠ colID → attr ≠ colID4 →
  attr ≠ colStartTime → attr ≠ colKeepalive →
  row_ok row → row_ok (<[attr := v]> row).
Proof.
  intros H1 H2 H3 H4 H5 Hrow. unfold TaskDBProps.row_ok.
  rewrite !lookup_insert_ne by assumption. exact Hrow.
Qed.

Lemma row_ok_keepalive row ka :
  row_ok row →
  (∀ st, row !! colStartTime = Some (S_time st) → (st ≤ ka)%Z) →
  row_ok (<[colKeepalive := S_time ka]> row).
Proof.
  intros Hrow Hst. unfold TaskDBProps.row_ok.
  rewrite !lookup_insert_ne by discriminate. rewrite lookup_insert_eq.
  intros Ht. split; [now apply Hrow|].
  intros st ka' Hs [= <-]. now apply Hst.
Qed.

Lemma row_ok_key key : row_ok {[ colID := S key ]}.
Proof. unfold TaskDBProps.row_ok. rewrite lookup_singleton_ne; discriminate. Qed.

(** A row that [UpdateItem] assigns to: the one in the table, or one with
    the key alone. *)
Lemma row_ok_default table key :
  row_invariant table →
  row_ok (default {[ colID := S key ]} (table !! key)).
Proof.
  intros H. destruct (table !! key) as [row|] eqn:E; simpl.
  - now apply (H key).
  - apply row_ok_key.
Qed.

Lemma row_invariant_insert table key row :
  row_invariant table → row_ok row → row_invariant (<[key := row]> table).
Proof.
  intros H Hrow key' row' [[_ <-] | [_ Hl]]%lookup_insert_Some;
    [exact Hrow | now apply (H key')].
Qed.

Lemma id4_ok_other row attr v :
  attr ≠ colType → attr ≠ colID → attr ≠ colID4 →
  id4_ok row → id4_ok (<[attr := v]> row).
Proof.
  intros H1 H2 H3 Hrow. unfold TaskDBProps.id4_ok.
  rewrite !lookup_insert_ne by assumption. exact Hrow.
Qed.

Lemma id4_ok_default table key :
  id4_invariant table →
  id4_ok (default {[ colID := S key ]} (table !! key)).
Proof.
  intros H. destruct (table !! key) as [row|] eqn:E; simpl.
  - now apply (H key).
  - unfold TaskDBProps.id4_ok. rewrite lookup_singleton_ne; discriminate.
Qed.

Lemma id4_invariant_insert table key row :
  id4_invariant table → id4_ok row → id4_invariant (<[key := row]> table).
Proof.
  intros H Hrow key' row' [[_ <-] | [_ Hl]]%lookup_insert_Some;
    [exact Hrow | now apply (H key')].
Qed.

(** The row [Keepalive id ka] stores: the row of [id], or one with the key
    alone, with the keepalive and its date. *)
Lemma Keepalive_row t now table id ka :
  exec Digest_String HexN t now table (Keepalive id ka)
  = <[Digest_String id :=
        <[colDate := Format_dateLayout ka]>
          (<[colKeepalive := Format_timeLayout ka]>
             (default {[ colID := S (Digest_String id) ]}
                      (table !! Digest_String id)))]> table.
Proof. reflexivity. Qed.

(** C9, amended.  Every operation preserves the part of the invariant that
    is about ID4, whatever its arguments; and every operation but
    [Keepalive] preserves the whole invariant.  A row fresh from
    [CreateTask] has the StartTime of its creation and no Keepalive
    attribute.  [Keepalive id t] stores [t] and its date, leaves every other
    attribute of the row, StartTime and ID4 among them, and every other row
    as they are, and it checks nothing: after it the invariant holds
    exactly when [t] is not before the StartTime of the Task row of
    [id]. *)
Theorem exec_row_invariant t now table o :
  (id4_invariant table →
   id4_invariant (exec Digest_String HexN t now table o))
  ∧ (row_invariant table → (∀ id ka, o ≠ Keepalive id ka) →
     row_invariant (exec Digest_String HexN t now table o))
  ∧ (∀ id runid flowid uri, o = CreateTask id runid flowid uri →
       ∃ row, exec Digest_String HexN t now table o !! Digest_String id
              = Some row
              ∧ row !! colStartTime = Some (Format_timeLayout now)
              ∧ row !! colKeepalive = None)
  ∧ (∀ id ka, o = Keepalive id ka →
       let old := default {[ colID := S (Digest_String id) ]}
                          (table !! Digest_String id) in
       (∃ row, exec Digest_String HexN t now table o !! Digest_String id
               = Some row
               ∧ row !! colKeepalive = Some (Format_timeLayout ka)
               ∧ row !! colDate = Some (Format_dateLayout ka)
               ∧ ∀ attr, attr ≠ colKeepalive → attr ≠ colDate →
                         row !! attr = old !! attr)
       ∧ (∀ key, key ≠ Digest_String id →
            exec Digest_String HexN t now table o !! key = table !! key)
       ∧ (row_invariant table →
          (row_invariant (exec Digest_String HexN t now table o)
           ↔ (old !! colType = Some (S (objType_string task)) →
              ∀ st, old !! colStartTime = Some (S_time st) →
                    (st ≤ ka / Time.Second)%Z)))).
Proof.
  split; [|split; [|split]].
  - intros Hinv.
    destruct o as [id user | id runid flowid uri | id result
                  | id stdout stderr inspect | id ka].
    + apply id4_invariant_insert; [exact Hinv|]. intros Ht. discriminate Ht.
    + apply id4_invariant_insert; [exact Hinv|]. intros _.
      exists id. split; reflexivity.
    + apply id4_invariant_insert; [exact Hinv|].
      apply id4_ok_other; try discriminate. now apply id4_ok_default.
    + apply id4_invariant_insert; [exact Hinv|].
      repeat (apply id4_ok_other; try discriminate).
      now apply id4_ok_default.
    + apply id4_invariant_insert; [exact Hinv|].
      repeat (apply id4_ok_other; try discriminate).
      now apply id4_ok_default.
  - intros Hinv Hop.
    destruct o as [id user | id runid flowid uri | id result
                  | id stdout stderr inspect | id ka].
    + apply row_invariant_insert; [exact Hinv|]. intros Ht. discriminate Ht.
    + apply row_invariant_insert; [exact Hinv|]. intros _. split.
      * exists id. split; reflexivity.
      * intros st ka _ Hk. discriminate Hk.
    + apply row_invariant_insert; [exact Hinv|].
      apply row_ok_other; try discriminate. now apply row_ok_default.
    + apply row_invariant_insert; [exact Hinv|].
      repeat (apply row_ok_other; try discriminate).
      now apply row_ok_default.
    + now destruct (Hop id ka).
  - intros id runid flowid uri ->. eexists. split.
    + apply lookup_insert_eq.
    + split; reflexivity.
  - intros id ka -> old. rewrite Keepalive_row. fold old.
    split; [|split].
    + eexists. split; [apply lookup_insert_eq|]. split; [|split].
      * rewrite lookup_insert_ne by discriminate. apply lookup_insert_eq.
      * apply lookup_insert_eq.
      * intros attr Hk Hd. now rewrite !lookup_insert_ne by congruence.
    + intros key Hkey. now rewrite lookup_insert_ne by congruence.
    + intros Hinv. split.
      * intros Hafter Htype st Hst.
        destruct (Hafter (Digest_String id) _ (lookup_insert_eq _ _ _))
          as [_ Hka].
        { now rewrite !lookup_insert_ne by discriminate. }
        apply (Hka st (ka / Time.Second)%Z).
        -- now rewrite !lookup_insert_ne by discriminate.
        -- rewrite lookup_insert_ne by discriminate. apply lookup_insert_eq.
      * intros Hka. apply row_invariant_insert; [exact Hinv|].
        pose proof (row_ok_default table (Digest_String id) Hinv) as Hold.
        fold old in Hold. unfold TaskDBProps.row_ok in *.
        rewrite !lookup_insert_ne by discriminate.
        rewrite lookup_insert_eq. intros Htype.
        split; [now apply Hold|].
        intros st ka' Hst [= <-]. now apply Hka.
Qed.

(** *** Queries by time *)

Lemma buildQueries_buckets t (q : Query) typ now :
  IsZero (ID q) = true → (typ = run → IsZero (RunID q) = true) →
  Since q ≠ Time.zeroTime → dates (Since q) now ≠ [] →
  buildQueries Digest_String HexN IsZero IsAbbrev t q typ now
  = Some (bucket t q typ <$> dates (Since q) now).
Proof.
  intros Hid Hrun Hsince Hdates. unfold buildQueries, bucket.
  rewrite Hid. cbn [negb].
  replace (negb (IsZero (RunID q)) && bool_decide (typ = run)) with false.
  2:{ destruct (bool_decide (typ = run)) eqn:E; [|now rewrite andb_false_r].
      apply bool_decide_eq_true in E. now rewrite (Hrun E). }
  rewrite bool_decide_false by exact Hsince.
  destruct (dates (Since q) now) as [|d ds]; [congruence|].
  destruct (negb (Query_User q =? "")%string), (bool_decide (typ = run));
    rewrite !fmap_cons; cbv beta iota zeta;
    f_equal; f_equal; try reflexivity;
    rewrite <- list_fmap_compose; reflexivity.
Qed.

Lemma satisfies_intro names values (row : Item) name op value attr v x b :
  attributeName names name = Some attr → values !! value = Some v →
  row !! attr = Some x → compare op x v = Some b →
  satisfies names values row (name, op, value) = Some b.
Proof.
  intros Ha Hv Hr Hc. unfold satisfies.
  rewrite Ha. simpl. rewrite Hv. simpl. now rewrite Hr.
Qed.

Lemma satisfiesAll_cons names values (row : Item) c cs :
  satisfies names values row c = Some true →
  satisfiesAll names values row cs = Some true →
  satisfiesAll names values row (c :: cs) = Some true.
Proof. intros Hc Hcs. simpl. now rewrite Hc, Hcs. Qed.

Lemma compare_eq (x : AttributeValue) : compare "=" x x = Some true.
Proof. unfold compare. simpl. now rewrite bool_decide_true. Qed.

Lemma compare_gt (a b : Z) :
  (b < a)%Z → compare ">" (S_time a) (S_time b) = Some true.
Proof. intros H. unfold compare. simpl. apply Z.ltb_lt in H. now rewrite H. Qed.

(** The expressions of a bucket's query are valid, and the query selects a
    row of that date whose keepalive is after Since, at the granularity of
    the second, and that passes the filter. *)
Lemma bucket_selects t (q : Query) typ d :
  ∃ key cs,
    parseCondition (KeyConditionExpression (bucket t q typ d)) = Some key
    ∧ match FilterExpression (bucket t q typ d) with
      | None => Some []
      | Some e => parseCondition e
      end = Some cs
    ∧ ∀ row ka,
        row !! colDate = Some (Format_dateLayout d) →
        row !! colKeepalive = Some (S_time ka) →
        (Since q / Time.Second < ka)%Z →
        passes q typ row →
        selects (bucket t q typ d) (key ++ cs) row = true.
Proof.
  unfold bucket, passes.
  destruct (negb (Query_User q =? "")%string) eqn:Eu,
           (bool_decide (typ = run)) eqn:Et;
    (eexists _, _; split; [reflexivity|]; split; [reflexivity|]);
    intros row ka Hd Hk Hlt [Huser Htyp]; unfold selects; cbn [app];
    cbn [ExpressionAttributeNames ExpressionAttributeValues];
    try (apply negb_true_iff, String.eqb_neq in Eu;
         specialize (Huser Eu));
    try (apply bool_decide_eq_true in Et; specialize (Htyp Et); subst typ);
    match goal with
    | |- match ?o with Some b => b | None => false end = true =>
        cut (o = Some true); [intros ->; reflexivity|]
    end;
    repeat (apply satisfiesAll_cons;
            [eapply satisfies_intro;
               [reflexivity | reflexivity | eassumption
               | first [apply compare_eq | now apply compare_gt]]|]);
    reflexivity.
Qed.


End Digest.



(** [Tasks] keeps the answer to the last query only.  A task kept alive
    until yesterday noon is in yesterday's bucket: the second of the three
    queries built at noon for the tasks kept alive since two days ago returns
    it, and [Tasks] returns nothing. *)
Lemma Tasks_keeps_the_last_response :
  let q := TaskDBExamples.sinceQuery (TaskDBExamples.yesterday - Day) in
  (∃ q1 q2 q3 row,
     buildQueries TaskDBExamples.Digest_String TaskDBExamples.HexN
       TaskDBExamples.IsZero TaskDBExamples.IsAbbrev TaskDBExamples.store q
       task TaskDBExamples.noon = Some [q1; q2; q3]
     ∧ DynamoDB.Query TaskDBExamples.staleTask q2 = inl [row]
     ∧ TaskDBExamples.staleTask !! "77c1" = Some row)
  ∧ Tasks_rows TaskDBExamples.Digest_String TaskDBExamples.HexN
      TaskDBExamples.IsZero TaskDBExamples.IsAbbrev
      (DynamoDB.Query TaskDBExamples.staleTask) TaskDBExamples.store q
      TaskDBExamples.noon = Some (inl []).
Proof.
  split.
  - eexists _, _, _, _. split; [vm_compute; reflexivity|].
    split; vm_compute; reflexivity.
  - vm_compute. reflexivity.
Qed.

(** *** The invariant of the rows at work *)

Lemma oneTask_invariant :
  row_invariant TaskDBExamples.Digest_String TaskDBExamples.HexN
    TaskDBExamples.oneTask.
Proof.
  apply row_invariant_insert.
  - intros key row Hl. rewrite lookup_empty in Hl. discriminate.
  - intros _. split.
    + exists "77c1". split; reflexivity.
    + intros st ka _ Hk. discriminate Hk.
Qed.

(** C9 as stated fails: a task created at noon and then given the keepalive
    of yesterday noon has a Keepalive before its StartTime. *)
Lemma Keepalive_before_StartTime : ¬ operations_preserve_row_invariant.
Proof.
  intros H.
  specialize (H TaskDBExamples.store TaskDBExamples.noon
                TaskDBExamples.oneTask
                (Keepalive "77c1" TaskDBExamples.yesterday)
                oneTask_invariant).
  assert (Hrow : ∃ row,
    exec TaskDBExamples.Digest_String TaskDBExamples.HexN
      TaskDBExamples.store TaskDBExamples.noon TaskDBExamples.oneTask
      (Keepalive "77c1" TaskDBExamples.yesterday) !! "77c1" = Some row
    ∧ row !! colType = Some (S (objType_string task))
    ∧ row !! colStartTime = Some (S_time (TaskDBExamples.noon / Time.Second))
    ∧ row !! colKeepalive
      = Some (S_time (TaskDBExamples.yesterday / Time.Second))).
  { eexists. split; [vm_compute; reflexivity|]. repeat split. }
  destruct Hrow as (row & Hrow & Htype & Hstart & Hka).
  destruct (H "77c1" row Hrow Htype) as [_ Hle].
  specialize (Hle _ _ Hstart Hka). vm_compute in Hle. now apply Hle.
Qed.

(** A task created at noon and kept alive until tomorrow noon. *)
Lemma exec_row_invariant_witness :
  row_invariant TaskDBExamples.Digest_String TaskDBExamples.HexN
    (exec TaskDBExamples.Digest_String TaskDBExamples.HexN
       TaskDBExamples.store TaskDBExamples.noon TaskDBExamples.oneTask
       (Keepalive "77c1" TaskDBExamples.tomorrow)).
Proof.
  destruct (proj2 (proj2 (proj2
              (exec_row_invariant TaskDBExamples.Digest_String
                 TaskDBExamples.HexN TaskDBExamples.store TaskDBExamples.noon
                 TaskDBExamples.oneTask
                 (Keepalive "77c1" TaskDBExamples.tomorrow))))
              "77c1" TaskDBExamples.tomorrow eq_refl) as (_ & _ & H).
  apply (H oneTask_invariant).
  intros _ st Hst. vm_compute in Hst. injection Hst as <-.
  vm_compute. discriminate.
Defined.

(** At noon, the runs kept alive since tomorrow noon. *)
Lemma buildQueries_future_witness :
  dates TaskDBExamples.tomorrow TaskDBExamples.noon = []
  ∧ ∃ input,
      buildQueries TaskDBExamples.Digest_String TaskDBExamples.HexN
        TaskDBExamples.IsZero TaskDBExamples.IsAbbrev TaskDBExamples.store
        (TaskDBExamples.sinceQuery TaskDBExamples.tomorrow) run
        TaskDBExamples.noon = Some [input]
      ∧ KeyConditionExpression input = "".
Proof.
  destruct (buildQueries_future TaskDBExamples.Digest_String
              TaskDBExamples.HexN TaskDBExamples.IsZero
              TaskDBExamples.IsAbbrev TaskDBExamples.store
              (TaskDBExamples.sinceQuery TaskDBExamples.tomorrow)
              TaskDBExamples.noon)
    as (Hd & Hb & _).
  - reflexivity.
  - reflexivity.
  - vm_compute. discriminate.
  - vm_compute. reflexivity.
  - split; [exact Hd | exact (Hb run)].
Defined.

End TaskDBFacts.

Module InstanceStateFacts.
Import Float64 Float64Facts Selector SelectorExamples SelectorProps SelectorFacts.

(** *** [Type] *)

Lemma Type_find_first typ cs c :
  Type_find typ cs = (c, true) ↔
  ∃ pre post, cs = pre ++ c :: post ∧ Type_ c = typ
              ∧ Forall (λ c', Type_ c' ≠ typ) pre.
Proof.
  induction cs as [|c0 cs IH]; simpl.
  - split; [discriminate|]. intros (pre & post & H & _). now destruct pre.
  - destruct (String.eqb_spec (Type_ c0) typ) as [Heq|Hne].
    + split.
      * intros [= <-]. exists [], cs. repeat split; [exact Heq | constructor].
      * intros (pre & post & H & Ht & Hpre). destruct pre as [|p pre].
        -- now injection H as <- <-.
        -- injection H as <- _. inversion Hpre; subst. contradiction.
    + rewrite IH. split.
      * intros (pre & post & -> & Ht & Hpre). exists (c0 :: pre), post.
        repeat split; [exact Ht | now constructor].
      * intros (pre & post & H & Ht & Hpre). destruct pre as [|p pre].
        -- injection H as <- _. contradiction.
        -- injection H as <- ->. inversion Hpre; subst. eauto.
Qed.

(** X1.  [Type] answers ok exactly when the type is not asleep and the
    catalog has a config of that type, and the config it returns is the
    first of that type in the catalog. *)
Theorem Type_first s now typ c :
  Type' s now typ = (c, true) ↔
  asleep s now typ = false
  ∧ ∃ pre post, configs s = pre ++ c :: post ∧ Type_ c = typ
                ∧ Forall (λ c', Type_ c' ≠ typ) pre.
Proof.
  unfold Type'. destruct (asleep s now typ).
  - split; [discriminate | intros [? _]; discriminate].
  - rewrite Type_find_first. split; [now split | now intros [_ H]].
Qed.

(** *** [MinAvailable] *)

Lemma viable_filter s now need spot c :
  c ∈ List.filter (viableb s now need spot) (configs s) ↔
  c ∈ configs s ∧ viable s now need spot c.
Proof.
  rewrite list_elem_of_In, filter_In, <- list_elem_of_In, viableb_spec.
  reflexivity.
Qed.

Lemma viable_Available s now need spot c :
  viable s now need spot c → Selector.Available (Resources c) need = true.
Proof. now intros [(_ & _ & H) _]. Qed.

Lemma MinAvailable_ok s now need spot :
  (MinAvailable s now need spot).2
  = Selector.Available (Resources (MinAvailable s now need spot).1) need.
Proof.
  unfold MinAvailable.
  destruct (fold_left (MinAvailable_pick _ _ _ _) _ _) as [[best0 p0] vl].
  destruct (fold_left (MinAvailable_adjust s) _ _) as [[best bestPrice] found].
  reflexivity.
Qed.

(** X2.  When [MinAvailable] answers ok for a [need] that asks for
    something (the empty resources do not cover it), the config it returns
    is a config of the catalog that is not asleep, is on the spot market
    when [spot] is set, covers [need] and has a price in the region. *)
Theorem MinAvailable_sound s now need spot c :
  MinAvailable s now need spot = (c, true) →
  Selector.Available ∅ need = false →
  c ∈ configs s
  ∧ asleep s now (Type_ c) = false
  ∧ (spot = true → SpotOk c = true)
  ∧ Selector.Available (Resources c) need = true
  ∧ is_Some (Price c !! region s).
Proof.
  intros H Hneed.
  pose proof (MinAvailable_result s now need spot) as Hr.
  pose proof (MinAvailable_ok s now need spot) as Hok.
  rewrite H in Hr, Hok. simpl in Hr, Hok.
  destruct Hr as [-> | [Hin [(Ha & Hs & Hv) Hp]]].
  - simpl in Hok. congruence.
  - auto.
Qed.

Lemma MinAvailable_sound_witness :
  B ∈ configs (catalog [A; B])
  ∧ asleep (catalog [A; B]) 0 (Type_ B) = false
  ∧ (false = true → SpotOk B = true)
  ∧ Selector.Available (Resources B) need = true
  ∧ is_Some (Price B !! region (catalog [A; B])).
Proof.
  apply (MinAvailable_sound (catalog [A; B]) 0 need false B).
  - vm_compute. reflexivity.
  - vm_compute. reflexivity.
Defined.

(** What the two loops of [MinAvailable] leave, when some viable config is
    priced below [math.MaxFloat64]. *)
Lemma MinAvailable_loops s now need spot c :
  c ∈ configs s → viable s now need spot c →
  (priceIn s c <? MaxFloat64)%float = true →
  let vl := List.filter (viableb s now need spot) (configs s) in
  ∃ best0 p0 acc,
    fold_left (MinAvailable_pick s now need spot) (configs s)
              (zeroConfig, MaxFloat64, []) = (best0, p0, vl)
    ∧ fold_left (MinAvailable_adjust s) vl (best0, p0, false) = acc
    ∧ MinAvailable s now need spot
      = (acc.1.1, Selector.Available (Resources acc.1.1) need)
    ∧ best0 ∈ vl ∧ priceIn s best0 = p0
    ∧ (∀ c', c' ∈ vl → (priceIn s c' <? p0)%float = false)
    ∧ acc.1.1 ∈ vl
    ∧ adjusted s best0 p0 vl acc.
Proof.
  intros Hc Hv Hlt vl.
  pose proof (pick_viable s now need spot (configs s) zeroConfig MaxFloat64 [])
    as Hvl.
  pose proof (pick_best s now need spot (configs s)) as Hb.
  unfold MinAvailable.
  destruct (fold_left (MinAvailable_pick _ _ _ _) _ _) as [[best0 p0] vl0].
  simpl in Hvl. fold vl in Hvl. subst vl0.
  assert (Hcv : c ∈ vl) by now apply viable_filter.
  destruct Hb as [Hall Hbest].
  destruct Hbest as [[-> ->] | [Hin Hp]].
  { rewrite (Hall c Hcv) in Hlt. discriminate. }
  pose proof (adjust_member s vl (best0, p0, false)) as Hm.
  pose proof (adjust_fold s best0 p0 vl [] (best0, p0, false)) as Ha.
  simpl in Ha.
  destruct (fold_left (MinAvailable_adjust s) vl (best0, p0, false))
    as [[best bestPrice] found] eqn:Ef.
  exists best0, p0, (best, bestPrice, found). simpl in *.
  repeat split; try assumption.
  - destruct Hm as [-> | Hm]; assumption.
  - apply Ha. repeat split. intros c' Hc'. inversion Hc'.
Qed.

(** X3.  When some config of the catalog is viable (not asleep, on the spot
    market if [spot] is set, covering [need], with a price in the region)
    and its price is below [math.MaxFloat64], [MinAvailable] answers ok and
    returns a viable config of the catalog. *)
Theorem MinAvailable_complete s now need spot c :
  c ∈ configs s → viable s now need spot c →
  (priceIn s c <? MaxFloat64)%float = true →
  ∃ best, MinAvailable s now need spot = (best, true)
          ∧ best ∈ configs s ∧ viable s now need spot best.
Proof.
  intros Hc Hv Hlt.
  destruct (MinAvailable_loops s now need spot c Hc Hv Hlt)
    as (best0 & p0 & acc & _ & _ & Hm & _ & _ & _ & Hin & _).
  apply viable_filter in Hin as [Hin Hvb].
  exists acc.1.1. rewrite Hm, (viable_Available _ _ _ _ _ Hvb). auto.
Qed.

Lemma MinAvailable_complete_witness :
  ∃ best, MinAvailable (catalog [A; B]) 0 need false = (best, true)
          ∧ best ∈ configs (catalog [A; B])
          ∧ viable (catalog [A; B]) 0 need false best.
Proof.
  apply (MinAvailable_complete (catalog [A; B]) 0 need false A).
  - left.
  - apply viableb_spec. vm_compute. reflexivity.
  - vm_compute. reflexivity.
Defined.

(** X4.  When no viable config offers more than 1.5 times the EBS
    throughput of another one, [MinAvailable] returns a cheapest viable
    config: no viable config of the catalog has a lower price in the
    region. *)
Theorem MinAvailable_cheapest s now need spot c :
  c ∈ configs s → viable s now need spot c →
  (priceIn s c <? MaxFloat64)%float = true →
  (∀ c1 c2, c1 ∈ configs s → c2 ∈ configs s →
            viable s now need spot c1 → viable s now need spot c2 →
            (EBSThroughput c1 * benefitFactor <? EBSThroughput c2)%float
            = false) →
  ∃ best, MinAvailable s now need spot = (best, true)
          ∧ best ∈ configs s ∧ viable s now need spot best
          ∧ ∀ c', c' ∈ configs s → viable s now need spot c' →
                  (priceIn s c' <? priceIn s best)%float = false.
Proof.
  intros Hc Hv Hlt Hebs.
  destruct (MinAvailable_loops s now need spot c Hc Hv Hlt)
    as (best0 & p0 & [[best bestPrice] found] & _ & _ & Hm & Hin0 & Hp0 & Hall
        & Hin & Ha).
  simpl in *.
  apply viable_filter in Hin as [Hin Hvb].
  apply viable_filter in Hin0 as [Hin0 Hvb0].
  exists best. rewrite Hm, (viable_Available _ _ _ _ _ Hvb).
  split; [reflexivity|]. split; [exact Hin|]. split; [exact Hvb|].
  intros c' Hc' Hv'.
  destruct found.
  - destruct Ha as (_ & Hup & _). unfold upgrades in Hup.
    apply andb_true_iff in Hup as [_ Hup].
    rewrite (Hebs best0 best) in Hup by assumption. discriminate.
  - destruct Ha as (-> & -> & _). rewrite Hp0. apply Hall.
    now apply viable_filter.
Qed.

Lemma MinAvailable_cheapest_witness :
  ∃ best, MinAvailable (catalog [A; B150]) 0 need false = (best, true)
          ∧ best ∈ configs (catalog [A; B150])
          ∧ viable (catalog [A; B150]) 0 need false best
          ∧ ∀ c', c' ∈ configs (catalog [A; B150]) →
                  viable (catalog [A; B150]) 0 need false c' →
                  (priceIn (catalog [A; B150]) c'
                   <? priceIn (catalog [A; B150]) best)%float = false.
Proof.
  apply (MinAvailable_cheapest (catalog [A; B150]) 0 need false A).
  - left.
  - apply viableb_spec. vm_compute. reflexivity.
  - vm_compute. reflexivity.
  - intros c1 c2 H1 H2 _ _.
    apply elem_of_cons in H1 as [->|H1];
      [|apply list_elem_of_singleton in H1 as ->];
      (apply elem_of_cons in H2 as [->|H2];
       [|apply list_elem_of_singleton in H2 as ->]);
      vm_compute; reflexivity.
Defined.

(** *** [MaxAvailable] *)

Section MaxAvailable.

Variable ScaledDistance : reflow_Resources → reflow_Resources → float.

Lemma candidate_passes s now need spot c :
  candidate s now need spot c →
  asleep s now (Type_ c) || (spot && negb (SpotOk c)) = false
  ∧ negb (Selector.Available (Resources c) need) = false.
Proof.
  intros (Ha & Hs & Hv). rewrite Ha, Hv. split; [|reflexivity].
  destruct spot; [|reflexivity]. now rewrite Hs.
Qed.

(** What the loop of [MaxAvailable] has established after the configs [l]:
    no candidate among them is farther than [distance], and [best] is the
    zero config, with the distance the loop starts from, or a candidate at
    that distance. *)
Lemma MaxAvailable_loop s now need spot l :
  let acc := fold_left (MaxAvailable_body ScaledDistance s now need spot) l
                       (zeroConfig, (- MaxFloat64)%float) in
  (∀ c, c ∈ l → candidate s now need spot c →
        (acc.2 <? ScaledDistance (Resources c) need)%float = false)
  ∧ (acc = (zeroConfig, (- MaxFloat64)%float)
     ∨ (acc.1 ∈ l ∧ candidate s now need spot acc.1
        ∧ acc.2 = ScaledDistance (Resources acc.1) need)).
Proof.
  induction l as [|x l IH] using rev_ind; simpl.
  { split; [intros c Hc; inversion Hc | now left]. }
  rewrite fold_left_app. simpl.
  destruct (fold_left _ l _) as [best distance]. simpl in IH.
  destruct IH as [Hall Hbest].
  unfold MaxAvailable_body.
  destruct (asleep s now (Type_ x) || (spot && negb (SpotOk x))) eqn:E1.
  { split.
    - intros c [Hc| ->%list_elem_of_singleton]%elem_of_app Hcand;
        [now apply Hall|].
      apply candidate_passes in Hcand as [Hcand _]. congruence.
    - destruct Hbest as [Hz | (Hin & Hc & Hd)]; [now left | right].
      split; [apply elem_of_app; now left | now split]. }
  destruct (negb (Selector.Available (Resources x) need)) eqn:E2.
  { split.
    - intros c [Hc| ->%list_elem_of_singleton]%elem_of_app Hcand;
        [now apply Hall|].
      apply candidate_passes in Hcand as [_ Hcand]. congruence.
    - destruct Hbest as [Hz | (Hin & Hc & Hd)]; [now left | right].
      split; [apply elem_of_app; now left | now split]. }
  destruct (distance <? ScaledDistance (Resources x) need)%float eqn:E3;
    simpl.
  - split.
    + intros c [Hc| ->%list_elem_of_singleton]%elem_of_app Hcand.
      * destruct (ScaledDistance (Resources x) need
                  <? ScaledDistance (Resources c) need)%float eqn:E;
          [|reflexivity].
        rewrite <- (Hall c Hc Hcand). symmetry.
        now apply ltb_trans with (ScaledDistance (Resources x) need).
      * apply ltb_irrefl.
    + right. split; [apply elem_of_app; right; now left|].
      split; [now apply candidate_test | reflexivity].
  - split.
    + intros c [Hc| ->%list_elem_of_singleton]%elem_of_app Hcand;
        [now apply Hall | exact E3].
    + destruct Hbest as [Hz | (Hin & Hc & Hd)]; [now left | right].
      split; [apply elem_of_app; now left | now split].
Qed.

(** X5.  When some candidate of the catalog (not asleep, on the spot market
    if [spot] is set, covering [need]) is at a distance above
    [-math.MaxFloat64], [MaxAvailable] answers ok with a candidate of the
    catalog, and no candidate is at a greater distance than the one it
    returns. *)
Theorem MaxAvailable_maximal s now need spot c :
  c ∈ configs s → candidate s now need spot c →
  (- MaxFloat64 <? ScaledDistance (Resources c) need)%float = true →
  ∃ best, MaxAvailable ScaledDistance s now need spot = (best, true)
          ∧ best ∈ configs s ∧ candidate s now need spot best
          ∧ ∀ c', c' ∈ configs s → candidate s now need spot c' →
                  (ScaledDistance (Resources best) need
                   <? ScaledDistance (Resources c') need)%float = false.
Proof.
  intros Hc Hcand Hd.
  pose proof (MaxAvailable_loop s now need spot (configs s)) as Hl.
  unfold MaxAvailable.
  destruct (fold_left _ _ _) as [best distance]. simpl in Hl.
  destruct Hl as [Hall [[= -> ->] | (Hin & Hb & ->)]].
  { specialize (Hall c Hc Hcand).
    change ((- MaxFloat64 <? ScaledDistance (Resources c) need)%float = false)
      in Hall.
    congruence. }
  exists best. destruct Hb as (Ha & Hs & Hv). rewrite Hv.
  repeat split; assumption.
Qed.

End MaxAvailable.

Lemma MaxAvailable_maximal_witness :
  let ScaledDistance : reflow_Resources → reflow_Resources → float :=
    λ r _, index r "cpu" in
  ∃ best, MaxAvailable ScaledDistance (catalog [A; B]) 0 need false
          = (best, true)
          ∧ best ∈ configs (catalog [A; B])
          ∧ candidate (catalog [A; B]) 0 need false best
          ∧ ∀ c', c' ∈ configs (catalog [A; B]) →
                  candidate (catalog [A; B]) 0 need false c' →
                  (ScaledDistance (Resources best) need
                   <? ScaledDistance (Resources c') need)%float = false.
Proof.
  apply (MaxAvailable_maximal (λ r _, index r "cpu") (catalog [A; B]) 0 need
           false A).
  - left.
  - repeat split; vm_compute; reflexivity.
  - vm_compute. reflexivity.
Defined.

(** *** The unavailable map *)

Lemma Sub_ge (t u d : Z) :
  (d ≤ Time.maxDuration → d ≤ t - u → d ≤ Time.Sub t u)%Z.
Proof.
  intros Hd H. unfold Time.Sub, Time.maxDuration, Time.minDuration in *.
  destruct (Z.ltb_spec (2 ^ 63 - 1) (t - u)); [lia|].
  destruct (Z.ltb_spec (t - u) (- 2 ^ 63)); lia.
Qed.

Lemma Type_find_member c cs :
  c ∈ cs →
  ∃ c', Type_find (Type_ c) cs = (c', true) ∧ c' ∈ cs ∧ Type_ c' = Type_ c.
Proof.
  induction 1 as [c cs | c c0 cs _ IH]; simpl.
  - rewrite String.eqb_refl. exists c. repeat split. left.
  - destruct (String.eqb_spec (Type_ c0) (Type_ c)) as [Heq|Hne].
    + exists c0. repeat split; [left | exact Heq].
    + destruct IH as (c' & -> & Hin & Ht). exists c'.
      repeat split; [now right | exact Ht].
Qed.

(** X6.  A mark wears off: once [sleepTime] has passed since
    [Unavailable c] was called at [T], [Type] finds the type of [c] again,
    as the first config of that type in the catalog; and at any time the
    mark of [c] leaves what [Type] answers for the other types as it was. *)
Theorem Unavailable_expires s c T now :
  (sleepTime s ≤ Time.maxDuration)%Z → (T + sleepTime s ≤ now)%Z →
  Type' (Unavailable s c T) now (Type_ c) = Type_find (Type_ c) (configs s)
  ∧ (c ∈ configs s →
     ∃ c', Type' (Unavailable s c T) now (Type_ c) = (c', true)
           ∧ c' ∈ configs s ∧ Type_ c' = Type_ c)
  ∧ ∀ now' typ, typ ≠ Type_ c →
      Type' (Unavailable s c T) now' typ = Type' s now' typ.
Proof.
  intros Hsleep Hnow.
  assert (Hawake : asleep (Unavailable s c T) now (Type_ c) = false).
  { unfold asleep, unavailableSince, Time.Since. simpl.
    rewrite lookup_insert_eq. simpl. apply Z.ltb_ge.
    apply Sub_ge; [exact Hsleep | lia]. }
  assert (Hfind : Type' (Unavailable s c T) now (Type_ c)
                  = Type_find (Type_ c) (configs s)).
  { unfold Type'. now rewrite Hawake. }
  split; [exact Hfind|]. split.
  - intros Hc. rewrite Hfind. now apply Type_find_member.
  - intros now' typ Hne. unfold Type', asleep, unavailableSince. simpl.
    now rewrite lookup_insert_ne by congruence.
Qed.

Lemma Unavailable_expires_witness :
  Type' (Unavailable (catalog [A; B]) B 0) (5 * Time.Minute) (Type_ B)
  = Type_find (Type_ B) (configs (catalog [A; B]))
  ∧ (B ∈ configs (catalog [A; B]) →
     ∃ c', Type' (Unavailable (catalog [A; B]) B 0) (5 * Time.Minute) (Type_ B)
           = (c', true)
           ∧ c' ∈ configs (catalog [A; B]) ∧ Type_ c' = Type_ B)
  ∧ ∀ now' typ, typ ≠ Type_ B →
      Type' (Unavailable (catalog [A; B]) B 0) now' typ
      = Type' (catalog [A; B]) now' typ.
Proof.
  apply (Unavailable_expires (catalog [A; B]) B 0 (5 * Time.Minute)).
  - vm_compute. discriminate.
  - vm_compute. discriminate.
Defined.

(** *** A fresh state *)

(** X7.  In the state [newInstanceState] makes, whatever way [sort.Slice]
    permutes the configs, no type is asleep at a time after the year 293
    (so that the time since the zero time exceeds every Duration): [Type]
    finds every type of the catalog given, and [Available] answers whether
    one of the configs given covers the need. *)
Theorem newInstanceState_awake
    (sort_Slice : list instanceConfig →
                  (instanceConfig → instanceConfig → bool) →
                  list instanceConfig)
    cs sleep region now :
  (∀ l less, sort_Slice l less ≡ₚ l) →
  (sleep ≤ Time.maxDuration)%Z →
  (Time.zeroTime + Time.maxDuration ≤ now)%Z →
  let s := InstanceState.newInstanceState sort_Slice cs sleep region in
  (∀ typ, asleep s now typ = false)
  ∧ (∀ c, c ∈ cs →
       ∃ c', Type' s now (Type_ c) = (c', true)
             ∧ c' ∈ cs ∧ Type_ c' = Type_ c)
  ∧ ∀ need,
      InstanceState.Available s need = true ↔
      ∃ c, c ∈ cs ∧ Selector.Available (Resources c) need = true.
Proof.
  intros Hsort Hsleep Hnow s.
  assert (Hawake : ∀ typ, asleep s now typ = false).
  { intros typ. unfold asleep, unavailableSince, Time.Since. simpl.
    rewrite lookup_empty. simpl. apply Z.ltb_ge.
    apply Sub_ge; [exact Hsleep | lia]. }
  split; [exact Hawake|]. split.
  - intros c Hc. unfold Type'. rewrite Hawake.
    destruct (Type_find_member c (configs s)) as (c' & Hf & Hin & Ht).
    { simpl. now rewrite Hsort. }
    exists c'. split; [exact Hf|]. split; [|exact Ht].
    simpl in Hin. now rewrite Hsort in Hin.
  - intros need. unfold InstanceState.Available. rewrite existsb_exists.
    simpl. split.
    + intros (c & Hc%list_elem_of_In & Ha). rewrite Hsort in Hc. eauto.
    + intros (c & Hc & Ha). exists c. split; [|exact Ha].
      apply list_elem_of_In. now rewrite Hsort.
Qed.

Lemma newInstanceState_awake_witness :
  let s := InstanceState.newInstanceState (λ l _, l) [A; B] (5 * Time.Minute)
                                          "us-west-2" in
  (∀ typ, asleep s 0 typ = false)
  ∧ (∀ c, c ∈ [A; B] →
       ∃ c', Type' s 0 (Type_ c) = (c', true)
             ∧ c' ∈ [A; B] ∧ Type_ c' = Type_ c)
  ∧ ∀ need,
      InstanceState.Available s need = true ↔
      ∃ c, c ∈ [A; B] ∧ Selector.Available (Resources c) need = true.
Proof.
  apply (newInstanceState_awake (λ l _, l) [A; B] (5 * Time.Minute)
           "us-west-2" 0).
  - reflexivity.
  - vm_compute. discriminate.
  - vm_compute. discriminate.
Defined.

(** *** [Available] and the selectors *)

(** X8.  [Available] is necessary for a selection: when [MinAvailable] or
    [MaxAvailable] answers ok for a [need] that asks for something (the
    empty resources do not cover it), [Available] answers true for it. *)
Theorem Available_necessary
    (ScaledDistance : reflow_Resources → reflow_Resources → float)
    s now need spot c :
  MinAvailable s now need spot = (c, true)
  ∨ MaxAvailable ScaledDistance s now need spot = (c, true) →
  Selector.Available ∅ need = false →
  InstanceState.Available s need = true.
Proof.
  intros H Hneed.
  assert (Hc : c = zeroConfig
               ∨ c ∈ configs s ∧ Selector.Available (Resources c) need = true).
  { destruct H as [H|H].
    - pose proof (MinAvailable_result s now need spot) as Hr.
      rewrite H in Hr. simpl in Hr.
      destruct Hr as [-> | [Hin Hv]]; [now left | right].
      split; [exact Hin | now apply viable_Available in Hv].
    - pose proof (MaxAvailable_result ScaledDistance s now need spot) as Hr.
      rewrite H in Hr. simpl in Hr.
      destruct Hr as [-> | [Hin (_ & _ & Hv)]]; [now left | now right]. }
  destruct Hc as [-> | [Hin Ha]].
  - exfalso. destruct H as [H|H].
    + pose proof (MinAvailable_ok s now need spot) as Hok.
      rewrite H in Hok. simpl in Hok. congruence.
    + unfold MaxAvailable in H.
      destruct (fold_left _ _ _) as [best distance].
      injection H as -> H. simpl in H. congruence.
  - unfold InstanceState.Available. apply existsb_exists.
    exists c. split; [now apply list_elem_of_In | exact Ha].
Qed.

Lemma Available_necessary_witness :
  InstanceState.Available (catalog [A; B]) need = true.
Proof.
  apply (Available_necessary (λ _ _, 0%float) (catalog [A; B]) 0 need false B).
  - left. vm_compute. reflexivity.
  - vm_compute. reflexivity.
Defined.

End InstanceStateFacts.

Module GoFacts.
Import Errors Instance Launch LaunchProps LaunchFacts GoProps.

Lemma attempts_snoc tr s : attempts (tr ++ [Attempt s]) = attempts tr ++ [s].
Proof. unfold attempts. now rewrite omap_app. Qed.

Lemma attempts_sleep tr d : attempts (tr ++ [Sleep d]) = attempts tr.
Proof. unfold attempts. rewrite omap_app. simpl. apply app_nil_r. Qed.

Lemma in_order_snoc l x :
  in_order l → Forall (λ s, follows s x) l → in_order (l ++ [x]).
Proof.
  induction l as [|s l IH]; simpl; intros Ho Hf.
  { split; [constructor | trivial]. }
  destruct Ho as [Hs Ho]. inversion Hf as [|? ? Hsx Hf']; subst.
  split; [|now apply IH].
  apply Forall_app. split; [exact Hs | now constructor].
Qed.

Lemma in_order_app_r l1 l2 : in_order (l1 ++ l2) → in_order l2.
Proof.
  induction l1 as [|s l1 IH]; simpl; [trivial|]. intros [_ H]. now apply IH.
Qed.

Lemma adjustDisks_keeps inst :
  Spot (adjustDisks inst) = Spot inst
  ∧ SpotProbeDepth (adjustDisks inst) = SpotProbeDepth inst
  ∧ err (adjustDisks inst) = err inst
  ∧ ec2inst (adjustDisks inst) = ec2inst inst.
Proof.
  unfold adjustDisks. destruct (minDiskSizes !! EBSType inst); repeat split.
Qed.

Ltac cycles :=
  eexists; split; [reflexivity|]; unfold cycling; cbn;
  repeat split; try assumption; try lia; try discriminate;
  try (intros _; eauto).

Section Go.

Context {digest_Digest : Type} `{EqDecision digest_Digest}.
Variable digest_Parse : string → digest_Digest + error.
Variable imageDigest : digest_Digest * option error.

(** An iteration after which the loop goes on has attempted the state it was
    in, and stays in it, goes to the next one, leaves [stateDescribeTags]
    for the end or goes back from [stateUpdateImage] to
    [stateWaitReflowlet]. *)
Lemma body_Next_step a v v' :
  body digest_Parse imageDigest a v = Next v' →
  attempts (trace v') = attempts (trace v) ++ [state v]
  ∧ (state v' = state v ∨ state v' = S (state v)
     ∨ (state v = stateDescribeTags ∧ state v' = S stateDone)
     ∨ (state v = stateUpdateImage ∧ state v' = stateWaitReflowlet)).
Proof.
  unfold body.
  destruct (switch _ _ _ _) as [v1|v1|] eqn:Hs; [| |discriminate].
  - apply switch_Falls in Hs as (Ht & _ & _ & Hcase). simpl in Ht, Hcase.
    unfold retry. destruct (err (i v1)) as [e|] eqn:He.
    + destruct (n v1 =? maxTries)%nat; [discriminate|].
      destruct (Is Fatal _); [discriminate|].
      destruct (Is Unavailable _); [discriminate|].
      intros [= <-]. simpl. rewrite attempts_sleep, Ht, attempts_snoc.
      split; [reflexivity|].
      destruct Hcase as [[-> _] | (_ & _ & Hnone & _)]; [now left | congruence].
    + intros [= <-]. simpl. rewrite Ht, attempts_snoc.
      split; [reflexivity|].
      destruct Hcase as [[-> _] | (-> & -> & _)]; auto.
  - apply switch_Continues in Hs as (Ht & _ & _ & Hst & Hst1).
    simpl in Ht, Hst. intros [= <-]. rewrite Ht, attempts_snoc.
    split; [reflexivity|]. auto.
Qed.

Lemma ordered_attempt v st :
  ordered v → (state v < stateDone)%nat →
  (st = state v ∨ st = S (state v)
   ∨ (state v = stateDescribeTags ∧ st = S stateDone)
   ∨ (state v = stateUpdateImage ∧ st = stateWaitReflowlet)) →
  in_order (attempts (trace v) ++ [state v])
  ∧ Forall (λ s, follows s st ∧ (s < stateDone)%nat)
           (attempts (trace v) ++ [state v])
  ∧ ∀ s, (s < st)%nat → (s ≤ stateDescribeTags)%nat →
         s ∈ attempts (trace v) ++ [state v].
Proof.
  intros (Ho & Hf & Hk) Hlt Hst. split; [|split].
  - apply in_order_snoc; [exact Ho|].
    eapply Forall_impl; [exact Hf|]. now intros s [Hs _].
  - apply Forall_app. split.
    + eapply Forall_impl; [exact Hf|]. intros s [[Hs|Hs] Hd]; unfold follows.
      * split; [|exact Hd].
        destruct Hst as [->|[->|[[_ ->]|[_ ->]]]]; lia.
      * split; [|exact Hd].
        destruct Hst as [->|[->|[[_ ->]|[_ ->]]]]; lia.
    + constructor; [|constructor]. split; [|exact Hlt]. unfold follows.
      destruct Hst as [->|[->|[[_ ->]|[_ ->]]]]; lia.
  - intros s Hs H6. apply elem_of_app.
    destruct (decide (s = state v)) as [->|Hne]; [right; left|left].
    apply Hk; [|exact H6].
    destruct Hst as [->|[->|[[Hv ->]|[Hv ->]]]]; lia.
Qed.

Lemma loop_ordered world v v' :
  ordered v →
  loop digest_Parse imageDigest world v = Some (Returned v') →
  in_order (attempts (trace v'))
  ∧ Forall (λ s, (s < stateDone)%nat) (attempts (trace v'))
  ∧ ((stateDone ≤ state v')%nat →
     ∀ s, (s ≤ stateDescribeTags)%nat → s ∈ attempts (trace v')).
Proof.
  revert v. induction world as [|a world IH]; intros v Hv; simpl;
    [discriminate|].
  assert (Hfin : ∀ u, trace (finish a u) = trace u
                      ∧ state (finish a u) = state u).
  { intros u. unfold finish. now destruct (err (i u)). }
  assert (Hend : ∀ u, ordered u →
    in_order (attempts (trace u))
    ∧ Forall (λ s, (s < stateDone)%nat) (attempts (trace u))
    ∧ ((stateDone ≤ state u)%nat →
       ∀ s, (s ≤ stateDescribeTags)%nat → s ∈ attempts (trace u))).
  { intros u (Ho & Hf & Hk). split; [exact Ho|]. split.
    - eapply Forall_impl; [exact Hf|]. now intros s [_ Hs].
    - intros Hd s Hs. apply Hk; [lia | exact Hs]. }
  destruct ((state v <? stateDone)%nat && bool_decide (ctxErr a = None))
    eqn:Econd.
  - apply andb_true_iff in Econd as [Hlt%Nat.ltb_lt _].
    destruct (body _ _ a v) as [v1|v1|v1|] eqn:Hb.
    + apply IH. apply body_Next_step in Hb as [Ht Hst].
      unfold ordered. rewrite Ht. now apply ordered_attempt.
    + intros [= <-]. destruct (Hfin v1) as [-> ->].
      destruct (body_aborts digest_Parse imageDigest a v v1 (or_introl Hb)) as (-> & -> & _).
      rewrite attempts_snoc.
      destruct (ordered_attempt v (state v) Hv Hlt (or_introl eq_refl))
        as (Ho & Hf & Hk).
      split; [exact Ho|]. split.
      * eapply Forall_impl; [exact Hf|]. now intros s [_ Hs].
      * intros Hd. lia.
    + intros [= <-].
      destruct (body_aborts digest_Parse imageDigest a v v1 (or_intror Hb)) as (-> & -> & _).
      rewrite attempts_snoc.
      destruct (ordered_attempt v (state v) Hv Hlt (or_introl eq_refl))
        as (Ho & Hf & Hk).
      split; [exact Ho|]. split.
      * eapply Forall_impl; [exact Hf|]. now intros s [_ Hs].
      * intros Hd. lia.
    + discriminate.
  - intros [= <-]. destruct (Hfin v) as [-> ->]. now apply Hend.
Qed.

Lemma ordered_start inst :
  ordered {| i := adjustDisks inst; state := stateCapacity; id := "";
             dns := ""; n := 0; d := 5 * Time.Second; trace := [] |}.
Proof.
  unfold ordered. simpl. split; [trivial|]. split; [constructor|].
  intros s Hs. lia.
Qed.


Lemma loop_success world v v' :
  loop digest_Parse imageDigest world v = Some (Returned v') →
  err (i v') = None → (stateDone ≤ state v')%nat.
Proof.
  revert v. induction world as [|a world IH]; intros v; simpl;
    [discriminate|].
  destruct ((state v <? stateDone)%nat && bool_decide (ctxErr a = None))
    eqn:Econd.
  - destruct (body _ _ a v) as [v1|v1|v1|] eqn:Hb.
    + apply IH.
    + intros [= <-] Herr. exfalso.
      apply (body_failed digest_Parse imageDigest a v v1); [now left|].
      unfold finish in Herr.
      destruct (err (i v1)) eqn:E; [congruence | reflexivity].
    + intros [= <-] Herr. exfalso.
      now apply (body_failed digest_Parse imageDigest a v v1); [right|].
    + discriminate.
  - intros [= <-] Herr.
    assert (Hst : state (finish a v) = state v).
    { unfold finish. now destruct (err (i v)). }
    rewrite Hst.
    apply andb_false_iff in Econd as [Hlt%Nat.ltb_ge | Hctx]; [exact Hlt|].
    exfalso. apply bool_decide_eq_false in Hctx.
    unfold finish in Herr. destruct (err (i v)) eqn:E; [congruence|].
    simpl in Herr. destruct (ctxErr a); [discriminate | now apply Hctx].
Qed.

(** X10.  When [Go] returns with [Err() == nil], it is past [stateDone]
    and it has attempted every state from [stateCapacity] to
    [stateDescribeTags]: the instance was launched, tagged, waited for and
    described, and its reflowlet was reached. *)
Theorem Go_success_path world inst v :
  Go digest_Parse imageDigest world inst = Some (Returned v) →
  Err (i v) = None →
  (stateDone ≤ state v)%nat
  ∧ ∀ s, (s ≤ stateDescribeTags)%nat → Attempt s ∈ trace v.
Proof.
  unfold Go, Err. intros Hgo Herr.
  pose proof (loop_success _ _ _ Hgo Herr) as Hdone.
  split; [exact Hdone|].
  destruct (loop_ordered _ _ _ (ordered_start inst) Hgo) as (_ & _ & Hk).
  intros s Hs. specialize (Hk Hdone s Hs).
  apply list_elem_of_omap in Hk as (e & He & Hes).
  destruct e; [|discriminate]. now injection Hes as ->.
Qed.

(** The loop, once it has used up the answers [pre] without returning, goes
    on from some variables with the answers that follow. *)
Lemma loop_app pre v :
  loop digest_Parse imageDigest pre v = None →
  ∃ v', ∀ world, loop digest_Parse imageDigest (pre ++ world) v
                 = loop digest_Parse imageDigest world v'.
Proof.
  revert v. induction pre as [|a pre IH]; intros v; simpl.
  { intros _. now exists v. }
  destruct (_ && _); [|discriminate].
  destruct (body _ _ a v) as [v1|v1|v1|]; try discriminate.
  apply IH.
Qed.

(** X11.  When the context is done at a test of the loop, [Go] returns
    there with an error, whatever was achieved before (even if the instance
    had just been verified), and it makes no use of the answers that
    follow. *)
Theorem Go_cancelled pre a rest inst e :
  Go digest_Parse imageDigest pre inst = None →
  ctxErr a = Some e →
  ∃ v, Go digest_Parse imageDigest (pre ++ a :: rest) inst
       = Some (Returned v)
       ∧ Go digest_Parse imageDigest (pre ++ [a]) inst = Some (Returned v)
       ∧ Err (i v) ≠ None.
Proof.
  unfold Go. intros Hpre Hctx.
  destruct (loop_app pre _ Hpre) as [v' Hv'].
  rewrite !Hv'. simpl. rewrite Hctx.
  rewrite bool_decide_false by discriminate. rewrite andb_false_r.
  exists (finish a v'). split; [reflexivity|]. split; [reflexivity|].
  unfold finish, Err. destruct (err (i v')) eqn:E.
  - congruence.
  - simpl. rewrite Hctx. discriminate.
Qed.

(** *** The capacity probe *)

(** X13.  For a spot launch that probes for capacity, a dry run that is
    answered by RequestCanceled, or by the deadline of the context, counts
    as no capacity: [Go] returns at once with an error of kind Unavailable,
    after the one attempt of [stateCapacity], and nothing is launched. *)
Theorem Go_probe_negative DE world a inst probe ctx :
  Spot inst = true → SpotProbeDepth inst ≠ 0%Z → ctxErr a = None →
  ec2HasCapacity a = Capacity.ec2HasCapacity DE (Some probe) ctx →
  awsCode probe = Some "RequestCanceled"
  ∨ (awsCode probe = None ∧ probe = DE) →
  ∃ v, Go digest_Parse imageDigest (a :: world) inst = Some (Returned v)
       ∧ Err (i v) = Some (E Unavailable "ec2 capacity is likely exhausted")
       ∧ trace v = [Attempt stateCapacity]
       ∧ id v = "".
Proof.
  intros Hspot Hdepth Hctx Hcap Hprobe.
  assert (Hneg : ec2HasCapacity a = (false, None)).
  { rewrite Hcap. unfold Capacity.ec2HasCapacity.
    destruct Hprobe as [-> | [-> ->]]; [reflexivity|].
    now rewrite bool_decide_true. }
  destruct (adjustDisks_keeps inst) as (Hs & Hd & _ & _).
  unfold Go. cbn [loop state]. rewrite Hctx. cbn [Nat.ltb Nat.leb andb].
  rewrite bool_decide_true by reflexivity.
  unfold body, switch. cbn [state log i].
  rewrite Hs, Hspot, Hd. apply Z.eqb_neq in Hdepth. rewrite Hdepth.
  cbn [negb orb]. rewrite Hneg. cbn [negb].
  eexists. split; [reflexivity|]. repeat split.
Qed.

(** *** The update cycle *)

Lemma body_cycling a v :
  updating digest_Parse imageDigest a → cycling v →
  ∃ v', body digest_Parse imageDigest a v = Next v' ∧ cycling v'.
Proof.
  intros [Hctx [b Hb] [id' Hid] Htags Hwait
            (inst & name & remote & Hdesc & Hdns & Hname & Hver & Hdig & Hparse
             & Hne)
            Hlocal Hnew Hconf Hrepo Hup Hinst]
         (Herr & Hspot & Hlt & H7).
  apply String.eqb_neq in Hname, Hver, Hdig.
  destruct imageDigest as [localDigest localErr] eqn:Himg.
  simpl in Hlocal, Hne. subst localErr.
  unfold body, switch. cbn [state log i].
  destruct (state v) as [|[|[|[|[|[|[|[|st]]]]]]]] eqn:Hst; [..|lia].
  - rewrite Hspot. cbn [negb orb]. unfold retry. cbn [i log]. rewrite Herr.
    cycles.
  - unfold launch. rewrite Hb.
    change (Spot (set_userData b (i v))) with (Spot (i v)). rewrite Hspot.
    unfold ec2RunInstance. rewrite Hid. unfold retry. cbn.
    cycles.
  - rewrite Htags. unfold retry. cbn.
    cycles.
  - rewrite Hwait. unfold retry. cbn.
    cycles.
  - rewrite Hdesc. cbn [describeInstance]. rewrite Hdns, Hname.
    unfold retry. cbn.
    cycles.
  - rewrite Hnew, Hconf. unfold retry. cbn.
    cycles.
  - rewrite Hdesc. cbn [describeInstance]. rewrite Hver, Hdig. cbn [orb].
    rewrite Hparse. rewrite bool_decide_false by exact Hne.
    unfold retry. cbn.
    cycles.
  - destruct (H7 eq_refl) as (inst0 & name0 & -> & ->).
    rewrite Hnew, Hrepo, Hup, Hinst.
    cycles.
Qed.

Lemma loop_cycling a v k :
  updating digest_Parse imageDigest a → cycling v →
  loop digest_Parse imageDigest (replicate k a) v = None.
Proof.
  intros Ha. revert v. induction k as [|k IH]; intros v Hv; [reflexivity|].
  cbn [replicate loop].
  destruct Hv as (Herr & Hspot & Hlt & H7).
  apply Nat.ltb_lt in Hlt as Hlt'. rewrite Hlt'.
  rewrite (updating_ctx _ _ _ Ha). rewrite bool_decide_true by reflexivity.
  cbn [andb].
  destruct (body_cycling a v Ha) as (v' & -> & Hv'); [now repeat split|].
  now apply IH.
Qed.

(** X14.  The image update has no bound: for an on-demand launch, as long
    as every call succeeds and the reflowlet reports a digest that is not
    the controller's, [Go] goes round from [stateWaitReflowlet] to
    [stateUpdateImage] and does not return, however many answers it is
    given. *)
Theorem Go_keeps_updating a inst k :
  updating digest_Parse imageDigest a →
  Spot inst = false → Err inst = None →
  Go digest_Parse imageDigest (replicate k a) inst = None.
Proof.
  intros Ha Hspot Herr. unfold Go. apply loop_cycling; [exact Ha|].
  destruct (adjustDisks_keeps inst) as (Hs & _ & He & _).
  unfold cycling. cbn. rewrite Hs, He.
  repeat split; try assumption; try lia; try discriminate.
Qed.

End Go.

(** X12.  [ec2HasCapacity] answers true exactly when the dry run is refused
    with the code DryRunOperation, and then without an error; a dry run that
    is answered without error is an error; a dry run that is answered by
    RequestCanceled or by [context.DeadlineExceeded] is the answer false
    without an error; and any other AWS error is returned as it is. *)
Theorem ec2HasCapacity_answers DE (r ctx : option error) :
  ((Capacity.ec2HasCapacity DE r ctx).1 = true ↔
   ∃ e, r = Some e ∧ awsCode e = Some "DryRunOperation")
  ∧ ((Capacity.ec2HasCapacity DE r ctx).1 = true →
     (Capacity.ec2HasCapacity DE r ctx).2 = None)
  ∧ (r = None → (Capacity.ec2HasCapacity DE r ctx).2 ≠ None)
  ∧ (∀ e, r = Some e →
       awsCode e = Some "RequestCanceled" ∨ (awsCode e = None ∧ e = DE) →
       Capacity.ec2HasCapacity DE r ctx = (false, None))
  ∧ (∀ e code, r = Some e → awsCode e = Some code →
       code ≠ "DryRunOperation" → code ≠ "RequestCanceled" →
       Capacity.ec2HasCapacity DE r ctx = (false, Some e)).
Proof.
  unfold Capacity.ec2HasCapacity. repeat split.
  - destruct r as [e|]; [|discriminate].
    destruct (awsCode e) as [code|] eqn:Hc.
    + destruct (String.eqb_spec code "DryRunOperation") as [->|Hne].
      * eauto.
      * destruct (String.eqb code "RequestCanceled"); discriminate.
    + destruct (bool_decide _); [discriminate|]. destruct ctx; discriminate.
  - intros (e & -> & ->). reflexivity.
  - destruct r as [e|]; [|discriminate].
    destruct (awsCode e) as [code|].
    + destruct (String.eqb code "DryRunOperation"); [reflexivity|].
      destruct (String.eqb code "RequestCanceled"); discriminate.
    + destruct (bool_decide _); [discriminate|]. destruct ctx; discriminate.
  - intros ->. discriminate.
  - intros e -> [-> | [-> ->]]; [reflexivity|]. now rewrite bool_decide_true.
  - intros e code -> -> H1 H2.
    apply String.eqb_neq in H1, H2. now rewrite H1, H2.
Qed.

(** *** Runs *)


Lemma Go_success_path_witness :
  ∃ v, Go LaunchExamples.Parse LaunchExamples.local LaunchExamples.smooth
          LaunchExamples.onDemand = Some (Returned v)
       ∧ (stateDone ≤ state v)%nat
       ∧ ∀ s, (s ≤ stateDescribeTags)%nat → Attempt s ∈ trace v.
Proof.
  eexists. split; [vm_compute; reflexivity|].
  apply (Go_success_path LaunchExamples.Parse LaunchExamples.local
           LaunchExamples.smooth LaunchExamples.onDemand).
  - vm_compute. reflexivity.
  - reflexivity.
Defined.

Lemma Go_cancelled_witness :
  ∃ v, Go LaunchExamples.Parse LaunchExamples.local
          (replicate 3 (LaunchExamples.answer "sha256:new" None)
           ++ cancelled :: LaunchExamples.smooth)
          LaunchExamples.onDemand = Some (Returned v)
       ∧ Go LaunchExamples.Parse LaunchExamples.local
            (replicate 3 (LaunchExamples.answer "sha256:new" None)
             ++ [cancelled])
            LaunchExamples.onDemand = Some (Returned v)
       ∧ Err (i v) ≠ None.
Proof.
  apply (Go_cancelled LaunchExamples.Parse LaunchExamples.local
           (replicate 3 (LaunchExamples.answer "sha256:new" None))
           cancelled LaunchExamples.smooth LaunchExamples.onDemand
           (Errorf "context canceled")).
  - vm_compute. reflexivity.
  - reflexivity.
Defined.

Lemma Go_probe_negative_witness :
  ∃ v, Go LaunchExamples.Parse LaunchExamples.local
          (probed (awserr "RequestCanceled" "request context canceled")
           :: LaunchExamples.smooth)
          probing = Some (Returned v)
       ∧ Err (i v) = Some (E Unavailable "ec2 capacity is likely exhausted")
       ∧ trace v = [Attempt stateCapacity]
       ∧ id v = "".
Proof.
  apply (Go_probe_negative LaunchExamples.Parse LaunchExamples.local
           DeadlineExceeded LaunchExamples.smooth
           (probed (awserr "RequestCanceled" "request context canceled"))
           probing (awserr "RequestCanceled" "request context canceled")
           None).
  - reflexivity.
  - discriminate.
  - reflexivity.
  - reflexivity.
  - left. reflexivity.
Defined.

Lemma Go_keeps_updating_witness :
  Go LaunchExamples.Parse LaunchExamples.local
     (replicate 100 (LaunchExamples.answer "sha256:old" None))
     LaunchExamples.onDemand = None.
Proof.
  apply (Go_keeps_updating LaunchExamples.Parse LaunchExamples.local
           (LaunchExamples.answer "sha256:old" None) LaunchExamples.onDemand
           100).
  - constructor; try reflexivity.
    + eexists. reflexivity.
    + eexists. reflexivity.
    + eexists _, _, _. split; [reflexivity|]. split; [reflexivity|].
      repeat split; try discriminate; try reflexivity.
  - reflexivity.
  - reflexivity.
Defined.

End GoFacts.

Module DisksFacts.
Import Errors Instance Launch Disks.

Lemma int64_small (z : Z) : (- 2 ^ 63 ≤ z < 2 ^ 63)%Z → Time.int64 z = z.
Proof.
  intros H. unfold Time.int64.
  rewrite Z.mod_small by lia. lia.
Qed.

(** What the adjustment at the start of [Go] establishes. *)
Lemma adjustDisks_bounds i :
  (0 ≤ EBSSize i < 2 ^ 63)%Z → (NEBS i < 2 ^ 63)%Z →
  let i' := adjustDisks i in
  EBSType i' = EBSType i
  ∧ (1 ≤ NEBS i' < 2 ^ 63)%Z
  ∧ (0 ≤ EBSSize i' < 2 ^ 63)%Z
  ∧ (EBSSize i ≤ EBSSize i')%Z
  ∧ ∀ min, minDiskSizes !! EBSType i = Some min →
           (min * NEBS i' ≤ EBSSize i')%Z.
Proof.
  intros Hsize Hn. unfold adjustDisks.
  destruct (minDiskSizes !! EBSType i) as [min|] eqn:Hmin; simpl.
  - assert (Hm : min = 500%Z ∨ min = 335%Z).
    { unfold minDiskSizes in Hmin.
      apply lookup_insert_Some in Hmin as [[_ <-] | [_ Hmin]]; [now left|].
      apply lookup_singleton_Some in Hmin as [_ <-]. now right. }
    split; [reflexivity|].
    set (size := if (EBSSize i <? min)%Z then min else EBSSize i).
    set (nebs := if (NEBS i <? 1)%Z then 1%Z else NEBS i).
    assert (Hs : (min ≤ size ∧ EBSSize i ≤ size ∧ size < 2 ^ 63)%Z).
    { unfold size. destruct (Z.ltb_spec (EBSSize i) min); lia. }
    assert (Hnb : (1 ≤ nebs < 2 ^ 63)%Z).
    { unfold nebs. destruct (Z.ltb_spec (NEBS i) 1); lia. }
    assert (Hq : (1 ≤ size / min ∧ min * (size / min) ≤ size)%Z).
    { split.
      - apply Z.div_le_lower_bound; lia.
      - apply Z.mul_div_le. lia. }
    destruct (Z.ltb_spec (size / min) nebs).
    + repeat split; try lia. intros ? [= <-]. lia.
    + repeat split; try lia. intros ? [= <-]. nia.
  - split; [reflexivity|].
    destruct (Z.ltb_spec (NEBS i) 1); repeat split; try lia; discriminate.
Qed.

(** X15.  After the adjustment [Go] makes, [ebsDeviceMappings] requests the
    root volume and [NEBS] data volumes, at least one, all of the type
    configured; each has the size [EBSSize / NEBS] rounded down, so that
    together they do not exceed [EBSSize] and fall short of it by less than
    [NEBS]; and no data volume is smaller than the smallest size acceptable
    for its type. *)
Theorem ebsDeviceMappings_sizes i :
  (0 ≤ EBSSize i < 2 ^ 63)%Z → (NEBS i < 2 ^ 63)%Z →
  let i' := adjustDisks i in
  ∃ root data,
    ebsDeviceMappings i' = root :: data
    ∧ DeviceName root = "/dev/xvda"
    ∧ Z.of_nat (length data) = NEBS i' ∧ (1 ≤ NEBS i')%Z
    ∧ ∀ m, m ∈ data →
        VolumeType m = EBSType i
        ∧ (VolumeSize m * NEBS i' ≤ EBSSize i'
           < (VolumeSize m + 1) * NEBS i')%Z
        ∧ ∀ min, minDiskSizes !! EBSType i = Some min →
                 (min ≤ VolumeSize m)%Z.
Proof.
  intros Hsize Hn i'.
  destruct (adjustDisks_bounds i Hsize Hn) as (Ht & Hn' & Hs' & _ & Hmin).
  fold i' in Ht, Hn', Hs', Hmin.
  unfold ebsDeviceMappings. eexists _, _. split; [reflexivity|].
  split; [reflexivity|]. split.
  { rewrite length_fmap, length_seqZ. lia. }
  split; [lia|].
  intros m (idx & -> & _)%list_elem_of_fmap. cbn.
  rewrite int64_small by lia.
  rewrite Z.quot_div_nonneg by lia.
  split; [exact Ht|]. split.
  - split.
    + rewrite Z.mul_comm. apply Z.mul_div_le. lia.
    + pose proof (Z.mul_succ_div_gt (EBSSize i') (NEBS i') ltac:(lia)). lia.
  - intros min Hm. apply Z.div_le_lower_bound; [lia|].
    specialize (Hmin min Hm). lia.
Qed.

Lemma ebsDeviceMappings_sizes_witness :
  ∃ root data,
    ebsDeviceMappings (adjustDisks striped) = root :: data
    ∧ DeviceName root = "/dev/xvda"
    ∧ Z.of_nat (length data) = NEBS (adjustDisks striped)
    ∧ (1 ≤ NEBS (adjustDisks striped))%Z
    ∧ ∀ m, m ∈ data →
        VolumeType m = EBSType striped
        ∧ (VolumeSize m * NEBS (adjustDisks striped)
           ≤ EBSSize (adjustDisks striped)
           < (VolumeSize m + 1) * NEBS (adjustDisks striped))%Z
        ∧ ∀ min, minDiskSizes !! EBSType striped = Some min →
                 (min ≤ VolumeSize m)%Z.
Proof.
  apply (ebsDeviceMappings_sizes striped).
  - vm_compute. split; [discriminate | reflexivity].
  - vm_compute. reflexivity.
Defined.

(** *** The names of the devices *)

Lemma Sprintf_c_ascii (c : Z) :
  (0 ≤ c < 128)%Z → Sprintf_c c = byte c.
Proof.
  intros H. unfold Sprintf_c, EncodeRune, RuneError.
  rewrite Z.mod_small by lia.
  destruct (Z.ltb_spec 1114111 c); [lia|].
  destruct (Z.leb_spec 55296 c); [lia|]. cbn [andb].
  destruct (Z.ltb_spec c 128); [reflexivity | lia].
Qed.

Lemma byte_inj (a b : Z) :
  (0 ≤ a < 256)%Z → (0 ≤ b < 256)%Z → byte a = byte b → a = b.
Proof.
  intros Ha Hb H. unfold byte in H. injection H as H.
  apply (f_equal N_of_ascii) in H.
  rewrite !N_ascii_embedding in H by lia. lia.
Qed.

Lemma device_letter (idx : Z) :
  (0 ≤ idx < 30)%Z →
  Sprintf_c (Time.int64 (98 + idx)) = byte (98 + idx).
Proof.
  intros H. rewrite int64_small by lia. apply Sprintf_c_ascii. lia.
Qed.

(** X16.  With at most 25 data volumes, the devices [ebsDeviceMappings]
    names are /dev/xvda for the root volume and /dev/xvdb, /dev/xvdc, ... up
    to /dev/xvdz for the data volumes, each once.  Nothing limits [NEBS] to
    25: the 26th data volume is named with the character after z. *)
Theorem ebsDeviceMappings_names i :
  ((NEBS i ≤ 25)%Z →
   NoDup (DeviceName <$> ebsDeviceMappings i)
   ∧ ∀ k m, ebsDeviceMappings i !! S k = Some m →
       (98 + Z.of_nat k ≤ 122)%Z
       ∧ DeviceName m = "/dev/xvd" +:+ byte (98 + Z.of_nat k))
  ∧ ((25 < NEBS i)%Z →
     ∃ m, ebsDeviceMappings i !! 26%nat = Some m
          ∧ DeviceName m = "/dev/xvd{").
Proof.
  unfold ebsDeviceMappings. split.
  - intros Hn.
    assert (Hname : ∀ idx, idx ∈ seqZ 0 (NEBS i) →
      "/dev/xvd" +:+ Sprintf_c (Time.int64 (98 + idx))
      = "/dev/xvd" +:+ byte (98 + idx)).
    { intros idx Hidx%elem_of_seqZ. rewrite device_letter by lia.
      reflexivity. }
    split.
    + rewrite fmap_cons. cbn [DeviceName]. apply NoDup_cons. split.
      * rewrite <- list_fmap_compose.
        intros (idx & Heq & Hidx)%list_elem_of_fmap. cbn in Heq.
        rewrite (Hname idx Hidx) in Heq.
        apply elem_of_seqZ in Hidx.
        injection Heq as Heq. apply (f_equal N_of_ascii) in Heq.
        rewrite N_ascii_embedding in Heq by lia. cbn in Heq. lia.
      * rewrite <- list_fmap_compose. apply NoDup_fmap_2_strong;
          [|apply NoDup_seqZ].
        intros x y Hx Hy Heq. cbn in Heq.
        rewrite (Hname x Hx), (Hname y Hy) in Heq.
        apply elem_of_seqZ in Hx. apply elem_of_seqZ in Hy.
        assert (Hxy : (98 + x = 98 + y)%Z); [|lia].
        apply byte_inj; [lia | lia |].
        unfold byte in *. simpl in Heq. injection Heq as Heq.
        now rewrite Heq.
    + intros k m Hk. rewrite lookup_cons in Hk.
      rewrite list_lookup_fmap in Hk.
      destruct (seqZ 0 (NEBS i) !! k) as [idx|] eqn:Hidx; [|discriminate].
      apply lookup_seqZ in Hidx as [-> Hlt].
      injection Hk as <-. cbn [DeviceName].
      split; [lia|]. rewrite device_letter by lia. reflexivity.
  - intros Hn. eexists. rewrite lookup_cons.
    rewrite list_lookup_fmap.
    rewrite (lookup_seqZ_lt 0 (NEBS i) 25) by lia.
    split; [reflexivity|]. reflexivity.
Qed.

(** X17.  The devices [launch] has formatted are the data volumes
    [ebsDeviceMappings] requests, for an instance whose volumes are not
    exposed as NVMe devices: with one volume, the device xvdb; with more,
    the array md0 of the devices of all the data volumes, in their
    order. *)
Theorem launch_devices_mapped i :
  Selector.NVMe (Config i) = false → (1 ≤ NEBS i)%Z →
  ∃ name devices root data,
    launch_devices i = Some (name, devices)
    ∧ ebsDeviceMappings i = root :: data
    ∧ ((NEBS i = 1)%Z → name = "xvdb" ∧ DeviceName <$> data = ["/dev/xvdb"])
    ∧ ((1 < NEBS i)%Z →
       name = "md0"
       ∧ DeviceName <$> data = (λ dev, "/dev/" +:+ dev) <$> devices).
Proof.
  intros Hnvme Hn. unfold launch_devices, ebsDeviceMappings. rewrite Hnvme.
  destruct (Z.eqb_spec (NEBS i) 0); [lia|]. cbn [orb].
  destruct (Z.eqb_spec (NEBS i) 1) as [H1|H1].
  - eexists _, _, _, _. split; [reflexivity|]. split; [reflexivity|].
    split; [|lia]. intros _. split; [reflexivity|]. rewrite H1. reflexivity.
  - destruct (Z.ltb_spec (NEBS i) 0); [lia|].
    eexists _, _, _, _. split; [reflexivity|]. split; [reflexivity|].
    split; [lia|]. intros _. split; [reflexivity|].
    rewrite <- !list_fmap_compose. reflexivity.
Qed.

Lemma launch_devices_mapped_witness :
  ∃ name devices root data,
    launch_devices striped = Some (name, devices)
    ∧ ebsDeviceMappings striped = root :: data
    ∧ ((NEBS striped = 1)%Z →
       name = "xvdb" ∧ DeviceName <$> data = ["/dev/xvdb"])
    ∧ ((1 < NEBS striped)%Z →
       name = "md0"
       ∧ DeviceName <$> data = (λ dev, "/dev/" +:+ dev) <$> devices).
Proof.
  apply (launch_devices_mapped striped).
  - reflexivity.
  - vm_compute. discriminate.
Defined.

(** *** The tags of the reflowlet *)

Lemma update_tags_from tags version digest :
  let r := update_tags tags version digest in
  (r.1 = version ∨ ("reflowlet:version", r.1) ∈ tags)
  ∧ (r.2 = digest ∨ ("reflowlet:digest", r.2) ∈ tags).
Proof.
  revert version digest.
  induction tags as [|[key value] tags IH]; intros version digest; simpl.
  { auto. }
  set (version' := if String.eqb key "reflowlet:version" then value
                   else version).
  set (digest' := if String.eqb key "reflowlet:digest" then value
                  else digest).
  assert (Hv : version' = version ∨ (key, value) = ("reflowlet:version", version')).
  { unfold version'. destruct (String.eqb_spec key "reflowlet:version");
      [right; congruence | now left]. }
  assert (Hd : digest' = digest ∨ (key, value) = ("reflowlet:digest", digest')).
  { unfold digest'. destruct (String.eqb_spec key "reflowlet:digest");
      [right; congruence | now left]. }
  destruct (nonempty digest' && nonempty version'); simpl.
  - split.
    + destruct Hv as [->| ->]; [now left | right; left].
    + destruct Hd as [->| ->]; [now left | right; left].
  - destruct (IH version' digest') as [IHv IHd]. split.
    + destruct IHv as [->|Hin]; [|right; now right].
      destruct Hv as [->| ->]; [now left | right; left].
    + destruct IHd as [->|Hin]; [|right; now right].
      destruct Hd as [->| ->]; [now left | right; left].
Qed.

(** X18.  What [newReflowletInstance] reports comes from the tags: a
    Version that is not empty is the value of a tag reflowlet:version of
    the instance, and a Digest that is not empty the value of a tag
    reflowlet:digest; without such a tag the field is empty. *)
Theorem newReflowletInstance_from_tags inst :
  let ri := newReflowletInstance inst in
  (Version ri ≠ "" → ("reflowlet:version", Version ri) ∈ Tags inst)
  ∧ (Digest ri ≠ "" → ("reflowlet:digest", Digest ri) ∈ Tags inst)
  ∧ ("reflowlet:version" ∉ (Tags inst).*1 → Version ri = "")
  ∧ ("reflowlet:digest" ∉ (Tags inst).*1 → Digest ri = "").
Proof.
  unfold newReflowletInstance.
  pose proof (update_tags_from (Tags inst) "" "") as [Hv Hd].
  destruct (update_tags (Tags inst) "" "") as [version digest].
  simpl in *.
  assert (Hin : ∀ key value, (key, value) ∈ Tags inst → key ∈ (Tags inst).*1).
  { intros key value H. apply list_elem_of_fmap. now exists (key, value). }
  repeat split.
  - intros Hne. destruct Hv as [->|Hv]; [congruence | exact Hv].
  - intros Hne. destruct Hd as [->|Hd]; [congruence | exact Hd].
  - intros Hno. destruct Hv as [->|Hv]; [reflexivity|].
    exfalso. eapply Hno, Hin, Hv.
  - intros Hno. destruct Hd as [->|Hd]; [reflexivity|].
    exfalso. eapply Hno, Hin, Hd.
Qed.

Lemma update_tags_absent_version tags version digest :
  "reflowlet:version" ∉ tags.*1 →
  (update_tags tags version digest).1 = version.
Proof.
  revert version digest.
  induction tags as [|[key value] tags IH]; intros version digest Hno;
    simpl; [reflexivity|].
  rewrite fmap_cons, not_elem_of_cons in Hno. destruct Hno as [Hk Hno].
  simpl in Hk. apply not_eq_sym, String.eqb_neq in Hk. rewrite Hk.
  destruct (_ && _); [reflexivity | now apply IH].
Qed.

Lemma update_tags_absent_digest tags version digest :
  "reflowlet:digest" ∉ tags.*1 →
  (update_tags tags version digest).2 = digest.
Proof.
  revert version digest.
  induction tags as [|[key value] tags IH]; intros version digest Hno;
    simpl; [reflexivity|].
  rewrite fmap_cons, not_elem_of_cons in Hno. destruct Hno as [Hk Hno].
  simpl in Hk. apply not_eq_sym, String.eqb_neq in Hk. rewrite Hk.
  destruct (_ && _); [reflexivity | now apply IH].
Qed.

Lemma update_tags_once_version pre value post digest :
  "reflowlet:version" ∉ pre.*1 → "reflowlet:version" ∉ post.*1 →
  (update_tags (pre ++ ("reflowlet:version", value) :: post) "" digest).1
  = value.
Proof.
  intros Hpre Hpost. revert digest.
  induction pre as [|[key x] pre IH]; intros digest; simpl.
  - destruct (_ && _); [reflexivity|].
    now apply update_tags_absent_version.
  - rewrite fmap_cons, not_elem_of_cons in Hpre. destruct Hpre as [Hk Hpre].
    simpl in Hk. apply not_eq_sym, String.eqb_neq in Hk. rewrite Hk.
    cbn [nonempty String.eqb negb]. rewrite andb_false_r. now apply IH.
Qed.

Lemma update_tags_once_digest pre value post version :
  "reflowlet:digest" ∉ pre.*1 → "reflowlet:digest" ∉ post.*1 →
  (update_tags (pre ++ ("reflowlet:digest", value) :: post) version "").2
  = value.
Proof.
  intros Hpre Hpost. revert version.
  induction pre as [|[key x] pre IH]; intros version; simpl.
  - destruct (_ && _); [reflexivity|].
    now apply update_tags_absent_digest.
  - rewrite fmap_cons, not_elem_of_cons in Hpre. destruct Hpre as [Hk Hpre].
    simpl in Hk. apply not_eq_sym, String.eqb_neq in Hk. rewrite Hk.
    cbn [nonempty String.eqb negb andb]. now apply IH.
Qed.

(** X19.  A tag reflowlet:version, or reflowlet:digest, that the instance
    carries once is read back by [newReflowletInstance], wherever it is
    among the tags. *)
Theorem newReflowletInstance_reads inst pre key value post :
  Tags inst = pre ++ (key, value) :: post →
  key ∉ pre.*1 → key ∉ post.*1 →
  (key = "reflowlet:version" → Version (newReflowletInstance inst) = value)
  ∧ (key = "reflowlet:digest" → Digest (newReflowletInstance inst) = value).
Proof.
  intros Htags Hpre Hpost. unfold newReflowletInstance. rewrite Htags.
  split; intros ->.
  - pose proof (update_tags_once_version pre value post "" Hpre Hpost) as H.
    destruct (update_tags _ _ _) as [version digest]. exact H.
  - pose proof (update_tags_once_digest pre value post "" Hpre Hpost) as H.
    destruct (update_tags _ _ _) as [version digest]. exact H.
Qed.

Lemma newReflowletInstance_reads_witness :
  (("reflowlet:digest" : string) = "reflowlet:version" →
   Version (newReflowletInstance (LaunchExamples.described "sha256:new"))
   = "sha256:new")
  ∧ (("reflowlet:digest" : string) = "reflowlet:digest" →
     Digest (newReflowletInstance (LaunchExamples.described "sha256:new"))
     = "sha256:new").
Proof.
  apply (newReflowletInstance_reads (LaunchExamples.described "sha256:new")
           [("Name", "reflow"); ("reflowlet:version", "reflow1.2")]
           "reflowlet:digest" "sha256:new" []).
  - reflexivity.
  - intros H. repeat (apply elem_of_cons in H as [H|H]; [discriminate|]).
    inversion H.
  - intros H. inversion H.
Defined.

End DisksFacts.

Module SpotMoreFacts.
Import Errors Instance Spot SpotProps SpotFacts.

Lemma forallb_eqb_Forall (x : string) (cs : list string) :
  forallb (String.eqb x) cs = true → Forall (λ c, c = x) cs.
Proof.
  induction cs as [|c cs IH]; simpl; [constructor|].
  intros [Hc Hcs]%andb_true_iff. apply String.eqb_eq in Hc.
  constructor; [congruence | now apply IH].
Qed.

(** The acceptors answer success only for a request that is fulfilled. *)
Lemma accept_success cs :
  accept Acceptors cs = Some SuccessWaiterState → fulfilled cs.
Proof.
  unfold Acceptors, accept, matches; cbn [Matcher Expected State].
  destruct cs as [|c cs]; [discriminate|].
  destruct (forallb (String.eqb "fulfilled") (c :: cs)) eqn:E1.
  { intros _. split; [discriminate|]. left. now apply forallb_eqb_Forall. }
  destruct (forallb (String.eqb "request-canceled-and-instance-running")
                    (c :: cs)) eqn:E2.
  { intros _. split; [discriminate|]. right. now apply forallb_eqb_Forall. }
  repeat match goal with
         | |- context [if ?b then _ else _] => destruct b
         end; discriminate.
Qed.

Lemma WaitWithContext_success more attempt polls :
  WaitWithContext more attempt polls = None →
  ∃ k, (attempt ≤ k ≤ attempt + more)%nat
       ∧ accept Acceptors (codes (polls k)) = Some SuccessWaiterState.
Proof.
  revert attempt. induction more as [|more IH]; intros attempt;
    cbn [WaitWithContext].
  - destruct (accept Acceptors (codes (polls attempt))) as [[]|] eqn:E;
      try discriminate.
    intros _. exists attempt. split; [lia | exact E].
  - destruct (accept Acceptors (codes (polls attempt))) as [[]|] eqn:E;
      try discriminate.
    + intros _. exists attempt. split; [lia | exact E].
    + destruct (ctxDone (polls attempt)); [discriminate|].
      intros (k & Hk & Ha)%IH. exists k. split; [lia | exact Ha].
Qed.

(** X20.  [ec2RunSpotInstance] returns without error only with an instance
    ID that is not empty, after these calls and no other: the spot request,
    answered with one request whose ID is not empty; the wait, in which one
    of the at most 40 attempts found the request fulfilled; and the
    description of that request, answered with the instance ID. *)
Theorem ec2RunSpotInstance_success i now ec2 id :
  (ec2RunSpotInstance i now ec2).2 = (id, None) →
  id ≠ ""
  ∧ ∃ reqid,
      reqid ≠ ""
      ∧ RequestSpotInstances ec2 = inl [Some reqid]
      ∧ (∃ k, (1 ≤ k ≤ MaxAttempts)%nat ∧ fulfilled (codes (polls ec2 k)))
      ∧ DescribeSpotInstanceRequests ec2 = inl [Some id]
      ∧ (ec2RunSpotInstance i now ec2).1
        = [CallRequestSpotInstances (spotParams i now);
           CallDescribeSpotInstanceRequests reqid].
Proof.
  unfold ec2RunSpotInstance.
  destruct (RequestSpotInstances ec2) as [[|request [|]]|]; try discriminate.
  destruct (String.eqb_spec (StringValue request) "") as [|Hreq];
    [discriminate|].
  destruct (ec2WaitForSpotFulfillment (polls ec2)) eqn:Hw; [discriminate|].
  destruct (DescribeSpotInstanceRequests ec2) as [[|described [|]]|];
    try discriminate.
  destruct (String.eqb_spec (StringValue described) "") as [|Hid];
    [discriminate|].
  cbn [snd fst]. intros [= <-].
  split; [exact Hid|].
  destruct request as [reqid|]; [|now contradiction Hreq].
  destruct described as [id|]; [|now contradiction Hid].
  exists reqid. simpl in *. split; [exact Hreq|]. split; [reflexivity|].
  split; [|split; reflexivity].
  apply WaitWithContext_success in Hw as (k & Hk & Ha).
  exists k. split; [unfold MaxAttempts in *; lia | now apply accept_success].
Qed.

Lemma ec2RunSpotInstance_success_witness :
  ("i-1" : string) ≠ ""
  ∧ ∃ reqid,
      reqid ≠ ""
      ∧ RequestSpotInstances LaunchExamples.granted = inl [Some reqid]
      ∧ (∃ k, (1 ≤ k ≤ MaxAttempts)%nat
              ∧ fulfilled (codes (polls LaunchExamples.granted k)))
      ∧ DescribeSpotInstanceRequests LaunchExamples.granted
        = inl [Some "i-1"]
      ∧ (ec2RunSpotInstance (LaunchExamples.spotAt 0.2) 0
           LaunchExamples.granted).1
        = [CallRequestSpotInstances (spotParams (LaunchExamples.spotAt 0.2) 0);
           CallDescribeSpotInstanceRequests reqid].
Proof.
  apply (ec2RunSpotInstance_success (LaunchExamples.spotAt 0.2) 0
           LaunchExamples.granted "i-1").
  vm_compute. reflexivity.
Defined.

Lemma WaitWithContext_ext more attempt polls polls' :
  (∀ k, (attempt ≤ k ≤ attempt + more)%nat → polls k = polls' k) →
  WaitWithContext more attempt polls = WaitWithContext more attempt polls'.
Proof.
  revert attempt. induction more as [|more IH]; intros attempt Heq;
    cbn [WaitWithContext]; rewrite <- (Heq attempt) by lia; [reflexivity|].
  rewrite IH; [reflexivity|]. intros k Hk. apply Heq. lia.
Qed.

(** X21.  The wait polls at most 40 times: what it returns depends on what
    the attempts 1 to 40 observe and on nothing after them; and when none of
    the 40 attempts decides anything, with the context live in between, it
    fails with ResourceNotReady, which [ec2RunSpotInstance] returns as an
    error of kind Unavailable. *)
Theorem ec2WaitForSpotFulfillment_bounded :
  (∀ polls polls',
     (∀ k, (1 ≤ k ≤ MaxAttempts)%nat → polls k = polls' k) →
     ec2WaitForSpotFulfillment polls = ec2WaitForSpotFulfillment polls')
  ∧ (∀ polls,
       (∀ k, (1 ≤ k < MaxAttempts)%nat → quiet (polls k)) →
       accept Acceptors (codes (polls MaxAttempts)) = None →
       ec2WaitForSpotFulfillment polls
       = Some (awserr "ResourceNotReady" "exceeded wait attempts"))
  ∧ (∀ i now ec2 request,
       RequestSpotInstances ec2 = inl [Some request] → request ≠ "" →
       (∀ k, (1 ≤ k < MaxAttempts)%nat → quiet (polls ec2 k)) →
       accept Acceptors (codes (polls ec2 MaxAttempts)) = None →
       (ec2RunSpotInstance i now ec2).2
       = ("", Some (E Unavailable "exceeded wait attempts"))).
Proof.
  assert (Hex : ∀ polls,
    (∀ k, (1 ≤ k < MaxAttempts)%nat → quiet (polls k)) →
    accept Acceptors (codes (polls MaxAttempts)) = None →
    ec2WaitForSpotFulfillment polls
    = Some (awserr "ResourceNotReady" "exceeded wait attempts")).
  { intros polls Hq Ha.
    rewrite (wait_quiet polls (MaxAttempts - 1)).
    - replace (MaxAttempts - 1 - (MaxAttempts - 1))%nat with 0%nat by lia.
      change (1 + (MaxAttempts - 1))%nat with MaxAttempts.
      cbn [WaitWithContext]. now rewrite Ha.
    - unfold MaxAttempts. lia.
    - intros j Hj. apply Hq. unfold MaxAttempts in *. lia. }
  split; [|split; [exact Hex|]].
  - intros polls polls' Heq. unfold ec2WaitForSpotFulfillment.
    apply WaitWithContext_ext. intros k Hk. apply Heq.
    unfold MaxAttempts in *. lia.
  - intros i now ec2 request Hr Hne Hq Ha. unfold ec2RunSpotInstance.
    rewrite Hr. change (StringValue (Some request)) with request.
    apply String.eqb_neq in Hne. rewrite Hne.
    rewrite (Hex _ Hq Ha). reflexivity.
Qed.

End SpotMoreFacts.

Module RowsFacts.
Import Errors DynamoDB TaskDB TaskDBProps TaskDBFacts Rows.

(** *** [dates] *)

Lemma dates_loop_seq fuel B E :
  fuel = Z.to_nat (E - B + 1) →
  dates_loop fuel (B * Day) (E * Day)
  = (λ k, (B + k) * Day)%Z <$> seqZ 0 (E - B + 1).
Proof.
  revert B. induction fuel as [|fuel IH]; intros B Hf; simpl.
  { rewrite seqZ_nil by lia. reflexivity. }
  assert (HB : (B ≤ E)%Z) by lia.
  destruct (Z.ltb_spec (E * Day) (B * Day)) as [Hlt|_].
  { unfold Day, Time.Second in Hlt. lia. }
  rewrite seqZ_cons by lia. rewrite fmap_cons. f_equal.
  { f_equal. lia. }
  replace (B * Day + Day)%Z with ((B + 1) * Day)%Z by ring.
  rewrite IH by lia.
  replace (Z.pred (E - B + 1)) with (E - (B + 1) + 1)%Z by lia.
  change (Z.succ 0) with (1 + 0)%Z.
  rewrite <- (fmap_add_seqZ 1 0), <- list_fmap_compose.
  apply list_fmap_ext. intros _ k _. simpl. f_equal. lia.
Qed.

Lemma dates_seq beg end_ :
  dates beg end_
  = (λ k, (beg / Day + k) * Day)%Z <$> seqZ 0 (end_ / Day - beg / Day + 1).
Proof.
  unfold dates, date.
  rewrite <- Z.mul_sub_distr_r, Z.div_mul by discriminate.
  now apply dates_loop_seq.
Qed.

(** X22.  [dates] lists the midnights from the day of [beg] to the day of
    [end_], one per day and in order; there is none when the day of [end_]
    is before the day of [beg]. *)
Theorem dates_days beg end_ :
  dates beg end_
  = (λ k, (beg / Day + k) * Day)%Z <$> seqZ 0 (end_ / Day - beg / Day + 1)
  ∧ length (dates beg end_) = Z.to_nat (end_ / Day - beg / Day + 1)
  ∧ ∀ d, d ∈ dates beg end_ ↔
         ((d mod Day = 0)%Z ∧ (date beg ≤ d ≤ date end_)%Z).
Proof.
  split; [apply dates_seq|]. split.
  { rewrite dates_seq, length_fmap, length_seqZ. reflexivity. }
  intros d. rewrite dates_seq, list_elem_of_fmap. unfold date.
  assert (HDay : (0 < Day)%Z) by reflexivity.
  split.
  - intros (k & -> & Hk%elem_of_seqZ). split.
    + apply Z.mod_mul. lia.
    + nia.
  - intros (Hmod & Hle).
    exists (d / Day - beg / Day)%Z. split.
    + replace (beg / Day + (d / Day - beg / Day))%Z with (d / Day)%Z by lia.
      pose proof (Z.div_mod d Day ltac:(lia)). lia.
    + apply elem_of_seqZ.
      pose proof (Z.div_mod d Day ltac:(lia)). nia.
Qed.

Section Digest.

Context {Digest : Type}.
Variable Digest_String : Digest → string.
Variable HexN : Digest → nat → string.
Variable IsZero : Digest → bool.
Variable IsAbbrev : Digest → bool.

Local Abbreviation buildQueries :=
  (TaskDB.buildQueries Digest_String HexN IsZero IsAbbrev).
Local Abbreviation Runs_responses :=
  (TaskDB.Runs_responses Digest_String HexN IsZero IsAbbrev).
Local Abbreviation Tasks_responses :=
  (TaskDB.Tasks_responses Digest_String HexN IsZero IsAbbrev).
Local Abbreviation Runs_rows :=
  (TaskDB.Runs_rows Digest_String HexN IsZero IsAbbrev).
Local Abbreviation Tasks_rows :=
  (TaskDB.Tasks_rows Digest_String HexN IsZero IsAbbrev).
Local Abbreviation bucket := (TaskDBProps.bucket (Digest := Digest)).
Local Abbreviation exec := (TaskDB.exec Digest_String HexN).

(** *** The queries that panic *)

Lemma buildQueries_None t (q : Query) typ now :
  buildQueries t q typ now = None ↔
  IsZero (ID q) = true
  ∧ ((IsZero (RunID q) = false ∧ typ = run) ∨ Since q = Time.zeroTime).
Proof.
  unfold TaskDB.buildQueries.
  destruct (IsZero (ID q)); cbn [negb].
  2:{ split; [discriminate | intros [? _]; discriminate]. }
  destruct (IsZero (RunID q)); cbn [negb andb].
  - destruct (bool_decide_reflect (Since q = Time.zeroTime)) as [Hz|Hz].
    + split; [auto | reflexivity].
    + split.
      * destruct (negb _), (bool_decide (typ = run)), (_ <$> _);
          discriminate.
      * intros [_ [[? _]|?]]; [discriminate | contradiction].
  - destruct (bool_decide_reflect (typ = run)) as [Ht|Ht].
    + split; [auto | reflexivity].
    + destruct (bool_decide_reflect (Since q = Time.zeroTime)) as [Hz|Hz].
      * split; [auto | reflexivity].
      * split.
        -- destruct (negb _), (_ <$> _); discriminate.
        -- intros [_ [[_ ?]|?]]; contradiction.
Qed.

(** X23.  The queries whose building panics, before anything is sent.
    [buildQueries], as [Runs] calls it, panics exactly on a query without ID
    that has a RunID or no Since, and then [Runs] panics, whatever the store
    would answer.  The queries of [Tasks] are built unless the query has no
    ID, no RunID and no Since: exactly then [Tasks] panics before it sends
    anything.  So for a query by RunID alone [Tasks] sends its one query,
    and [Runs] panics. *)
Theorem queries_that_panic DB t (q : Query) now :
  (buildQueries t q run now = None ↔
   IsZero (ID q) = true
   ∧ (IsZero (RunID q) = false ∨ Since q = Time.zeroTime))
  ∧ (Runs_responses DB t q now = None ↔ buildQueries t q run now = None)
  ∧ (buildQueries t q run now = None →
     ∀ Digester_Parse Expands time_Parse RFC3339 dateLayout,
       Decode.Runs Digest_String HexN IsZero IsAbbrev Digester_Parse Expands
         time_Parse RFC3339 dateLayout DB t q now = None)
  ∧ (Tasks_responses DB t q now = None ↔
     IsZero (RunID q) = true ∧ IsZero (ID q) = true
     ∧ Since q = Time.zeroTime)
  ∧ (IsZero (ID q) = true → IsZero (RunID q) = false →
     buildQueries t q run now = None
     ∧ ∃ input, buildRunIdQuery Digest_String t q = [input]
                ∧ Tasks_responses DB t q now = Some (sent DB input)).
Proof.
  assert (Hruns : buildQueries t q run now = None ↔
                  IsZero (ID q) = true
                  ∧ (IsZero (RunID q) = false ∨ Since q = Time.zeroTime)).
  { rewrite buildQueries_None. split.
    - intros [Hid [[Hr _]|Hs]]; auto.
    - intros [Hid [Hr|Hs]]; auto. }
  split; [exact Hruns|]. split; [|split; [|split]].
  - unfold TaskDB.Runs_responses.
    destruct (buildQueries t q run now) as [qs|]; simpl;
      split; (discriminate || reflexivity).
  - intros Hb Digester_Parse Expands time_Parse RFC3339 dateLayout.
    unfold Decode.Runs, TaskDB.Runs_rows, TaskDB.Runs_responses.
    rewrite Hb. reflexivity.
  - unfold TaskDB.Tasks_responses.
    destruct (IsZero (RunID q)); cbn [negb].
    + pose proof (buildQueries_None t q task now) as Hb.
      destruct (buildQueries t q task now) as [qs|]; simpl.
      * split; [discriminate|]. intros (_ & Hid & Hs). exfalso.
        assert (Some qs = None); [|discriminate].
        apply Hb. auto.
      * split; [|reflexivity]. intros _.
        destruct (proj1 Hb eq_refl) as [Hid [[_ Ht]|Hs]];
          [discriminate | auto].
    + simpl. split; [discriminate | intros [? _]; discriminate].
  - intros Hid Hr. split; [apply Hruns; auto|].
    eexists. split; [reflexivity|].
    unfold TaskDB.Tasks_responses, sent. rewrite Hr. cbn [negb mbind option_bind].
    unfold TaskDB.buildRunIdQuery. cbn [QueryEach length].
    destruct (DB _); reflexivity.
Qed.

(** *** One query per day *)

(** X24.  A query by time whose Since is not after today is served by one
    query per day from the day of Since to today, in that order, each on
    the index of dates and keepalives, for its date and the keepalives
    after Since. *)
Theorem buildQueries_per_day t (q : Query) typ now :
  IsZero (ID q) = true → (typ = run → IsZero (RunID q) = true) →
  Since q ≠ Time.zeroTime → (Since q / Day ≤ now / Day)%Z →
  ∃ queries,
    buildQueries t q typ now = Some queries
    ∧ length queries = Z.to_nat (now / Day - Since q / Day + 1)
    ∧ ∀ k input, queries !! k = Some input →
        IndexName input = dateKeepaliveIndex
        ∧ KeyConditionExpression input = "#Date = :date and Keepalive > :ka "
        ∧ ExpressionAttributeValues input !! ":date"
          = Some (S_date (Since q / Day + Z.of_nat k))
        ∧ ExpressionAttributeValues input !! ":ka"
          = Some (S_time (Since q / Time.Second)).
Proof.
  intros Hid Hrun Hsince Hday.
  assert (Hne : dates (Since q) now ≠ []).
  { intros E. apply (f_equal length) in E.
    rewrite dates_seq, length_fmap, length_seqZ in E. simpl in E. lia. }
  exists (bucket t q typ <$> dates (Since q) now).
  split; [now apply buildQueries_buckets|]. split.
  { rewrite length_fmap, dates_seq, length_fmap, length_seqZ. reflexivity. }
  intros k input Hk. rewrite list_lookup_fmap, dates_seq in Hk.
  rewrite list_lookup_fmap in Hk.
  destruct (seqZ 0 _ !! k) as [j|] eqn:Hj; [|discriminate].
  apply lookup_seqZ in Hj as [-> _]. injection Hk as <-.
  unfold TaskDBProps.bucket, Format_dateLayout, Format_timeLayout.
  rewrite Z.div_mul by discriminate. rewrite Z.add_0_l.
  destruct (negb (Query_User q =? "")%string), (bool_decide (typ = run));
    repeat split.
Qed.

(** *** [Tasks] *)

Lemma QueryEach_snoc DB queries last_ :
  (∀ input, input ∈ queries ++ [last_] → ∃ items, DB input = inl items) →
  ∃ responses items,
    QueryEach DB (queries ++ [last_]) = inl (responses ++ [items])
    ∧ DB last_ = inl items.
Proof.
  induction queries as [|query queries IH]; intros Hall; simpl.
  - destruct (Hall last_) as [items Hq]; [left|]. rewrite Hq.
    now exists [], items.
  - destruct (Hall query) as [items0 Hq0]; [left|]. rewrite Hq0.
    destruct IH as (responses & items & -> & Hl).
    { intros input Hi. apply Hall. now right. }
    now exists (items0 :: responses), items.
Qed.

(** X25.  [Tasks] keeps the answer to the last query only.  For a query by
    time that is served by several queries, one per day, all answered, what
    [Tasks] goes on to decode is the answer to the query of the last day,
    once per query: the tasks of the days before are missing, and the ones
    of the last day are repeated. *)
Theorem Tasks_returns_last_day DB t (q : Query) now queries last_ :
  IsZero (RunID q) = true →
  buildQueries t q task now = Some (queries ++ [last_]) →
  (∀ input, input ∈ queries ++ [last_] → ∃ items, DB input = inl items) →
  ∃ items,
    DB last_ = inl items
    ∧ Tasks_rows DB t q now
      = Some (inl (concat (replicate (Datatypes.S (length queries)) items))).
Proof.
  intros Hrun Hb Hall.
  destruct (QueryEach_snoc DB queries last_ Hall)
    as (responses & items & Hq & Hl).
  exists items. split; [exact Hl|].
  unfold TaskDB.Tasks_rows, TaskDB.Tasks_responses.
  rewrite Hrun. cbn [negb]. rewrite Hb. cbn [mbind option_bind fmap option_fmap option_map].
  rewrite Hq, last_snoc, length_app. cbn [length default].
  now rewrite Nat.add_1_r.
Qed.

(** *** What a query by time returns *)

Lemma Query_bucket (table : Table) t (q : Query) typ d :
  DynamoDB.Query table (bucket t q typ d)
  = inl (filter
           (λ row, selects (bucket t q typ d)
                     (clauses (negb (Query_User q =? "")%string)
                              (bool_decide (typ = run))) row = true)
           ((map_to_list table).*2)).
Proof.
  unfold DynamoDB.Query, TaskDBProps.bucket.
  destruct (negb (Query_User q =? "")%string), (bool_decide (typ = run));
    reflexivity.
Qed.

Lemma selects_cons input c cs (row : Item) :
  selects input (c :: cs) row = true →
  satisfies (ExpressionAttributeNames input)
            (ExpressionAttributeValues input) row c = Some true
  ∧ selects input cs row = true.
Proof.
  unfold selects. cbn [satisfiesAll].
  destruct (satisfies _ _ row c) as [[]|]; cbn; try discriminate;
    destruct (satisfiesAll _ _ row cs) as [[]|]; cbn; try discriminate.
  auto.
Qed.

Lemma satisfies_eq names values (row : Item) name value attr v :
  attributeName names name = Some attr → values !! value = Some v →
  satisfies names values row (name, "=", value) = Some true →
  row !! attr = Some v.
Proof.
  intros Ha Hv. unfold satisfies. rewrite Ha. cbn. rewrite Hv. cbn.
  destruct (row !! attr) as [x|]; [|discriminate].
  unfold compare. cbn. intros [= Hd%bool_decide_eq_true]. now subst.
Qed.

Lemma satisfies_gt names values (row : Item) name value attr b :
  attributeName names name = Some attr → values !! value = Some (S_time b) →
  satisfies names values row (name, ">", value) = Some true →
  ∃ a, row !! attr = Some (S_time a) ∧ (b < a)%Z.
Proof.
  intros Ha Hv. unfold satisfies. rewrite Ha. cbn. rewrite Hv. cbn.
  destruct (row !! attr) as [x|]; [|discriminate].
  unfold compare. cbn. destruct x; try discriminate.
  intros [= Hlt%Z.ltb_lt]. eauto.
Qed.

Lemma QueryEach_inl DB queries responses :
  QueryEach DB queries = inl responses →
  ∀ items, items ∈ responses →
           ∃ input, input ∈ queries ∧ DB input = inl items.
Proof.
  revert responses.
  induction queries as [|query queries IH]; intros responses; simpl.
  { intros [= <-] items Hin. inversion Hin. }
  destruct (DB query) as [items0|] eqn:Hq; [|discriminate].
  destruct (QueryEach DB queries) as [rs|]; [|discriminate].
  intros [= <-] items [->|Hin]%elem_of_cons.
  - exists query. split; [left | exact Hq].
  - destruct (IH rs eq_refl items Hin) as (input & Hi & Hd).
    exists input. split; [now right | exact Hd].
Qed.

(** What the query of a day selects. *)
Lemma bucket_selected t (q : Query) d (row : Item) :
  selects (bucket t q run d)
    (clauses (negb (Query_User q =? "")%string) true) row = true →
  row !! colDate = Some (Format_dateLayout d)
  ∧ (∃ ka, row !! colKeepalive = Some (S_time ka)
           ∧ (Since q / Time.Second < ka)%Z)
  ∧ row !! colType = Some (S "run")
  ∧ (Query_User q ≠ "" → row !! colUser = Some (S (Query_User q))).
Proof.
  unfold clauses, TaskDBProps.bucket.
  rewrite bool_decide_true by reflexivity.
  destruct (String.eqb_spec (Query_User q) "") as [Hu|Hu]; cbn [negb app].
  - intros (Hd & (Hk & (Ht & _)%selects_cons)%selects_cons)%selects_cons.
    apply satisfies_eq with (attr := colDate) (v := Format_dateLayout d)
      in Hd; [|reflexivity..].
    apply satisfies_gt with (attr := colKeepalive)
                            (b := (Since q / Time.Second)%Z)
      in Hk; [|reflexivity..].
    apply satisfies_eq with (attr := colType) (v := S "run")
      in Ht; [|reflexivity..].
    split; [exact Hd|]. split; [exact Hk|]. split; [exact Ht|].
    intros Hne. contradiction.
  - intros (Hd & (Hk & (Hus & (Ht & _)%selects_cons)%selects_cons)
              %selects_cons)%selects_cons.
    apply satisfies_eq with (attr := colDate) (v := Format_dateLayout d)
      in Hd; [|reflexivity..].
    apply satisfies_gt with (attr := colKeepalive)
                            (b := (Since q / Time.Second)%Z)
      in Hk; [|reflexivity..].
    apply satisfies_eq with (attr := colUser) (v := S (Query_User q))
      in Hus; [|reflexivity..].
    apply satisfies_eq with (attr := colType) (v := S "run")
      in Ht; [|reflexivity..].
    split; [exact Hd|]. split; [exact Hk|]. split; [exact Ht|].
    intros _. exact Hus.
Qed.

(** X26.  What [Runs] returns for a query by time comes from the table and
    answers the query: each row it goes on to decode is a row of the table
    of type run, of the user asked for if one is, with a date from the day
    of Since to today and with a keepalive after Since, by the clock of the
    store, which counts whole seconds. *)
Theorem Runs_by_time_sound t (table : Table) (q : Query) now rows row :
  IsZero (ID q) = true →
  Runs_rows (DynamoDB.Query table) t q now = Some (inl rows) →
  row ∈ rows →
  (∃ key, table !! key = Some row)
  ∧ row !! colType = Some (S "run")
  ∧ (Query_User q ≠ "" → row !! colUser = Some (S (Query_User q)))
  ∧ ∃ ka d, row !! colKeepalive = Some (S_time ka)
            ∧ (Since q / Time.Second < ka)%Z
            ∧ row !! colDate = Some (S_date d)
            ∧ (Since q / Day ≤ d ≤ now / Day)%Z.
Proof.
  intros Hid Hrows Hrow.
  unfold TaskDB.Runs_rows, TaskDB.Runs_responses in Hrows.
  destruct (buildQueries t q run now) as [queries|] eqn:Hb; [|discriminate].
  cbn in Hrows.
  destruct (QueryEach (DynamoDB.Query table) queries) as [responses|] eqn:HQ;
    [|discriminate].
  injection Hrows as <-.
  apply list_elem_of_In, in_concat in Hrow as (items & Hitems & Hrow).
  apply list_elem_of_In in Hitems, Hrow.
  destruct (QueryEach_inl _ _ _ HQ items Hitems) as (input & Hinput & Hq).
  assert (Hsome : buildQueries t q run now ≠ None) by congruence.
  rewrite buildQueries_None in Hsome.
  assert (Hrun : IsZero (RunID q) = true).
  { destruct (IsZero (RunID q)); [reflexivity|]. exfalso. apply Hsome. auto. }
  assert (Hsince : Since q ≠ Time.zeroTime).
  { intros E. apply Hsome. auto. }
  destruct (dates (Since q) now) as [|d0 ds] eqn:Hdates.
  { exfalso. unfold TaskDB.buildQueries in Hb.
    rewrite Hid, Hrun, Hdates in Hb.
    rewrite (bool_decide_eq_false_2 (Since q = Time.zeroTime) Hsince) in Hb.
    cbn in Hb.
    destruct (negb (Query_User q =? "")%string); injection Hb as <-;
      apply list_elem_of_singleton in Hinput; subst input;
      discriminate Hq. }
  rewrite buildQueries_buckets in Hb; try assumption.
  2:{ intros _. exact Hrun. }
  2:{ rewrite Hdates. discriminate. }
  injection Hb as <-.
  apply list_elem_of_fmap in Hinput as (d & -> & Hd).
  rewrite Query_bucket in Hq. injection Hq as <-.
  apply list_elem_of_filter in Hrow as [Hsel Hin].
  apply bucket_selected in Hsel as (Hdate & (ka & Hka & Hlt) & Htype & Huser).
  split.
  { apply list_elem_of_fmap in Hin as ([key row'] & -> & Hin).
    exists key. now apply elem_of_map_to_list. }
  split; [exact Htype|]. split; [exact Huser|].
  exists ka, (d / Day)%Z. split; [exact Hka|]. split; [exact Hlt|].
  split; [exact Hdate|].
  rewrite dates_seq in Hd.
  apply list_elem_of_fmap in Hd as (k & -> & Hk%elem_of_seqZ).
  rewrite Z.div_mul by discriminate. lia.
Qed.

(** *** How the operations compose *)

Lemma exec_row_after t now (table : Table) (o : operation) :
  exec t now table o
  = <[Digest_String (operation_id o) :=
        row_after Digest_String HexN t now o
                  (table !! Digest_String (operation_id o))]> table.
Proof. destruct o; reflexivity. Qed.

Lemma row_after_commute t now1 now2 (o1 o2 : operation) w1 w2 old :
  writes o1 = Some w1 → writes o2 = Some w2 → (∀ a, a ∈ w1 → a ∉ w2) →
  Digest_String (operation_id o1) = Digest_String (operation_id o2) →
  row_after Digest_String HexN t now2 o2
    (Some (row_after Digest_String HexN t now1 o1 old))
  = row_after Digest_String HexN t now1 o1
      (Some (row_after Digest_String HexN t now2 o2 old)).
Proof.
  intros H1 H2 Hdisj Hkey.
  destruct o1, o2; try discriminate H1; try discriminate H2;
    injection H1 as <-; injection H2 as <-;
    try (exfalso; eapply Hdisj; [left|]; repeat constructor; fail);
    cbn in Hkey; cbn [row_after default operation_id]; rewrite Hkey;
    unfold Datatypes.id; apply map_eq; intros a; rewrite !lookup_insert;
    repeat case_decide; try reflexivity; subst; try discriminate.
Qed.

(** X27.  Operations that do not interfere commute: whether they are about
    different IDs, or update the same row ([SetTaskResult], [SetTaskAttrs]
    and [Keepalive] write different attributes), the table ends the same in
    either order.  A keepalive that arrives late does not undo a result. *)
Theorem operations_commute t now1 now2 (table : Table) (o1 o2 : operation) :
  independent Digest_String o1 o2 →
  exec t now2 (exec t now1 table o1) o2
  = exec t now1 (exec t now2 table o2) o1.
Proof.
  intros Hind. rewrite !exec_row_after.
  destruct (decide (Digest_String (operation_id o1)
                    = Digest_String (operation_id o2))) as [Heq|Hne].
  - destruct Hind as [Hne | (w1 & w2 & H1 & H2 & Hdisj)]; [contradiction|].
    rewrite <- Heq. rewrite !lookup_insert_eq, !insert_insert_eq. f_equal.
    apply (row_after_commute t now1 now2 o1 o2 w1 w2); assumption.
  - rewrite !lookup_insert_ne by congruence.
    now apply insert_insert_ne.
Qed.

(** *** Queries by ID *)

Lemma filter_keyed (P : Item → Prop) `{∀ row, Decision (P row)}
    (table : Table) key :
  (∀ k row, table !! k = Some row → P row → k = key) →
  filter P ((map_to_list table).*2)
  = match table !! key with
    | Some row => if decide (P row) then [row] else []
    | None => []
    end.
Proof.
  intros Hkey.
  assert (Hnone : ∀ m : Table,
    (∀ k row, m !! k = Some row → ¬ P row) →
    filter P ((map_to_list m).*2) = []).
  { intros m Hm.
    induction (map_to_list m) as [|[k row] l IH] eqn:El using rev_ind;
      [reflexivity|].
    destruct (filter P ((map_to_list m).*2)) as [|x xs] eqn:Ef;
      [now rewrite <- El|].
    exfalso.
    assert (Hx : x ∈ filter P ((map_to_list m).*2)) by (rewrite Ef; left).
    apply list_elem_of_filter in Hx as [HP Hx].
    apply list_elem_of_fmap in Hx as ([k' row'] & -> & Hx).
    apply elem_of_map_to_list in Hx. now apply (Hm k' row'). }
  destruct (table !! key) as [row|] eqn:Hrow.
  - apply Permutation_singleton_r || apply Permutation_nil_r || idtac.
    assert (Hperm : (map_to_list table).*2
                    ≡ₚ row :: (map_to_list (delete key table)).*2).
    { rewrite <- (map_to_list_delete table key row Hrow). reflexivity. }
    assert (Hrest : filter P ((map_to_list (delete key table)).*2) = []).
    { apply Hnone. intros k row' Hl HP.
      apply lookup_delete_Some in Hl as [Hne Hl].
      apply Hne. symmetry. now apply (Hkey k row'). }
    destruct (decide (P row)) as [HP|HP].
    + apply Permutation_singleton_r. rewrite Hperm.
      rewrite filter_cons_True by exact HP. now rewrite Hrest.
    + apply Permutation_nil_r. rewrite Hperm.
      rewrite filter_cons_False by exact HP. now rewrite Hrest.
  - apply Hnone. intros k row Hl HP.
    rewrite (Hkey k row Hl HP) in Hl. congruence.
Qed.

Lemma keyed_exec t now (table : Table) (o : operation) :
  keyed table → keyed (exec t now table o).
Proof.
  intros Hk key row. rewrite exec_row_after.
  intros [[<- <-] | [_ Hl]]%lookup_insert_Some; [|now apply Hk].
  destruct (table !! Digest_String (operation_id o)) as [old|] eqn:Hold.
  - apply Hk in Hold. destruct o; cbn [row_after default operation_id] in *;
      try reflexivity;
      rewrite ?lookup_insert_ne by discriminate; exact Hold.
  - destruct o; reflexivity.
Qed.

Lemma Query_by_ID t (table : Table) (q : Query) typ now :
  keyed table → IsZero (ID q) = false → IsAbbrev (ID q) = false →
  let found :=
    match table !! Digest_String (ID q) with
    | Some row =>
        if bool_decide (row !! colType = Some (S (objType_string typ)))
        then [row] else []
    | None => []
    end in
  ∃ input,
    buildQueries t q typ now = Some [input]
    ∧ DynamoDB.Query table input = inl found
    ∧ (typ = run →
       Runs_rows (DynamoDB.Query table) t q now = Some (inl found)).
Proof.
  intros Hk Hid Habbrev found.
  unfold TaskDB.Runs_rows, TaskDB.Runs_responses, TaskDB.buildQueries.
  rewrite Hid. cbn [negb]. unfold buildIdQuery. rewrite Habbrev.
  eexists. split; [reflexivity|].
  assert (Hq : DynamoDB.Query table
    {| TableName := TaskDB_TableName t; IndexName := idIndex;
       KeyConditionExpression := colID +:+ " = :testId";
       ExpressionAttributeValues :=
         <[":type" := S (objType_string typ)]>
           ({[ ":testId" := S (Digest_String (ID q)) ]} : Item);
       ExpressionAttributeNames := {[ "#Type" := colType ]};
       FilterExpression := Some "#Type = :type" |} = inl found).
  { unfold DynamoDB.Query.
    change (parseCondition (KeyConditionExpression _))
      with (Some [(colID, "=", ":testId")]).
    cbv zeta. cbn [FilterExpression].
    change (parseCondition "#Type = :type")
      with (Some [("#Type", "=", ":type")]).
    cbn [app]. f_equal.
    rewrite (filter_keyed _ table (Digest_String (ID q))).
    - unfold found. destruct (table !! Digest_String (ID q)) as [row|] eqn:Hr;
        [|reflexivity].
      apply Hk in Hr.
      destruct (bool_decide_reflect
                  (row !! colType = Some (S (objType_string typ))))
        as [Ht|Ht].
      + rewrite decide_True; [reflexivity|].
        unfold selects.
        rewrite (satisfiesAll_cons _ _ row (colID, "=", ":testId")
                   [("#Type", "=", ":type")]); [reflexivity | |].
        * eapply satisfies_intro;
            [reflexivity | reflexivity | exact Hr | apply compare_eq].
        * apply satisfiesAll_cons; [|reflexivity].
          eapply satisfies_intro;
            [reflexivity | reflexivity | exact Ht | apply compare_eq].
      + rewrite decide_False; [reflexivity|].
        intros (_ & (Hs & _)%selects_cons)%selects_cons. apply Ht.
        now apply satisfies_eq
          with (attr := colType) (v := S (objType_string typ)) in Hs.
    - intros k row Hl (Hs & _)%selects_cons.
      apply satisfies_eq with (attr := colID) (v := S (Digest_String (ID q)))
        in Hs; [|reflexivity..].
      apply Hk in Hl. congruence. }
  split; [exact Hq|].
  intros ->.
  cbn [mbind option_bind fmap option_fmap option_map QueryEach].
  rewrite Hq. cbn [concat]. now rewrite app_nil_r.
Qed.

(** X28.  Every row the operations store is stored under its ID, and a
    query by a full ID returns the row stored under that ID, if it is of
    the type asked for, and no other row; [Runs] sends that one query. *)
Theorem query_by_ID t (table : Table) (q : Query) typ now :
  keyed ∅
  ∧ (∀ now' o, keyed table → keyed (exec t now' table o))
  ∧ (keyed table → IsZero (ID q) = false → IsAbbrev (ID q) = false →
     let found :=
       match table !! Digest_String (ID q) with
       | Some row =>
           if bool_decide (row !! colType = Some (S (objType_string typ)))
           then [row] else []
       | None => []
       end in
     ∃ input,
       buildQueries t q typ now = Some [input]
       ∧ DynamoDB.Query table input = inl found
       ∧ (typ = run →
          Runs_rows (DynamoDB.Query table) t q now = Some (inl found))).
Proof.
  split; [intros key row Hl; now rewrite lookup_empty in Hl|].
  split; [intros now' o; apply keyed_exec|].
  apply Query_by_ID.
Qed.

End Digest.

(** *** Examples *)

Lemma buildQueries_per_day_witness :
  ∃ queries,
    buildQueries TaskDBExamples.Digest_String TaskDBExamples.HexN
      TaskDBExamples.IsZero TaskDBExamples.IsAbbrev TaskDBExamples.store
      (TaskDBExamples.sinceQuery TaskDBExamples.yesterday) run
      TaskDBExamples.noon = Some queries
    ∧ length queries
      = Z.to_nat (TaskDBExamples.noon / Day
                  - Since (TaskDBExamples.sinceQuery TaskDBExamples.yesterday)
                    / Day + 1)
    ∧ ∀ k input, queries !! k = Some input →
        IndexName input = dateKeepaliveIndex
        ∧ KeyConditionExpression input = "#Date = :date and Keepalive > :ka "
        ∧ ExpressionAttributeValues input !! ":date"
          = Some (S_date
                    (Since (TaskDBExamples.sinceQuery TaskDBExamples.yesterday)
                     / Day + Z.of_nat k))
        ∧ ExpressionAttributeValues input !! ":ka"
          = Some (S_time
                    (Since (TaskDBExamples.sinceQuery TaskDBExamples.yesterday)
                     / Time.Second)).
Proof.
  apply (buildQueries_per_day TaskDBExamples.Digest_String TaskDBExamples.HexN
           TaskDBExamples.IsZero TaskDBExamples.IsAbbrev TaskDBExamples.store
           (TaskDBExamples.sinceQuery TaskDBExamples.yesterday) run
           TaskDBExamples.noon).
  - reflexivity.
  - reflexivity.
  - vm_compute. discriminate.
  - vm_compute. discriminate.
Defined.

(** A query of an example table is answered: only the tag of the answer is
    computed. *)
Ltac answers :=
  match goal with
  | |- ∃ items, ?r = inl items =>
      let E := fresh in
      assert (E : match r with inl _ => true | inr _ => false end = true)
        by (vm_compute; reflexivity);
      destruct r; [eexists; reflexivity | discriminate E]
  end.

Lemma Tasks_returns_last_day_witness :
  let q := TaskDBExamples.sinceQuery (TaskDBExamples.yesterday - Day) in
  let day k := bucket TaskDBExamples.store q task
                 (date (TaskDBExamples.noon - k * Day)) in
  ∃ items,
    DynamoDB.Query TaskDBExamples.staleTask (day 0%Z) = inl items
    ∧ Tasks_rows TaskDBExamples.Digest_String TaskDBExamples.HexN
        TaskDBExamples.IsZero TaskDBExamples.IsAbbrev
        (DynamoDB.Query TaskDBExamples.staleTask) TaskDBExamples.store q
        TaskDBExamples.noon
      = Some (inl (concat (replicate 3 items))).
Proof.
  intros q day.
  apply (Tasks_returns_last_day TaskDBExamples.Digest_String
           TaskDBExamples.HexN TaskDBExamples.IsZero TaskDBExamples.IsAbbrev
           (DynamoDB.Query TaskDBExamples.staleTask) TaskDBExamples.store q
           TaskDBExamples.noon [day 2%Z; day 1%Z] (day 0%Z)).
  - reflexivity.
  - vm_compute. reflexivity.
  - intros input Hin. cbn [app] in Hin.
    rewrite !elem_of_cons, elem_of_nil in Hin.
    destruct Hin as [->|[->|[->|[]]]].
    + subst day q. answers.
    + subst day q. answers.
    + subst day q. answers.
Defined.

Lemma Runs_by_time_sound_witness :
  let row : Item := TaskDBExamples.oneRun !!! "9f3a" in
  (∃ key, TaskDBExamples.oneRun !! key = Some row)
  ∧ row !! colType = Some (S "run")
  ∧ (Query_User (TaskDBExamples.sinceQuery TaskDBExamples.yesterday) ≠ "" →
     row !! colUser
     = Some (S (Query_User
                  (TaskDBExamples.sinceQuery TaskDBExamples.yesterday))))
  ∧ ∃ ka d, row !! colKeepalive = Some (S_time ka)
            ∧ (Since (TaskDBExamples.sinceQuery TaskDBExamples.yesterday)
               / Time.Second < ka)%Z
            ∧ row !! colDate = Some (S_date d)
            ∧ (Since (TaskDBExamples.sinceQuery TaskDBExamples.yesterday)
               / Day ≤ d ≤ TaskDBExamples.noon / Day)%Z.
Proof.
  intros row.
  apply (Runs_by_time_sound TaskDBExamples.Digest_String TaskDBExamples.HexN
           TaskDBExamples.IsZero TaskDBExamples.IsAbbrev TaskDBExamples.store
           TaskDBExamples.oneRun
           (TaskDBExamples.sinceQuery TaskDBExamples.yesterday)
           TaskDBExamples.noon [row] row).
  - reflexivity.
  - subst row. vm_compute. reflexivity.
  - left.
Defined.

Lemma operations_commute_witness :
  exec TaskDBExamples.Digest_String TaskDBExamples.HexN TaskDBExamples.store
    TaskDBExamples.tomorrow
    (exec TaskDBExamples.Digest_String TaskDBExamples.HexN
       TaskDBExamples.store TaskDBExamples.noon TaskDBExamples.oneTask
       (SetTaskResult "77c1" "52d0"))
    (Keepalive "77c1" TaskDBExamples.tomorrow)
  = exec TaskDBExamples.Digest_String TaskDBExamples.HexN TaskDBExamples.store
      TaskDBExamples.noon
      (exec TaskDBExamples.Digest_String TaskDBExamples.HexN
         TaskDBExamples.store TaskDBExamples.tomorrow TaskDBExamples.oneTask
         (Keepalive "77c1" TaskDBExamples.tomorrow))
      (SetTaskResult "77c1" "52d0").
Proof.
  apply (operations_commute TaskDBExamples.Digest_String TaskDBExamples.HexN
           TaskDBExamples.store TaskDBExamples.noon TaskDBExamples.tomorrow
           TaskDBExamples.oneTask (SetTaskResult "77c1" "52d0")
           (Keepalive "77c1" TaskDBExamples.tomorrow)).
  right. exists [colResultID], [colKeepalive; colDate].
  split; [reflexivity|]. split; [reflexivity|].
  intros a ->%list_elem_of_singleton H.
  repeat (apply elem_of_cons in H as [H|H]; [discriminate|]).
  inversion H.
Defined.

End RowsFacts.

(** ** What [Runs] returns *)

Module DecodeFacts.
Import Errors DynamoDB TaskDB TaskDBProps TaskDBFacts Rows RowsFacts Decode.

(** *** [strings.Split] *)

Lemma append_snoc (piece : string) c s :
  (piece +:+ String c "") +:+ s = piece +:+ String c s.
Proof.
  induction piece as [|c' piece IH]; [reflexivity|].
  change (String c' ((piece +:+ String c "") +:+ s)
          = String c' (piece +:+ String c s)).
  now rewrite IH.
Qed.

Lemma append_empty (s : string) : s +:+ "" = s.
Proof.
  induction s as [|c s IH]; [reflexivity|].
  change (String c (s +:+ "") = String c s). now rewrite IH.
Qed.

Lemma Split_from_app k s piece :
  ContainsEq k = false →
  Split_from (k +:+ s) piece = Split_from s (piece +:+ k).
Proof.
  revert piece. induction k as [|c k IH]; intros piece; simpl.
  { intros _. now rewrite append_empty. }
  intros [Hc Hk]%orb_false_elim. rewrite Hc, IH by exact Hk.
  now rewrite append_snoc.
Qed.

Lemma Split_pair k v :
  ContainsEq k = false → ContainsEq v = false →
  Split (k +:+ "=" +:+ v) = [k; v].
Proof.
  intros Hk Hv. unfold Split. rewrite Split_from_app by exact Hk.
  change (Split_from ("=" +:+ v) ("" +:+ k)) with (k :: Split_from v "").
  f_equal. transitivity (Split_from (v +:+ "") "").
  { now rewrite append_empty. }
  rewrite Split_from_app by exact Hv. reflexivity.
Qed.

Section Digest.

Context {Digest : Type}.
Variable Digest_String : Digest → string.
Variable HexN : Digest → nat → string.
Variable IsZero : Digest → bool.
Variable IsAbbrev : Digest → bool.
Variable Digester_Parse : string → Digest * option error.
Variable Expands : Digest → Digest → bool.
Variable time_Parse : string → Z * option error.
Variable RFC3339 : Z → string.
Variable dateLayout : Z → string.

Local Abbreviation exec := (TaskDB.exec Digest_String HexN).
Local Abbreviation decode_row :=
  (Decode.decode_row IsZero IsAbbrev Digester_Parse Expands time_Parse
                     RFC3339 dateLayout).
Local Abbreviation decode_rows :=
  (Decode.decode_rows IsZero IsAbbrev Digester_Parse Expands time_Parse
                      RFC3339 dateLayout).
Local Abbreviation Runs :=
  (Decode.Runs Digest_String HexN IsZero IsAbbrev Digester_Parse Expands
               time_Parse RFC3339 dateLayout).
Local Abbreviation deref_S := (Decode.deref_S RFC3339 dateLayout).
Local Abbreviation kept := (Decode.kept Digest_String HexN).

(** What [Runs] returns for a query by a full ID, from the row stored under
    that ID. *)
Lemma Runs_by_ID t (table : Table) (q : Query) now row :
  keyed table → IsZero (ID q) = false → IsAbbrev (ID q) = false →
  table !! Digest_String (ID q) = Some row →
  row !! colType = Some (S "run") →
  Runs (DynamoDB.Query table) t q now
  = match decode_row q row with
    | None => None
    | Some ([], r) => Some (option_list r, None)
    | Some (errs, _) => Some ([], Some (Errorf (Join (text <$> errs) ", ")))
    end.
Proof.
  intros Hk Hid Habbrev Hrow Htype. unfold Decode.Runs.
  destruct (Query_by_ID Digest_String HexN IsZero IsAbbrev t table q run now
              Hk Hid Habbrev) as (input & _ & _ & Hrows).
  rewrite (Hrows eq_refl), Hrow.
  change (objType_string run) with "run".
  rewrite bool_decide_true by exact Htype.
  cbn [mbind option_bind Decode.decode_rows].
  destruct (decode_row q row) as [[errs r]|]; [|reflexivity].
  cbn [app]. destruct errs; reflexivity.
Qed.

(** The row of a run that was created and not kept alive. *)
Lemma created_row t now0 (table : Table) id user :
  exec t now0 table (CreateRun id user) !! Digest_String id
  = Some (put_Item (CreateRun_input Digest_String HexN t now0 id user)).
Proof. apply lookup_insert_eq. Qed.

(** X29.  [Runs] panics on a run that was created and never kept alive:
    the row [CreateRun] stores has no Keepalive attribute, and [Runs]
    dereferences it.  So a query by the full ID of such a run panics. *)
Theorem Runs_panics_before_Keepalive t now0 (table : Table) id user
    (q : Query) now :
  keyed table → ID q = id → IsZero id = false → IsAbbrev id = false →
  put_Item (CreateRun_input Digest_String HexN t now0 id user) !! colKeepalive
  = None
  ∧ Runs (DynamoDB.Query (exec t now0 table (CreateRun id user))) t q now
    = None.
Proof.
  intros Hk <- Hid Habbrev. split; [reflexivity|].
  rewrite (Runs_by_ID t _ q now
             (put_Item (CreateRun_input Digest_String HexN t now0 (ID q) user))).
  - unfold Decode.decode_row.
    change (deref_S (put_Item _) colID) with (Some (Digest_String (ID q))).
    cbn [mbind option_bind].
    destruct (Digester_Parse (Digest_String (ID q))) as [id err].
    rewrite Hid, Habbrev. cbn [negb andb].
    change (put_Item _ !! colLabels) with (Some (SS (Labels t))).
    cbn [mbind option_bind]. destruct (fold_left _ _ _) as [l errs].
    reflexivity.
  - now apply keyed_exec.
  - exact Hid.
  - exact Habbrev.
  - apply created_row.
  - reflexivity.
Qed.

(** *** The round trip *)

Lemma labels_errors (acc : gmap string string * list error) vas :
  acc.2 ≠ [] → (fold_left labels_step vas acc).2 ≠ [].
Proof.
  revert acc. induction vas as [|va vas IH]; intros [l errs] Hne; simpl;
    [exact Hne|].
  apply IH. destruct (Split va) as [|k [|v [|]]]; simpl; try exact Hne;
    now destruct errs.
Qed.

Lemma labels_malformed (acc : gmap string string * list error) vas va :
  va ∈ vas → length (Split va) ≠ 2%nat →
  (fold_left labels_step vas acc).2 ≠ [].
Proof.
  revert acc. induction vas as [|va' vas IH]; intros [l errs] Hin Hlen;
    [inversion Hin|].
  apply elem_of_cons in Hin as [<-|Hin]; simpl.
  - apply labels_errors.
    destruct (Split va) as [|k [|v [|]]]; simpl in *; try congruence;
      now destruct errs.
  - now apply IH.
Qed.

Lemma labels_Init (l : gmap string string) labels :
  Forall (λ kv : string * string,
            ContainsEq kv.1 = false ∧ ContainsEq kv.2 = false) labels →
  fold_left labels_step (Init_Labels labels) (l, [])
  = (fold_left (λ l kv, <[kv.1 := kv.2]> l) labels l, []).
Proof.
  revert l. induction labels as [|[k v] labels IH]; intros l Hall; simpl;
    [reflexivity|].
  inversion Hall as [|? ? [Hk Hv] Hrest]; subst. simpl in Hk, Hv.
  rewrite (Split_pair k v Hk Hv). now apply IH.
Qed.

Lemma kept_row t now0 now1 ka (table : Table) id user :
  exec t now1 (exec t now0 table (CreateRun id user)) (Keepalive id ka)
    !! Digest_String id
  = Some (kept t now0 ka id user).
Proof.
  rewrite (exec_row_after Digest_String HexN t now1 _ (Keepalive id ka)).
  cbn [operation_id]. rewrite lookup_insert_eq. f_equal.
  rewrite created_row. reflexivity.
Qed.

(** X30.  What is written is read back, to the second.  For a run created
    at [now0] by a store whose labels [Init] made, and kept alive until
    [ka], a query by the full ID returns, when the digest and the two times
    parse back: if no key and no value of a label contains an equal sign,
    the one run, with the ID, the labels, the user, and the start and the
    keepalive cut to the second; and if a label of the store does not split
    in two at the equal sign, no run and an error. *)
Theorem Runs_round_trip t now0 now1 ka (table : Table) id user (q : Query)
    now :
  keyed table → ID q = id → IsZero id = false → IsAbbrev id = false →
  Digester_Parse (Digest_String id) = (id, None) →
  time_Parse (RFC3339 (now0 / Time.Second))
  = ((now0 / Time.Second * Time.Second)%Z, None) →
  time_Parse (RFC3339 (ka / Time.Second))
  = ((ka / Time.Second * Time.Second)%Z, None) →
  let table' :=
    exec t now1 (exec t now0 table (CreateRun id user)) (Keepalive id ka) in
  (∀ labels,
     Labels t = Init_Labels labels →
     Forall (λ kv : string * string,
               ContainsEq kv.1 = false ∧ ContainsEq kv.2 = false) labels →
     Runs (DynamoDB.Query table') t q now
     = Some ([ {| Run_ID := id;
                  Run_Labels :=
                    fold_left (λ l kv, <[kv.1 := kv.2]> l) labels ∅;
                  Run_User := user;
                  Run_Keepalive := (ka / Time.Second * Time.Second)%Z;
                  Run_Start := (now0 / Time.Second * Time.Second)%Z |} ],
             None))
  ∧ (∀ va, va ∈ Labels t → length (Split va) ≠ 2%nat →
       ∃ e, Runs (DynamoDB.Query table') t q now = Some ([], Some e)).
Proof.
  intros Hk <- Hid Habbrev Hparse Hstart Hka table'.
  assert (Hruns : Runs (DynamoDB.Query table') t q now
    = match decode_row q (kept t now0 ka (ID q) user) with
      | None => None
      | Some ([], r) => Some (option_list r, None)
      | Some (errs, _) =>
          Some ([], Some (Errorf (Join (text <$> errs) ", ")))
      end).
  { apply Runs_by_ID; try assumption.
    - unfold table'. now do 2 apply keyed_exec.
    - apply kept_row.
    - reflexivity. }
  assert (Hrow : decode_row q (kept t now0 ka (ID q) user)
    = let '(l, errs) := fold_left labels_step (Labels t) (∅, []) in
      Some (errs,
            Some {| Run_ID := ID q; Run_Labels := l; Run_User := user;
                    Run_Keepalive := (ka / Time.Second * Time.Second)%Z;
                    Run_Start := (now0 / Time.Second * Time.Second)%Z |})).
  { unfold Decode.decode_row.
    change (deref_S (kept _ _ _ _ _) colID) with (Some (Digest_String (ID q))).
    cbn [mbind option_bind]. rewrite Hparse, Hid, Habbrev.
    cbn [negb andb parse_error].
    change (kept _ _ _ _ _ !! colLabels) with (Some (SS (Labels t))).
    cbn [mbind option_bind field_SS].
    destruct (fold_left labels_step (Labels t) (∅, [])) as [l errs].
    change (deref_S (kept _ _ _ _ _) colKeepalive)
      with (Some (RFC3339 (ka / Time.Second))).
    cbn [mbind option_bind]. rewrite Hka. cbn [parse_error].
    change (deref_S (kept _ _ _ _ _) colStartTime)
      with (Some (RFC3339 (now0 / Time.Second))).
    cbn [mbind option_bind]. rewrite Hstart. cbn [parse_error].
    change (deref_S (kept _ _ _ _ _) "User") with (Some user).
    cbn [mbind option_bind]. now rewrite !app_nil_r. }
  rewrite Hruns, Hrow. split.
  - intros labels -> Hall. rewrite (labels_Init ∅ labels Hall). reflexivity.
  - intros va Hin Hlen.
    pose proof (labels_malformed (∅, []) (Labels t) va Hin Hlen) as Hne.
    destruct (fold_left labels_step (Labels t) (∅, [])) as [l errs].
    simpl in Hne. destruct errs as [|e errs]; [contradiction|]. eauto.
Qed.

End Digest.

Lemma Runs_panics_before_Keepalive_witness :
  put_Item (CreateRun_input TaskDBExamples.Digest_String TaskDBExamples.HexN
              TaskDBExamples.store TaskDBExamples.yesterday full "alice")
    !! colKeepalive = None
  ∧ Runs TaskDBExamples.Digest_String TaskDBExamples.HexN
      TaskDBExamples.IsZero TaskDBExamples.IsAbbrev example_Parse
      example_Expands example_time_Parse example_RFC3339 example_RFC3339
      (DynamoDB.Query
         (exec TaskDBExamples.Digest_String TaskDBExamples.HexN
            TaskDBExamples.store TaskDBExamples.yesterday ∅
            (CreateRun full "alice")))
      TaskDBExamples.store byID TaskDBExamples.noon
    = None.
Proof.
  apply (Runs_panics_before_Keepalive TaskDBExamples.Digest_String
           TaskDBExamples.HexN TaskDBExamples.IsZero TaskDBExamples.IsAbbrev
           example_Parse example_Expands example_time_Parse example_RFC3339
           example_RFC3339 TaskDBExamples.store TaskDBExamples.yesterday ∅
           full "alice" byID TaskDBExamples.noon).
  - intros key row Hl. now rewrite lookup_empty in Hl.
  - reflexivity.
  - reflexivity.
  - reflexivity.
Defined.

Lemma Runs_round_trip_witness :
  let table' :=
    exec TaskDBExamples.Digest_String TaskDBExamples.HexN
      TaskDBExamples.store TaskDBExamples.noon
      (exec TaskDBExamples.Digest_String TaskDBExamples.HexN
         TaskDBExamples.store TaskDBExamples.yesterday ∅
         (CreateRun full "alice"))
      (Keepalive full TaskDBExamples.noon) in
  let Runs :=
    Runs TaskDBExamples.Digest_String TaskDBExamples.HexN
      TaskDBExamples.IsZero TaskDBExamples.IsAbbrev example_Parse
      example_Expands example_time_Parse example_RFC3339 example_RFC3339 in
  (∀ labels,
     Labels TaskDBExamples.store = Init_Labels labels →
     Forall (λ kv : string * string,
               ContainsEq kv.1 = false ∧ ContainsEq kv.2 = false) labels →
     Runs (DynamoDB.Query table') TaskDBExamples.store byID TaskDBExamples.noon
     = Some ([ {| Run_ID := full;
                  Run_Labels :=
                    fold_left (λ l kv, <[kv.1 := kv.2]> l) labels ∅;
                  Run_User := "alice";
                  Run_Keepalive :=
                    (TaskDBExamples.noon / Time.Second * Time.Second)%Z;
                  Run_Start :=
                    (TaskDBExamples.yesterday / Time.Second
                     * Time.Second)%Z |} ],
             None))
  ∧ (∀ va, va ∈ Labels TaskDBExamples.store → length (Split va) ≠ 2%nat →
       ∃ e, Runs (DynamoDB.Query table') TaskDBExamples.store byID
                 TaskDBExamples.noon = Some ([], Some e)).
Proof.
  apply (Runs_round_trip TaskDBExamples.Digest_String TaskDBExamples.HexN
           TaskDBExamples.IsZero TaskDBExamples.IsAbbrev example_Parse
           example_Expands example_time_Parse example_RFC3339 example_RFC3339
           TaskDBExamples.store TaskDBExamples.yesterday TaskDBExamples.noon
           TaskDBExamples.noon ∅ full "alice" byID TaskDBExamples.noon).
  - intros key row Hl. now rewrite lookup_empty in Hl.
  - reflexivity.
  - reflexivity.
  - reflexivity.
  - reflexivity.
  - vm_compute. reflexivity.
  - vm_compute. reflexivity.
Defined.

End DecodeFacts.
